(** * 9router: account arbiter, error classifier, token-refresh retry and
    Cursor wire codec

  A shallow embedding of the JavaScript sources

    - open-sse/services/accountFallback.js   (error classifier, cooldowns)
    - src/sse/services/auth.js               (account arbiter)
    - src/sse/handlers/chat.js               (dispatch loop)
    - open-sse/services/tokenRefresh.js      (retry wrapper)
    - open-sse/utils/cursorProtobuf.js       (Cursor codec)
    - open-sse/executors/cursor.js           (Cursor executor)
    - open-sse/executors/base.js             (URL fallback)
    - open-sse/services/combo.js             (model combos)
    - open-sse/utils/error.js                (unavailable response)

  Numbers are modelled as [Z] (or [nat] for counters that the code only
  ever increments from 0), timestamps as milliseconds since the epoch in
  [Z], byte buffers as [list Z] with every element in [0, 255], and
  strings as [string], holding the UTF-8 form of the JavaScript string: a
  code point is one to four characters, and a surrogate that stands alone
  is written as the three bytes it would have as a code point.  Optional
  object fields are [option] values. *)

From Stdlib Require Import ZArith List String Ascii Bool Lia.
From Stdlib Require DecimalString Sorted.
Import ListNotations.
Open Scope string_scope.
Open Scope list_scope.
Open Scope Z_scope.

(* ================================================================== *)
(** ** JavaScript primitives used by the sources *)
(* ================================================================== *)

Module JS.

(** [String.prototype.toLowerCase], on the ASCII letters.  The patterns the
    classifier searches for consist of ASCII letters and spaces only and
    contain no [k]; the two code points outside ASCII whose lower-case
    form contains an ASCII letter (U+0130 and U+212A) therefore cannot
    create or destroy a match. *)
Definition lower_ascii (c : ascii) : ascii :=
  let n := nat_of_ascii c in
  if (Nat.leb 65 n && Nat.leb n 90)%bool then ascii_of_nat (n + 32) else c.

Fixpoint toLowerCase (s : string) : string :=
  match s with
  | EmptyString => EmptyString
  | String c s' => String (lower_ascii c) (toLowerCase s')
  end.

(** [String.prototype.startsWith]. *)
Definition startsWith (s pat : string) : bool := String.prefix pat s.

(** [String.prototype.includes]. *)
Fixpoint includes (s pat : string) : bool :=
  match s with
  | EmptyString => startsWith EmptyString pat
  | String _ s' => startsWith s pat || includes s' pat
  end.

(** The first half of the surrogate pair that stands for a code point of
    four bytes, from the first three of them, in the three-byte form a
    lone surrogate has in this representation. *)
Definition highSurrogate (c1 : ascii) (rest : string) : string :=
  match rest with
  | String c2 (String c3 _) =>
      let b1 := Z.of_nat (nat_of_ascii c1) in
      let b2 := Z.of_nat (nat_of_ascii c2) in
      let b3 := Z.of_nat (nat_of_ascii c3) in
      let hi :=
        0xD800 + ((b1 mod 8) * 256 + (b2 mod 64) * 4 + (b3 mod 64) / 16)
        - 64 in
      String (ascii_of_nat 0xED)
        (String (ascii_of_nat (Z.to_nat (0x80 + (hi / 64) mod 64)))
           (String (ascii_of_nat (Z.to_nat (0x80 + hi mod 64)))
                   EmptyString))
  | _ => EmptyString
  end.

(** The loop of [slice0]: [units] code units are still to be taken and
    [pending] bytes of the code point being copied are still to come.  A
    code point of one, two or three bytes is one code unit, one of four
    bytes is two; when one unit is left before a code point of four
    bytes, the slice ends with the first half of its pair. *)
Fixpoint sliceFrom (units pending : nat) (s : string) : string :=
  match s with
  | EmptyString => EmptyString
  | String c s' =>
      match pending with
      | S p => String c (sliceFrom units p s')
      | O =>
          let b := nat_of_ascii c in
          let cost := if Nat.leb 240 b then 2%nat else 1%nat in
          let more :=
            if Nat.ltb b 192 then 0%nat
            else if Nat.ltb b 224 then 1%nat
            else if Nat.ltb b 240 then 2%nat
            else 3%nat in
          if Nat.leb cost units then
            String c (sliceFrom (units - cost) more s')
          else if Nat.eqb units 1 then highSurrogate c s'
          else EmptyString
      end
  end.

(** [String.prototype.slice(0, n)]: the first [n] UTF-16 code units. *)
Definition slice0 (n : nat) (s : string) : string := sliceFrom n 0 s.

(** Truthiness of a string value. *)
Definition truthy_string (s : string) : bool :=
  match s with EmptyString => false | _ => true end.

(** Truthiness of a number. *)
Definition truthy_num (z : Z) : bool := negb (z =? 0).

(** [x || d] on a possibly missing number. *)
Definition num_or (x : option Z) (d : Z) : Z :=
  match x with
  | Some z => if truthy_num z then z else d
  | None => d
  end.

(** [ToInt32] and [ToUint32]. *)
Definition toUint32 (z : Z) : Z := z mod 2 ^ 32.
Definition toInt32 (z : Z) : Z :=
  let u := toUint32 z in if u <? 2 ^ 31 then u else u - 2 ^ 32.

(** The shift operators: the count is taken modulo 32 and the left operand
    is first converted to a 32-bit integer. *)
Definition shr (x n : Z) : Z := Z.shiftr (toInt32 x) (n mod 32).
Definition ushr (x n : Z) : Z := Z.shiftr (toUint32 x) (n mod 32).
Definition shl (x n : Z) : Z := toInt32 (Z.shiftl (toInt32 x) (n mod 32)).

(** The bitwise operators, on 32-bit integers. *)
Definition band (x y : Z) : Z := Z.land (toInt32 x) (toInt32 y).
Definition bor (x y : Z) : Z := Z.lor (toInt32 x) (toInt32 y).
Definition bxor (x y : Z) : Z := Z.lxor (toInt32 x) (toInt32 y).

End JS.

(** How a call or a block completes: normally, or by throwing. *)
Inductive Completion (A : Type) : Type :=
| Normal (a : A)
| Throw (message : string).
Arguments Normal {A} a.
Arguments Throw {A} message.

(* ================================================================== *)
(** ** Configuration tables (open-sse/config/constants.js) *)
(* ================================================================== *)

(** Modelled from the spec: the [HTTP_STATUS] table of
    open-sse/config/constants.js, which is not among the sources.  The
    values are the ones section 4.1 of the specification attaches to each
    rule of the classifier. *)
Module HTTP_STATUS.
Definition BAD_REQUEST : Z := 400.
Definition UNAUTHORIZED : Z := 401.
Definition PAYMENT_REQUIRED : Z := 402.
Definition FORBIDDEN : Z := 403.
Definition NOT_FOUND : Z := 404.
Definition NOT_ACCEPTABLE : Z := 406.
Definition REQUEST_TIMEOUT : Z := 408.
Definition RATE_LIMITED : Z := 429.
Definition SERVER_ERROR : Z := 500.
Definition BAD_GATEWAY : Z := 502.
Definition SERVICE_UNAVAILABLE : Z := 503.
Definition GATEWAY_TIMEOUT : Z := 504.
End HTTP_STATUS.

(** The cooldown table [COOLDOWN_MS]; its values are configuration. *)
Module Cooldown.
Record t : Type := Build {
  unauthorized : Z;
  paymentRequired : Z;
  notFound : Z;
  transient : Z;
  requestNotAllowed : Z
}.
End Cooldown.

(** The table [BACKOFF_CONFIG]; its values are configuration. *)
Module Backoff.
Record t : Type := Build {
  base : Z;
  max : Z;
  maxLevel : nat
}.
End Backoff.

Record Config : Type := {
  COOLDOWN_MS : Cooldown.t;
  BACKOFF_CONFIG : Backoff.t
}.

(** A configuration with the values quoted by the comment of
    [getQuotaCooldown] (1 s base, 2 min ceiling). *)
Definition sampleConfig : Config :=
  {| COOLDOWN_MS := Cooldown.Build 120000 120000 120000 5000 5000;
     BACKOFF_CONFIG := Backoff.Build 1000 120000 15 |}.

(* ================================================================== *)
(** ** Error classifier (open-sse/services/accountFallback.js) *)
(* ================================================================== *)

(** The [errorText] argument: missing or falsy, a string, some other
    truthy value for which [JSON.stringify] gives a text (carried), or a
    truthy value for which it gives none.  [JSON.stringify] returns
    [undefined] for a function or a symbol, on which [toLowerCase] cannot
    be called, and throws for a BigInt, a cyclic object or a failing
    [toJSON]; [thrown] is the message of the exception raised either
    way. *)
Inductive ErrorText : Type :=
| ErrAbsent
| ErrString (s : string)
| ErrObject (json : string)
| ErrOpaque (thrown : string).

Record FallbackResult : Type := {
  shouldFallback : bool;
  cooldownMs : Z;
  newBackoffLevel : option nat
}.

Module AccountFallback.
Section WithConfig.

Variable cfg : Config.

Definition getQuotaCooldown (backoffLevel : nat) : Z :=
  let cooldown :=
    Backoff.base (BACKOFF_CONFIG cfg) * 2 ^ Z.of_nat backoffLevel in
  Z.min cooldown (Backoff.max (BACKOFF_CONFIG cfg)).

(** [if (errorText)] *)
Definition truthy (e : ErrorText) : bool :=
  match e with
  | ErrAbsent => false
  | ErrString s => JS.truthy_string s
  | ErrObject _ => true
  | ErrOpaque _ => true
  end.

(** [(typeof errorText === "string" ? errorText
      : JSON.stringify(errorText)).toLowerCase()], which is evaluated for
    a truthy [errorText] only. *)
Definition lowerErrorOf (e : ErrorText) : Completion string :=
  match e with
  | ErrAbsent => Normal ""
  | ErrString s => Normal (JS.toLowerCase s)
  | ErrObject json => Normal (JS.toLowerCase json)
  | ErrOpaque thrown => Throw thrown
  end.

Definition fallback (ms : Z) : FallbackResult :=
  {| shouldFallback := true; cooldownMs := ms; newBackoffLevel := None |}.

Definition backoff (backoffLevel : nat) : FallbackResult :=
  let newLevel :=
    Nat.min (backoffLevel + 1) (Backoff.maxLevel (BACKOFF_CONFIG cfg)) in
  {| shouldFallback := true;
     cooldownMs := getQuotaCooldown backoffLevel;
     newBackoffLevel := Some newLevel |}.

Definition transientStatuses : list Z :=
  [ HTTP_STATUS.NOT_ACCEPTABLE; HTTP_STATUS.REQUEST_TIMEOUT;
    HTTP_STATUS.SERVER_ERROR; HTTP_STATUS.BAD_GATEWAY;
    HTTP_STATUS.SERVICE_UNAVAILABLE; HTTP_STATUS.GATEWAY_TIMEOUT ].

(** The part of [checkFallbackError] that looks at the status only. *)
Definition checkStatus (status : Z) (backoffLevel : nat) : FallbackResult :=
  if status =? HTTP_STATUS.UNAUTHORIZED then
    fallback (Cooldown.unauthorized (COOLDOWN_MS cfg))
  else if (status =? HTTP_STATUS.PAYMENT_REQUIRED)
          || (status =? HTTP_STATUS.FORBIDDEN) then
    fallback (Cooldown.paymentRequired (COOLDOWN_MS cfg))
  else if status =? HTTP_STATUS.NOT_FOUND then
    fallback (Cooldown.notFound (COOLDOWN_MS cfg))
  else if status =? HTTP_STATUS.RATE_LIMITED then
    backoff backoffLevel
  else if existsb (Z.eqb status) transientStatuses then
    fallback (Cooldown.transient (COOLDOWN_MS cfg))
  else
    fallback (Cooldown.transient (COOLDOWN_MS cfg)).

(** [checkFallbackError(status, errorText, backoffLevel)]; nothing in it
    catches the exception of [lowerErrorOf]. *)
Definition checkFallbackError
    (status : Z) (errorText : ErrorText) (backoffLevel : nat)
    : Completion FallbackResult :=
  if truthy errorText then
    match lowerErrorOf errorText with
    | Throw thrown => Throw thrown
    | Normal lowerError =>
        if JS.includes lowerError "no credentials" then
          Normal (fallback (Cooldown.notFound (COOLDOWN_MS cfg)))
        else if JS.includes lowerError "request not allowed" then
          Normal (fallback (Cooldown.requestNotAllowed (COOLDOWN_MS cfg)))
        else if JS.includes lowerError "rate limit"
                || JS.includes lowerError "too many requests"
                || JS.includes lowerError "quota exceeded"
                || JS.includes lowerError "capacity"
                || JS.includes lowerError "overloaded" then
          Normal (backoff backoffLevel)
        else Normal (checkStatus status backoffLevel)
    end
  else Normal (checkStatus status backoffLevel).

End WithConfig.
End AccountFallback.

(* ================================================================== *)
(** ** Credential store (collaborator) *)
(* ================================================================== *)

(** A stored connection.  Instants (ISO strings in the store) are kept as
    the milliseconds [new Date(s).getTime()] gives.  [backoffLevel] and
    [consecutiveUseCount] are only read through [x || 0], so a missing
    value is represented by 0. *)
Module Conn.
Record t : Type := Build {
  id : string;
  provider : string;
  isActive : bool;
  priority : Z;
  apiKey : option string;
  accessToken : option string;
  refreshToken : option string;
  projectId : option string;
  providerSpecificData : option string;
  testStatus : string;
  lastError : option string;
  errorCode : option Z;
  lastErrorAt : option Z;
  rateLimitedUntil : option Z;
  backoffLevel : nat;
  lastUsedAt : option Z;
  consecutiveUseCount : Z
}.
End Conn.

(** The object handed to [updateProviderConnection]: each field is either
    left out ([None]) or given a new value. *)
Module Patch.
Record t : Type := Build {
  testStatus : option string;
  lastError : option (option string);
  errorCode : option (option Z);
  lastErrorAt : option (option Z);
  rateLimitedUntil : option (option Z);
  backoffLevel : option nat;
  lastUsedAt : option (option Z);
  consecutiveUseCount : option Z
}.

Definition empty : t := Build None None None None None None None None.

Definition set {A : Type} (new : option A) (old : A) : A :=
  match new with Some v => v | None => old end.

Definition apply (p : t) (c : Conn.t) : Conn.t :=
  Conn.Build
    (Conn.id c) (Conn.provider c) (Conn.isActive c) (Conn.priority c)
    (Conn.apiKey c) (Conn.accessToken c) (Conn.refreshToken c)
    (Conn.projectId c) (Conn.providerSpecificData c)
    (set (testStatus p) (Conn.testStatus c))
    (set (lastError p) (Conn.lastError c))
    (set (errorCode p) (Conn.errorCode c))
    (set (lastErrorAt p) (Conn.lastErrorAt c))
    (set (rateLimitedUntil p) (Conn.rateLimitedUntil c))
    (set (backoffLevel p) (Conn.backoffLevel c))
    (set (lastUsedAt p) (Conn.lastUsedAt c))
    (set (consecutiveUseCount p) (Conn.consecutiveUseCount c)).
End Patch.

(** [Array.prototype.sort] with a comparator that returns a number: the
    sort is stable, and for a comparator that is a total preorder its result
    is the one insertion sort gives. *)
Section Sort.
Context {A : Type} (cmp : A -> A -> Z).

Fixpoint insertSorted (x : A) (l : list A) : list A :=
  match l with
  | [] => [x]
  | y :: l' => if cmp x y <=? 0 then x :: l else y :: insertSorted x l'
  end.

Fixpoint sort (l : list A) : list A :=
  match l with
  | [] => []
  | x :: l' => insertSorted x (sort l')
  end.
End Sort.

Module Store.

(** The store and the log of the writes made to it, oldest first. *)
Record t : Type := Build {
  connections : list Conn.t;
  writes : list (string * Patch.t)
}.

Record Filter : Type := {
  f_provider : option string;
  f_isActive : option bool
}.

Definition matches (f : Filter) (c : Conn.t) : bool :=
  match f_provider f with
  | Some p => String.eqb (Conn.provider c) p
  | None => true
  end
  &&
  match f_isActive f with
  | Some a => Bool.eqb (Conn.isActive c) a
  | None => true
  end.

(** Modelled from the spec: [getConnections({provider, isActive?})] of the
    credential store (lib/localDb, not among the sources) returns the
    matching connections sorted by [priority] ascending. *)
Definition getProviderConnections (f : Filter) (s : t) : list Conn.t :=
  sort (fun a b => Conn.priority a - Conn.priority b)
       (filter (matches f) (connections s)).

(** Modelled from the spec: [updateConnection(id, patch)] of the
    credential store merges the patch into the connection with that id,
    atomically, and touches nothing else. *)
Definition updateProviderConnection
    (id : string) (p : Patch.t) (s : t) : t :=
  Build
    (map (fun c => if String.eqb (Conn.id c) id then Patch.apply p c else c)
         (connections s))
    (writes s ++ [(id, p)]).

Definition find (id : string) (l : list Conn.t) : option Conn.t :=
  List.find (fun c => String.eqb (Conn.id c) id) l.

End Store.

(** Process-wide settings. *)
Record Settings : Type := {
  fallbackStrategy : option string;
  stickyRoundRobinLimit : option Z
}.

(* ================================================================== *)
(** ** Cooldown helpers (open-sse/services/accountFallback.js) *)
(* ================================================================== *)

Module Cooldowns.

(** [isAccountUnavailable(unavailableUntil)], with [Date.now()] = [now]. *)
Definition isAccountUnavailable (now : Z) (unavailableUntil : option Z)
    : bool :=
  match unavailableUntil with
  | None => false
  | Some u => now <? u
  end.

(** [getUnavailableUntil(cooldownMs)]. *)
Definition getUnavailableUntil (now cooldownMs : Z) : Z := now + cooldownMs.

(** One turn of the loop of [getEarliestRateLimitedUntil]; [!earliest]
    holds for [null] and for 0. *)
Definition earliestStep (now : Z) (earliest : option Z) (acc : Conn.t)
    : option Z :=
  match Conn.rateLimitedUntil acc with
  | None => earliest
  | Some until =>
      if until <=? now then earliest
      else match earliest with
           | None => Some until
           | Some e =>
               if negb (JS.truthy_num e) || (until <? e)
               then Some until else earliest
           end
  end.

Definition getEarliestRateLimitedUntil (now : Z) (accounts : list Conn.t)
    : option Z :=
  match fold_left (earliestStep now) accounts None with
  | None => None
  | Some e => if JS.truthy_num e then Some e else None
  end.

End Cooldowns.

(* ================================================================== *)
(** ** Account arbiter (src/sse/services/auth.js) *)
(* ================================================================== *)

(** Store-passing computations: the arbiter reads and writes the credential
    store between its steps. *)
Definition M (A : Type) : Type := Store.t -> A * Store.t.

Definition ret {A : Type} (a : A) : M A := fun s => (a, s).

Definition bind {A B : Type} (m : M A) (k : A -> M B) : M B :=
  fun s => let (a, s') := m s in k a s'.

Definition getConnections (f : Store.Filter) : M (list Conn.t) :=
  fun s => (Store.getProviderConnections f s, s).

Definition updateConnection (id : string) (p : Patch.t) : M unit :=
  fun s => (tt, Store.updateProviderConnection id p s).

Declare Scope store_scope.
Delimit Scope store_scope with store.
Notation "x <- m ;; k" := (bind m (fun x => k))
  (at level 61, m at next level, right associativity) : store_scope.
Notation "m ;;; k" := (bind m (fun _ => k))
  (at level 61, right associativity) : store_scope.

(** The snapshot [getProviderCredentials] returns for the chosen
    connection. *)
Module Creds.
Record t : Type := Build {
  apiKey : option string;
  accessToken : option string;
  refreshToken : option string;
  projectId : option string;
  providerSpecificData : option string;
  connectionId : string;
  testStatus : string;
  lastError : option string;
  rateLimitedUntil : option Z
}.

Definition ofConn (connection : Conn.t) : t :=
  Build (Conn.apiKey connection) (Conn.accessToken connection)
        (Conn.refreshToken connection) (Conn.projectId connection)
        (Conn.providerSpecificData connection) (Conn.id connection)
        (Conn.testStatus connection) (Conn.lastError connection)
        (Conn.rateLimitedUntil connection).
End Creds.

(** What [getProviderCredentials] returns: [null], the sentinel
    [{allRateLimited: true, retryAfter, lastError, lastErrorCode}] (its
    [retryAfterHuman] is a rendering of [retryAfter] and is left out), or
    the snapshot of a connection. *)
Inductive Selection : Type :=
| NoCredentials
| AllRateLimited (retryAfter : Z) (lastError : option string)
                 (lastErrorCode : option Z)
| Selected (credentials : Creds.t).

Module Auth.

(** [excludeConnectionId && c.id === excludeConnectionId] *)
Definition isExcluded (excludeConnectionId : option string) (c : Conn.t)
    : bool :=
  match excludeConnectionId with
  | Some e => JS.truthy_string e && String.eqb (Conn.id c) e
  | None => false
  end.

(** The filter callback of [availableConnections]. *)
Definition isAvailable (now : Z) (excludeConnectionId : option string)
    (c : Conn.t) : bool :=
  if isExcluded excludeConnectionId c then false
  else if Cooldowns.isAccountUnavailable now (Conn.rateLimitedUntil c)
  then false
  else true.

(** [c.rateLimitedUntil && new Date(c.rateLimitedUntil).getTime() > Date.now()] *)
Definition isRateLimited (now : Z) (c : Conn.t) : bool :=
  match Conn.rateLimitedUntil c with
  | Some u => now <? u
  | None => false
  end.

Definition untilOf (c : Conn.t) : Z :=
  match Conn.rateLimitedUntil c with Some u => u | None => 0 end.

(** [x || null] on a string and on a number. *)
Definition strOrNull (x : option string) : option string :=
  match x with
  | Some s => if JS.truthy_string s then Some s else None
  | None => None
  end.

Definition numOrNull (x : option Z) : option Z :=
  match x with
  | Some z => if JS.truthy_num z then Some z else None
  | None => None
  end.

(** [c?.field] for an optional field. *)
Definition optField {A : Type} (field : Conn.t -> option A)
    (c : option Conn.t) : option A :=
  match c with Some c' => field c' | None => None end.

(** The connection whose error the sentinel reports. *)
Definition earliestConn (now : Z) (connections : list Conn.t)
    : option Conn.t :=
  let rateLimitedConns := filter (isRateLimited now) connections in
  hd_error (sort (fun a b => untilOf a - untilOf b) rateLimitedConns).

(** [(a.priority || 999) - (b.priority || 999)] *)
Definition byPriority (a b : Conn.t) : Z :=
  JS.num_or (Some (Conn.priority a)) 999
  - JS.num_or (Some (Conn.priority b)) 999.

(** The comparator of [byRecency]: most recently used first, never-used
    connections last. *)
Definition cmpRecency (a b : Conn.t) : Z :=
  match Conn.lastUsedAt a, Conn.lastUsedAt b with
  | None, None => byPriority a b
  | None, Some _ => 1
  | Some _, None => -1
  | Some ta, Some tb => tb - ta
  end.

(** The comparator of [sortedByOldest]: never-used connections first, then
    least recently used first. *)
Definition cmpOldest (a b : Conn.t) : Z :=
  match Conn.lastUsedAt a, Conn.lastUsedAt b with
  | None, None => byPriority a b
  | None, Some _ => -1
  | Some _, None => 1
  | Some ta, Some tb => ta - tb
  end.

(** The two branches of the round-robin strategy, as the connection chosen
    and the patch persisted for it. *)
Definition roundRobin (now stickyLimit : Z) (first : Conn.t)
    (availableConnections : list Conn.t) : Conn.t * Patch.t :=
  let byRecency := sort cmpRecency availableConnections in
  let current := hd first byRecency in
  let currentCount := Conn.consecutiveUseCount current in
  match Conn.lastUsedAt current with
  | Some _ =>
      if currentCount <? stickyLimit then
        (current,
         Patch.Build None None None None None None
           (Some (Some now)) (Some (Conn.consecutiveUseCount current + 1)))
      else
        let sortedByOldest := sort cmpOldest availableConnections in
        (hd first sortedByOldest,
         Patch.Build None None None None None None
           (Some (Some now)) (Some 1))
  | None =>
      let sortedByOldest := sort cmpOldest availableConnections in
      (hd first sortedByOldest,
       Patch.Build None None None None None None
         (Some (Some now)) (Some 1))
  end.

Definition strategyOf (settings : Settings) : string :=
  match fallbackStrategy settings with
  | Some s => if JS.truthy_string s then s else "fill-first"
  | None => "fill-first"
  end.

Definition stickyLimitOf (settings : Settings) : Z :=
  JS.num_or (stickyRoundRobinLimit settings) 3.

Open Scope store_scope.

(** [getProviderCredentials(provider, excludeConnectionId)].  The mutex
    makes the body run alone; [now] stands for the clock readings of one
    run. *)
Definition getProviderCredentials (settings : Settings) (now : Z)
    (provider : string) (excludeConnectionId : option string)
    : M Selection :=
  connections <-
    getConnections {| Store.f_provider := Some provider;
                      Store.f_isActive := Some true |} ;;
  match connections with
  | [] =>
      allConnections <-
        getConnections {| Store.f_provider := Some provider;
                          Store.f_isActive := None |} ;;
      match allConnections with
      | [] => ret NoCredentials
      | _ :: _ =>
          match Cooldowns.getEarliestRateLimitedUntil now allConnections with
          | Some earliest => ret (AllRateLimited earliest None None)
          | None => ret NoCredentials
          end
      end
  | _ :: _ =>
      let availableConnections :=
        filter (isAvailable now excludeConnectionId) connections in
      match availableConnections with
      | [] =>
          match Cooldowns.getEarliestRateLimitedUntil now connections with
          | Some earliest =>
              let c := earliestConn now connections in
              ret (AllRateLimited earliest
                     (strOrNull (optField Conn.lastError c))
                     (numOrNull (optField Conn.errorCode c)))
          | None => ret NoCredentials
          end
      | first :: _ =>
          if String.eqb (strategyOf settings) "round-robin" then
            let (connection, patch) :=
              roundRobin now (stickyLimitOf settings) first
                         availableConnections in
            updateConnection (Conn.id connection) patch ;;;
            ret (Selected (Creds.ofConn connection))
          else
            ret (Selected (Creds.ofConn first))
      end
  end.

(** What [markAccountUnavailable] returns. *)
Record MarkResult : Type := {
  mr_shouldFallback : bool;
  mr_cooldownMs : Z
}.

(** [typeof errorText === "string" ? errorText.slice(0, 100) : "Provider error"] *)
Definition reasonOf (errorText : ErrorText) : string :=
  match errorText with
  | ErrString s => JS.slice0 100 s
  | _ => "Provider error"
  end.

(** [markAccountUnavailable(connectionId, status, errorText, provider)].
    An exception of the classifier leaves the function after the read and
    before any write. *)
Definition markAccountUnavailable (cfg : Config) (now : Z)
    (connectionId : string) (status : Z) (errorText : ErrorText)
    (provider : option string) : M (Completion MarkResult) :=
  connections <-
    getConnections {| Store.f_provider := provider;
                      Store.f_isActive := None |} ;;
  let conn := Store.find connectionId connections in
  let backoffLevel :=
    match conn with Some c => Conn.backoffLevel c | None => O end in
  match AccountFallback.checkFallbackError cfg status errorText
                                           backoffLevel with
  | Throw thrown => ret (Throw thrown)
  | Normal r =>
      if negb (shouldFallback r) then
        ret (Normal {| mr_shouldFallback := false; mr_cooldownMs := 0 |})
      else
        let rateLimitedUntil :=
          Cooldowns.getUnavailableUntil now (cooldownMs r) in
        let reason := reasonOf errorText in
        updateConnection connectionId
          (Patch.Build (Some "unavailable") (Some (Some reason))
             (Some (Some status)) (Some (Some now))
             (Some (Some rateLimitedUntil))
             (Some match newBackoffLevel r with
                   | Some l => l
                   | None => backoffLevel
                   end)
             None None) ;;;
        ret (Normal {| mr_shouldFallback := true;
                       mr_cooldownMs := cooldownMs r |})
  end.

(** [hasError] of [clearAccountError]. *)
Definition hasError (currentConnection : Creds.t) : bool :=
  String.eqb (Creds.testStatus currentConnection) "unavailable"
  || match Creds.lastError currentConnection with
     | Some e => JS.truthy_string e
     | None => false
     end
  || match Creds.rateLimitedUntil currentConnection with
     | Some _ => true
     | None => false
     end.

Definition clearPatch : Patch.t :=
  Patch.Build (Some "active") (Some None) None (Some None) (Some None)
              (Some O) None None.

(** [clearAccountError(connectionId, currentConnection)]. *)
Definition clearAccountError (connectionId : string)
    (currentConnection : Creds.t) : M unit :=
  if negb (hasError currentConnection) then ret tt
  else updateConnection connectionId clearPatch.

Close Scope store_scope.

End Auth.

(* ================================================================== *)
(** ** Dispatch loop (src/sse/handlers/chat.js, handleSingleModelChat) *)
(* ================================================================== *)

(** What [handleChatCore] reports for one upstream attempt. *)
Inductive ChatResult : Type :=
| ChatSuccess (response : string)
| ChatFailure (status : Z) (error : ErrorText) (response : string).

(** How the account loop is left: through one of its [return] statements,
    or by an exception that nothing in it catches. *)
Inductive Exit : Type :=
| ExitUnavailable (status : Z) (retryAfter : Z)
| ExitNoCredentials
| ExitNoMoreAccounts (status : Z)
| ExitSuccess (response : string)
| ExitUpstreamError (response : string)
| ExitThrown (thrown : string).

Module Chat.
Section Loop.

Variable cfg : Config.
Variable settings : Settings.
Variable provider : string.

(** [Date.now()] during the n-th turn of the loop. *)
Variable clock : nat -> Z.

(** [checkAndRefreshToken] followed by [handleChatCore], for the n-th turn
    of the loop; both live outside the sources and are reached over the
    network. *)
Variable handleChatCore : nat -> Creds.t -> ChatResult.

Record LoopState : Type := {
  excludeConnectionId : option string;
  lastError : option ErrorText;
  lastStatus : option Z
}.

Definition initial : LoopState :=
  {| excludeConnectionId := None; lastError := None; lastStatus := None |}.

Open Scope store_scope.

(** One turn of [while (true)]: either the loop is left, or it goes round
    again with a new state. *)
Definition turn (n : nat) (st : LoopState) : M (Exit + LoopState) :=
  credentials <-
    Auth.getProviderCredentials settings (clock n) provider
                                (excludeConnectionId st) ;;
  match credentials with
  | AllRateLimited retryAfter _ lastErrorCode =>
      let status :=
        JS.num_or (lastStatus st)
          (JS.num_or lastErrorCode HTTP_STATUS.SERVICE_UNAVAILABLE) in
      ret (inl (ExitUnavailable status retryAfter))
  | NoCredentials =>
      match excludeConnectionId st with
      | None => ret (inl ExitNoCredentials)
      | Some e =>
          if JS.truthy_string e then
            ret (inl (ExitNoMoreAccounts
                        (JS.num_or (lastStatus st)
                                   HTTP_STATUS.SERVICE_UNAVAILABLE)))
          else ret (inl ExitNoCredentials)
      end
  | Selected creds =>
      match handleChatCore n creds with
      | ChatSuccess response =>
          (* onRequestSuccess *)
          Auth.clearAccountError (Creds.connectionId creds) creds ;;;
          ret (inl (ExitSuccess response))
      | ChatFailure status error response =>
          marked <- Auth.markAccountUnavailable cfg (clock n)
                      (Creds.connectionId creds) status error
                      (Some provider) ;;
          match marked with
          | Throw thrown => ret (inl (ExitThrown thrown))
          | Normal r =>
              if Auth.mr_shouldFallback r then
                ret (inr {| excludeConnectionId :=
                              Some (Creds.connectionId creds);
                            lastError := Some error;
                            lastStatus := Some status |})
              else
                ret (inl (ExitUpstreamError response))
          end
      end
  end.

(** The loop, run for at most [fuel] turns starting at turn [n]; [None]
    when the turns are used up. *)
Fixpoint accountLoop (fuel n : nat) (st : LoopState) : M (option Exit) :=
  match fuel with
  | O => ret None
  | S fuel' =>
      r <- turn n st ;;
      match r with
      | inl e => ret (Some e)
      | inr st' => accountLoop fuel' (S n) st'
      end
  end.

Close Scope store_scope.

End Loop.
End Chat.

(* ================================================================== *)
(** ** Token refresh retry (open-sse/services/tokenRefresh.js) *)
(* ================================================================== *)

(** What the retry wrapper does besides returning: the timers it awaits and
    the calls it makes, in order. *)
Inductive RetryEvent : Type :=
| Sleep (delayMs : Z)
| Call (attempt : nat).

(** A value [refreshFn] throws, as the [catch] block uses it: [null] or
    [undefined], of which [error.message] cannot be read, or another
    value, with what the template literal makes of its [message]: a text,
    or an exception when the message cannot be converted. *)
Inductive Thrown : Type :=
| ThrownNullish
| ThrownValue (message : Completion string).

(** How an invocation of [refreshFn] settles: with a value, or with a
    thrown one. *)
Inductive Settled (Token : Type) : Type :=
| Resolved (result : Token)
| Rejected (error : Thrown).
Arguments Resolved {Token} result.
Arguments Rejected {Token} error.

(** The methods of the [log] argument the wrapper calls, each missing or a
    function of what the message is made of: the attempt for [debug], the
    attempt and the error's message for [warn]. *)
Record Logger : Type := {
  lg_debug : option (nat -> Completion unit);
  lg_warn : option (nat -> string -> Completion unit);
  lg_error : option (Completion unit)
}.

Module TokenRefresh.
Section Retry.

(** The values [refreshFn] resolves to, with [if (result)] on them. *)
Variable Token : Type.
Variable truthy : Token -> bool.

(** The n-th invocation of [refreshFn]. *)
Variable refreshFn : nat -> Settled Token.

(** The [log] argument, [null] by default. *)
Variable log : option Logger.

(** [log?.method?.(...)] *)
Definition logCall {F : Type} (method : Logger -> option F)
    (call : F -> Completion unit) : Completion unit :=
  match log with
  | None => Normal tt
  | Some l =>
      match method l with
      | None => Normal tt
      | Some f => call f
      end
  end.

(** The [catch] block: the arguments of [warn], hence [error.message],
    are evaluated only when there is a [warn] to call. *)
Definition onCatch (attempt : nat) (error : Thrown) : Completion unit :=
  logCall lg_warn
    (fun warn =>
       match error with
       | ThrownNullish =>
           Throw "TypeError: Cannot read properties of null"
       | ThrownValue (Throw thrown) => Throw thrown
       | ThrownValue (Normal message) => warn attempt message
       end).

(** The body of the [for] loop for one value of [attempt]: [Some r] when
    the function returns [r] from inside the loop, [None] when the loop
    goes on. *)
Definition attemptBody (attempt : nat)
    : Completion (option Token) * list RetryEvent :=
  let waited :=
    if (0 <? attempt)%nat then
      match logCall lg_debug (fun debug => debug attempt) with
      | Throw thrown => (Throw thrown, [])
      | Normal _ => (Normal tt, [Sleep (Z.of_nat attempt * 1000)])
      end
    else (Normal tt, []) in
  match waited with
  | (Throw thrown, evs) => (Throw thrown, evs)
  | (Normal _, evs) =>
      (match refreshFn attempt with
       | Resolved result =>
           if truthy result then Normal (Some result) else Normal None
       | Rejected error =>
           match onCatch attempt error with
           | Throw thrown => Throw thrown
           | Normal _ => Normal None
           end
       end,
       evs ++ [Call attempt])
  end.

(** [for (let attempt = 0; attempt < maxRetries; attempt++)], with
    [remaining = maxRetries - attempt]; [None] stands for the [null]
    returned after the loop. *)
Fixpoint retryFrom (remaining attempt : nat)
    : Completion (option Token) * list RetryEvent :=
  match remaining with
  | O =>
      match logCall lg_error (fun error => error) with
      | Throw thrown => (Throw thrown, [])
      | Normal _ => (Normal None, [])
      end
  | S remaining' =>
      let (c, evs) := attemptBody attempt in
      match c with
      | Normal (Some result) => (Normal (Some result), evs)
      | Normal None =>
          let (r, evs') := retryFrom remaining' (S attempt) in
          (r, evs ++ evs')
      | Throw thrown => (Throw thrown, evs)
      end
  end.

Definition refreshWithRetry (maxRetries : nat)
    : Completion (option Token) * list RetryEvent :=
  retryFrom maxRetries 0.

(** The delays awaited, in order. *)
Definition delays (evs : list RetryEvent) : list Z :=
  flat_map (fun e => match e with Sleep d => [d] | Call _ => [] end) evs.

(** The attempts made, in order. *)
Definition calls (evs : list RetryEvent) : list nat :=
  flat_map (fun e => match e with Sleep _ => [] | Call a => [a] end) evs.

End Retry.
End TokenRefresh.

(* ================================================================== *)
(** ** Cursor wire codec (open-sse/utils/cursorProtobuf.js) *)
(* ================================================================== *)

(** A [Uint8Array] or [Buffer]: its elements, each in [0, 255]. *)
Definition Bytes : Type := list Z.

Module Buf.

Definition len (b : Bytes) : Z := Z.of_nat (List.length b).

(** [b[i]] for an index inside the array. *)
Definition get (b : Bytes) (i : Z) : Z := nth (Z.to_nat i) b 0.

(** A relative index of [slice]: negative indices count from the end. *)
Definition clamp (n i : Z) : Z :=
  if i <? 0 then Z.max (n + i) 0 else Z.min i n.

(** [b.slice(start, end)]. *)
Definition slice (b : Bytes) (start end_ : Z) : Bytes :=
  let s := clamp (len b) start in
  let e := clamp (len b) end_ in
  firstn (Z.to_nat (e - s)) (skipn (Z.to_nat s) b).

(** The bytes of U+FFFD, the replacement character. *)
Definition replacement : Bytes := [0xEF; 0xBF; 0xBD].

(** The characters of a string as bytes, and back. *)
Definition bytesOf (s : string) : Bytes :=
  map (fun c => Z.of_nat (nat_of_ascii c)) (list_ascii_of_string s).

Definition stringOf (b : Bytes) : string :=
  string_of_list_ascii (map (fun z => ascii_of_nat (Z.to_nat z)) b).

(** The encoder writes U+FFFD for a surrogate that stands alone: the
    three bytes that begin with 0xED and a second byte from 0xA0 on. *)
Fixpoint scalarValues (bytes : Bytes) : Bytes :=
  match bytes with
  | [] => []
  | b1 :: rest =>
      match rest with
      | b2 :: _ :: rest' =>
          if (b1 =? 0xED) && (0xA0 <=? b2)
          then replacement ++ scalarValues rest'
          else b1 :: scalarValues rest
      | _ => b1 :: scalarValues rest
      end
  end.

(** [new TextEncoder().encode(s)]. *)
Definition ofString (s : string) : Bytes := scalarValues (bytesOf s).

(** The state of the UTF-8 decoder between two bytes: how many bytes of
    the code point are still needed, the bytes read of it, and the range
    the next one must lie in. *)
Record Utf8State : Type := {
  needed : nat;
  seen : Bytes;
  lower : Z;
  upper : Z
}.

Definition initial : Utf8State :=
  {| needed := 0; seen := []; lower := 0x80; upper := 0xBF |}.

(** A byte read when no code point is under way: what is written, and
    the state after it. *)
Definition lead (b : Z) : Bytes * Utf8State :=
  if b <=? 0x7F then ([b], initial)
  else if (0xC2 <=? b) && (b <=? 0xDF) then
    ([], {| needed := 1; seen := [b]; lower := 0x80; upper := 0xBF |})
  else if (0xE0 <=? b) && (b <=? 0xEF) then
    ([], {| needed := 2; seen := [b];
            lower := if b =? 0xE0 then 0xA0 else 0x80;
            upper := if b =? 0xED then 0x9F else 0xBF |})
  else if (0xF0 <=? b) && (b <=? 0xF4) then
    ([], {| needed := 3; seen := [b];
            lower := if b =? 0xF0 then 0x90 else 0x80;
            upper := if b =? 0xF4 then 0x8F else 0xBF |})
  else (replacement, initial).

(** The decoder, without the [fatal] flag: a byte that cannot continue
    the code point under way ends it with U+FFFD and is read again as a
    first byte; so does the end of the input. *)
Fixpoint decodeFrom (st : Utf8State) (bytes : Bytes) : Bytes :=
  match bytes with
  | [] => match needed st with O => [] | S _ => replacement end
  | b :: rest =>
      match needed st with
      | O => let (out, st') := lead b in out ++ decodeFrom st' rest
      | S n =>
          if (lower st <=? b) && (b <=? upper st) then
            match n with
            | O => seen st ++ [b] ++ decodeFrom initial rest
            | S _ =>
                decodeFrom {| needed := n; seen := seen st ++ [b];
                              lower := 0x80; upper := 0xBF |} rest
            end
          else
            let (out, st') := lead b in
            replacement ++ out ++ decodeFrom st' rest
      end
  end.

(** [b.toString("utf-8")] of a [Buffer]. *)
Definition toString (b : Bytes) : string := stringOf (decodeFrom initial b).

(** [new TextDecoder().decode(b)], which also leaves out a byte order
    mark at the start. *)
Definition decode (b : Bytes) : string :=
  match b with
  | b1 :: b2 :: b3 :: rest =>
      if (b1 =? 0xEF) && (b2 =? 0xBB) && (b3 =? 0xBF)
      then stringOf (decodeFrom initial rest)
      else stringOf (decodeFrom initial b)
  | _ => stringOf (decodeFrom initial b)
  end.

End Buf.

(** The third argument of [encodeField]. *)
Inductive FieldValue : Type :=
| VNum (n : Z)
| VStr (s : string)
| VBytes (b : Bytes).

(** A chat message handed to the encoder. *)
Record Message : Type := {
  role : string;
  content : string
}.

(** What the encoder takes from its surroundings: the identifiers
    [uuidv4()] returns, in call order, and the process information
    [encodeMetadata] reads. *)
Record Env : Type := {
  uuidv4 : nat -> string;
  platform : string;
  arch : string;
  version : string;
  cwd : string;
  isoNow : string
}.

Module CursorProtobuf.

(** The loop of [encodeVarint]; [value >>>= 7] leaves a value below 2^25,
    so five turns are always enough. *)
Fixpoint encodeVarintLoop (fuel : nat) (value : Z) : Bytes :=
  match fuel with
  | O => [JS.band value 0x7F]
  | S fuel' =>
      if 0x80 <=? value then
        JS.bor (JS.band value 0x7F) 0x80
          :: encodeVarintLoop fuel' (JS.ushr value 7)
      else [JS.band value 0x7F]
  end.

Definition encodeVarint (value : Z) : Bytes := encodeVarintLoop 5 value.

(** [encodeField(fieldNum, wireType, value)].  Every call site passes a
    number with wire type 0 and a string or bytes with wire type 2. *)
Definition encodeField (fieldNum wireType : Z) (value : FieldValue)
    : Bytes :=
  let tag := JS.bor (JS.shl fieldNum 3) wireType in
  let tagBytes := encodeVarint tag in
  if wireType =? 0 then
    let valueBytes :=
      match value with
      | VNum n => encodeVarint n
      | _ => [0]
      end in
    tagBytes ++ valueBytes
  else if wireType =? 2 then
    let dataBytes :=
      match value with
      | VStr s => Buf.ofString s
      | VBytes b => b
      | VNum _ => []
      end in
    let lengthBytes := encodeVarint (Buf.len dataBytes) in
    tagBytes ++ lengthBytes ++ dataBytes
  else [].

Definition concatArrays (arrays : list Bytes) : Bytes :=
  List.concat arrays.

Definition encodeMessage (content : string) (role : Z) (messageId : string)
    (chatModeEnum : option Z) : Bytes :=
  concatArrays
    ([ encodeField 1 2 (VStr content);
       encodeField 2 0 (VNum role);
       encodeField 13 2 (VStr messageId) ]
     ++ match chatModeEnum with
        | Some m => [encodeField 47 0 (VNum m)]
        | None => []
        end).

Definition encodeInstruction (instructionText : string) : Bytes :=
  if JS.truthy_string instructionText
  then encodeField 1 2 (VStr instructionText)
  else [].

Definition encodeModel (modelName : string) : Bytes :=
  concatArrays
    [ encodeField 1 2 (VStr modelName); encodeField 4 2 (VBytes []) ].

Definition encodeCursorSetting : Bytes :=
  let unknown6 :=
    concatArrays
      [ encodeField 1 2 (VBytes []); encodeField 2 2 (VBytes []) ] in
  concatArrays
    [ encodeField 1 2 (VStr "cursor\aisettings");
      encodeField 3 2 (VBytes []);
      encodeField 6 2 (VBytes unknown6);
      encodeField 8 0 (VNum 1);
      encodeField 9 0 (VNum 1) ].

Definition encodeMetadata (env : Env) : Bytes :=
  concatArrays
    [ encodeField 1 2 (VStr (platform env));
      encodeField 2 2 (VStr (arch env));
      encodeField 3 2 (VStr (version env));
      encodeField 4 2 (VStr (cwd env));
      encodeField 5 2 (VStr (isoNow env)) ].

Definition encodeMessageId (messageId : string) (role : Z)
    (summaryId : option string) : Bytes :=
  concatArrays
    ([ encodeField 1 2 (VStr messageId) ]
     ++ match summaryId with
        | Some s =>
            if JS.truthy_string s then [encodeField 2 2 (VStr s)] else []
        | None => []
        end
     ++ [ encodeField 3 0 (VNum role) ]).

(** The entries of [formattedMessages], built by the first loop of
    [encodeRequest]; the i-th message takes the i-th identifier. *)
Record Formatted : Type := {
  fm_content : string;
  fm_role : Z;
  fm_messageId : string;
  fm_chatModeEnum : option Z
}.

Fixpoint formatMessages (env : Env) (i : nat) (messages : list Message)
    : list Formatted :=
  match messages with
  | [] => []
  | msg :: rest =>
      let r := if String.eqb (role msg) "user" then 1 else 2 in
      {| fm_content := content msg;
         fm_role := r;
         fm_messageId := uuidv4 env i;
         fm_chatModeEnum := if r =? 1 then Some 1 else None |}
      :: formatMessages env (S i) rest
  end.

Definition encodeRequest (env : Env) (messages : list Message)
    (modelName : string) : Bytes :=
  let formattedMessages := formatMessages env 0 messages in
  concatArrays
    (map (fun fm =>
            encodeField 1 2
              (VBytes (encodeMessage (fm_content fm) (fm_role fm)
                         (fm_messageId fm) (fm_chatModeEnum fm))))
         formattedMessages
     ++ [ encodeField 2 0 (VNum 1);
          encodeField 3 2 (VBytes (encodeInstruction ""));
          encodeField 4 0 (VNum 1) ]
     ++ (if JS.truthy_string modelName
         then [encodeField 5 2 (VBytes (encodeModel modelName))]
         else [])
     ++ [ encodeField 8 2 (VStr "");
          encodeField 13 0 (VNum 1);
          encodeField 15 2 (VBytes encodeCursorSetting);
          encodeField 19 0 (VNum 1);
          encodeField 23 2 (VStr (uuidv4 env (List.length messages)));
          encodeField 26 2 (VBytes (encodeMetadata env));
          encodeField 27 0 (VNum 0) ]
     ++ map (fun fm =>
               encodeField 30 2
                 (VBytes (encodeMessageId (fm_messageId fm) (fm_role fm)
                                          None)))
            formattedMessages
     ++ [ encodeField 35 0 (VNum 0);
          encodeField 38 0 (VNum 0);
          encodeField 46 0 (VNum 1);
          encodeField 47 2 (VStr "");
          encodeField 48 0 (VNum 0);
          encodeField 49 0 (VNum 0);
          encodeField 51 0 (VNum 0);
          encodeField 53 0 (VNum 1);
          encodeField 54 2 (VStr "Ask") ]).

Definition buildChatRequest (env : Env) (messages : list Message)
    (modelName : string) : Bytes :=
  let requestBytes := encodeRequest env messages modelName in
  encodeField 1 2 (VBytes requestBytes).

(** The parsed frame [parseConnectRPCFrame] returns. *)
Record Frame : Type := {
  flags : Z;
  length : Z;
  payload : Bytes;
  consumed : Z
}.

Section WithZlib.

(** [zlib.gzipSync] and [zlib.gunzipSync]; the latter throws on input
    that is not a gzip stream ([None]). *)
Variable gzipSync : Bytes -> Bytes.
Variable gunzipSync : Bytes -> option Bytes.

Definition wrapConnectRPCFrame (payload : Bytes) (compress : bool)
    : Bytes :=
  let finalPayload := if compress then gzipSync payload else payload in
  let flags := if compress then 0x01 else 0x00 in
  let length := Buf.len finalPayload in
  [ flags;
    JS.band (JS.shr length 24) 0xFF;
    JS.band (JS.shr length 16) 0xFF;
    JS.band (JS.shr length 8) 0xFF;
    JS.band length 0xFF ]
  ++ finalPayload.

Definition generateCursorBody (env : Env) (messages : list Message)
    (modelName : string) : Bytes :=
  let protobuf := buildChatRequest env messages modelName in
  let shouldCompress := 3 <=? Z.of_nat (List.length messages) in
  wrapConnectRPCFrame protobuf shouldCompress.

Definition parseConnectRPCFrame (buffer : Bytes) : option Frame :=
  if Buf.len buffer <? 5 then None
  else
    let flags := Buf.get buffer 0 in
    let length :=
      JS.bor (JS.bor (JS.bor (JS.shl (Buf.get buffer 1) 24)
                             (JS.shl (Buf.get buffer 2) 16))
                     (JS.shl (Buf.get buffer 3) 8))
             (Buf.get buffer 4) in
    if Buf.len buffer <? 5 + length then None
    else
      let payload := Buf.slice buffer 5 (5 + length) in
      let payload' :=
        if flags =? 0x01 then
          match gunzipSync payload with
          | Some p => p
          | None => payload
          end
        else payload in
      Some {| flags := flags; length := length; payload := payload';
              consumed := 5 + length |}.

End WithZlib.

End CursorProtobuf.

(** A decoded field value: a varint, a byte range, or [null]. *)
Inductive DecodedValue : Type :=
| DVarint (n : Z)
| DBytes (b : Bytes)
| DNull.

(** The fields of a decoded message in the order met.  The source keeps a
    [Map] from field number to the array of that field's entries;
    [entries n] is that array. *)
Definition Fields : Type := list (Z * (Z * DecodedValue)).

(** The object [extractTextFromResponse] returns. *)
Record DecodeResult : Type := {
  text : option string;
  error : option string
}.

Module CursorDecode.

(** The loop of [decodeVarint] over the bytes from [pos] on. *)
Fixpoint decodeVarintFrom (bytes : Bytes) (result shift pos : Z) : Z * Z :=
  match bytes with
  | [] => (result, pos)
  | b :: rest =>
      let result' := JS.bor result (JS.shl (JS.band b 0x7F) shift) in
      if JS.band b 0x80 =? 0 then (result', pos + 1)
      else decodeVarintFrom rest result' (shift + 7) (pos + 1)
  end.

(** [decodeVarint(buffer, offset)]; at a negative offset [buffer[pos]] is
    [undefined], which reads as a zero byte. *)
Definition decodeVarint (buffer : Bytes) (offset : Z) : Z * Z :=
  if offset <? 0 then (0, offset + 1)
  else decodeVarintFrom (skipn (Z.to_nat offset) buffer) 0 0 offset.

(** [decodeField(buffer, offset)]: field number ([None] for [null]),
    wire type, value and new offset. *)
Definition decodeField (buffer : Bytes) (offset : Z)
    : option Z * Z * DecodedValue * Z :=
  if Buf.len buffer <=? offset then (None, 0, DNull, offset)
  else
    let (tag, pos1) := decodeVarint buffer offset in
    let fieldNum := JS.shr tag 3 in
    let wireType := JS.band tag 0x07 in
    if wireType =? 0 then
      let (value, pos) := decodeVarint buffer pos1 in
      (Some fieldNum, wireType, DVarint value, pos)
    else if wireType =? 2 then
      let (length, pos2) := decodeVarint buffer pos1 in
      (Some fieldNum, wireType,
       DBytes (Buf.slice buffer pos2 (pos2 + length)), pos2 + length)
    else if wireType =? 1 then
      (Some fieldNum, wireType,
       DBytes (Buf.slice buffer pos1 (pos1 + 8)), pos1 + 8)
    else if wireType =? 5 then
      (Some fieldNum, wireType,
       DBytes (Buf.slice buffer pos1 (pos1 + 4)), pos1 + 4)
    else (Some fieldNum, wireType, DNull, pos1).

(** The loop of [decodeMessage].  A length prefix can decode to a negative
    number and move [pos] backwards, so the loop is run for at most
    [fuel] turns; [None] when they are used up. *)
Fixpoint decodeMessageLoop (fuel : nat) (data : Bytes) (pos : Z)
    (fields : Fields) : option Fields :=
  match fuel with
  | O => None
  | S fuel' =>
      if pos <? Buf.len data then
        match decodeField data pos with
        | (None, _, _, _) => Some fields
        | (Some fieldNum, wireType, value, newPos) =>
            decodeMessageLoop fuel' data newPos
              (fields ++ [(fieldNum, (wireType, value))])
        end
      else Some fields
  end.

Definition decodeMessage (fuel : nat) (data : Bytes) : option Fields :=
  decodeMessageLoop fuel data 0 [].

(** [fields.has(n)] and [fields.get(n)]. *)
Definition entries (n : Z) (fields : Fields) : list (Z * DecodedValue) :=
  map snd (filter (fun f => fst f =? n) fields).

Definition has (n : Z) (fields : Fields) : bool :=
  match entries n fields with [] => false | _ => true end.

(** The inner loop of [extractTextFromResponse], over [nested.get(1)]. *)
Fixpoint firstText (es : list (Z * DecodedValue)) : option string :=
  match es with
  | [] => None
  | (nwt, nv) :: rest =>
      if nwt =? 2 then
        let text :=
          match nv with DBytes b => Buf.decode b | _ => "" end in
        if JS.truthy_string text then Some text else firstText rest
      else firstText rest
  end.

(** The outer loop, over [fields.get(2)]; the outer [option] is [None]
    when decoding a nested message uses up the fuel. *)
Fixpoint firstResponse (fuel : nat) (es : list (Z * DecodedValue))
    : option (option string) :=
  match es with
  | [] => Some None
  | (wireType, value) :: rest =>
      if wireType =? 2 then
        match decodeMessage fuel
                match value with DBytes b => b | _ => [] end with
        | None => None
        | Some nested =>
            match firstText (entries 1 nested) with
            | Some text => Some (Some text)
            | None => firstResponse fuel rest
            end
        end
      else firstResponse fuel rest
  end.

(** [extractTextFromResponse(payload)].  Field 1, the tool call, is not
    looked at. *)
Definition extractTextFromResponse (fuel : nat) (payload : Bytes)
    : option DecodeResult :=
  match decodeMessage fuel payload with
  | None => None
  | Some fields =>
      match firstResponse fuel (entries 2 fields) with
      | None => None
      | Some (Some t) => Some {| text := Some t; error := None |}
      | Some None => Some {| text := None; error := None |}
      end
  end.

End CursorDecode.

(* ================================================================== *)
(** ** Cursor executor (open-sse/executors/cursor.js) *)
(* ================================================================== *)

(** A tool-call event as the executor reads it from [result.toolCall]. *)
Record ToolCall : Type := {
  tc_id : string;
  tc_type : string;
  tc_name : string;
  tc_arguments : string;
  tc_isLast : bool
}.

(** An entry of the [tool_calls] array of the final message. *)
Record FinalToolCall : Type := {
  ft_id : string;
  ft_type : string;
  ft_name : string;
  ft_arguments : string
}.

Definition dquote : string := String (ascii_of_nat 34) EmptyString.

Module CursorExecutor.

(** *** Checksum *)

Definition alphabet : string :=
  "ABCDEFGHIJKLMNOPQRSTUVWXYZabcdefghijklmnopqrstuvwxyz0123456789-_".

(** [alphabet[i]] *)
Definition alphabetAt (i : Z) : string :=
  match String.get (Z.to_nat i) alphabet with
  | Some c => String c EmptyString
  | None => "undefined"
  end.

(** The initial contents of [byteArray]. *)
Definition timestampBytes (timestamp : Z) : Bytes :=
  [ JS.band (JS.shr timestamp 40) 0xFF;
    JS.band (JS.shr timestamp 32) 0xFF;
    JS.band (JS.shr timestamp 24) 0xFF;
    JS.band (JS.shr timestamp 16) 0xFF;
    JS.band (JS.shr timestamp 8) 0xFF;
    JS.band timestamp 0xFF ].

(** The cipher loop, from index [i] with key [t]. *)
Fixpoint cipher (bytes : Bytes) (i t : Z) : Bytes :=
  match bytes with
  | [] => []
  | b :: rest =>
      let b' := JS.band (JS.bxor b t + i mod 256) 0xFF in
      b' :: cipher rest (i + 1) b'
  end.

(** The encoding loop, three bytes a turn. *)
Fixpoint encodeTriples (fuel : nat) (bytes : Bytes) : string :=
  match fuel with
  | O => ""
  | S fuel' =>
      match bytes with
      | [] => ""
      | [a] =>
          String.append (alphabetAt (JS.shr a 2))
            (alphabetAt (JS.bor (JS.shl (JS.band a 3) 4) (JS.shr 0 4)))
      | [a; b] =>
          String.append (alphabetAt (JS.shr a 2))
            (String.append
               (alphabetAt (JS.bor (JS.shl (JS.band a 3) 4) (JS.shr b 4)))
               (alphabetAt (JS.bor (JS.shl (JS.band b 15) 2) (JS.shr 0 6))))
      | a :: b :: c :: rest =>
          String.append (alphabetAt (JS.shr a 2))
            (String.append
               (alphabetAt (JS.bor (JS.shl (JS.band a 3) 4) (JS.shr b 4)))
               (String.append
                  (alphabetAt
                     (JS.bor (JS.shl (JS.band b 15) 2) (JS.shr c 6)))
                  (String.append (alphabetAt (JS.band c 63))
                                 (encodeTriples fuel' rest))))
      end
  end.

(** [generateChecksum(machineId)] with [Date.now()] = [now]. *)
Definition generateChecksum (now : Z) (machineId : string) : string :=
  let timestamp := now / 1000000 in
  let byteArray := cipher (timestampBytes timestamp) 0 165 in
  let encoded := encodeTriples (List.length byteArray) byteArray in
  String.append encoded machineId.

(** *** Response decoding *)

Section WithRuntime.

(** [zlib.gunzipSync] ([None] when it throws). *)
Variable gunzipSync : Bytes -> option Bytes.

(** [JSON.parse] ([None] when it throws) into parsed values [J]. *)
Variable J : Type.
Variable jsonParse : string -> option J.

Definition errorPrefix : string :=
  String.append "{" (String.append dquote (String.append "error" dquote)).

Definition quotedError : string :=
  String.append dquote (String.append "error" dquote).

Definition decompressPayload (payload : Bytes) (flags : Z) : Bytes :=
  if (10 <? Buf.len payload) && (Buf.get payload 0 =? 0x7b)
     && (Buf.get payload 1 =? 0x22)
     && JS.startsWith (Buf.toString payload) errorPrefix
  then payload
  else if (flags =? 0x01) || (flags =? 0x02) || (flags =? 0x03) then
    match gunzipSync payload with
    | Some p => p
    | None => payload
    end
  else payload.

(** The HTTP response built from the frames. *)
Inductive Response : Type :=
| ErrorResponse (parsed : J)
| RateLimitResponse (message : string)
| CompletionResponse (content : option string)
                     (tool_calls : list FinalToolCall)
                     (finish_reason : string).

(** [result.toolCall]: the objects [extractTextFromResponse] builds have
    the properties [text] and [error] only, so the read gives
    [undefined]. *)
Definition toolCallOf (result : DecodeResult) : option ToolCall := None.

(** The accumulators of [transformProtobufToJSON].  [toolCallsMap] is a
    [Map], which keeps its keys in insertion order. *)
Record Acc : Type := {
  totalContent : string;
  toolCalls : list FinalToolCall;
  toolCallsMap : list (string * ToolCall)
}.

Definition finalOf (tc : ToolCall) : FinalToolCall :=
  {| ft_id := tc_id tc; ft_type := tc_type tc; ft_name := tc_name tc;
     ft_arguments := tc_arguments tc |}.

Definition mapGet (id : string) (m : list (string * ToolCall))
    : option ToolCall :=
  match List.find (fun e => String.eqb (fst e) id) m with
  | Some e => Some (snd e)
  | None => None
  end.

(** [existing.function.arguments += ...; existing.isLast = ...] on the
    entry stored under [id]. *)
Fixpoint mapAppend (id : string) (chunk : string) (isLast : bool)
    (m : list (string * ToolCall)) : list (string * ToolCall) :=
  match m with
  | [] => []
  | (k, e) :: rest =>
      if String.eqb k id then
        (k, {| tc_id := tc_id e; tc_type := tc_type e;
               tc_name := tc_name e;
               tc_arguments := String.append (tc_arguments e) chunk;
               tc_isLast := isLast |}) :: rest
      else (k, e) :: mapAppend id chunk isLast rest
  end.

(** The [if (result.toolCall)] block. *)
Definition onToolCall (tc : ToolCall) (acc : Acc) : Acc :=
  let m :=
    match mapGet (tc_id tc) (toolCallsMap acc) with
    | Some _ =>
        mapAppend (tc_id tc) (tc_arguments tc) (tc_isLast tc)
                  (toolCallsMap acc)
    | None => toolCallsMap acc ++ [(tc_id tc, tc)]
    end in
  let finals :=
    if tc_isLast tc then
      match mapGet (tc_id tc) m with
      | Some finalToolCall => toolCalls acc ++ [finalOf finalToolCall]
      | None => toolCalls acc
      end
    else toolCalls acc in
  {| totalContent := totalContent acc; toolCalls := finals;
     toolCallsMap := m |}.

(** The loop that finalises the entries left in [toolCallsMap]. *)
Fixpoint finaliseRemaining (m : list (string * ToolCall))
    (finals : list FinalToolCall) : list FinalToolCall :=
  match m with
  | [] => finals
  | (id, tc) :: rest =>
      if existsb (fun t => String.eqb (ft_id t) id) finals
      then finaliseRemaining rest finals
      else finaliseRemaining rest (finals ++ [finalOf tc])
  end.

(** What one decoded frame adds to the accumulators. *)
Definition onResult (result : DecodeResult) (acc : Acc) : Acc :=
  let acc1 :=
    match toolCallOf result with
    | Some tc => onToolCall tc acc
    | None => acc
    end in
  match text result with
  | Some t =>
      if JS.truthy_string t then
        {| totalContent := String.append (totalContent acc1) t;
           toolCalls := toolCalls acc1;
           toolCallsMap := toolCallsMap acc1 |}
      else acc1
  | None => acc1
  end.

(** [buffer.readUInt32BE(offset)] *)
Definition readUInt32BE (buffer : Bytes) (offset : Z) : Z :=
  Buf.get buffer offset * 2 ^ 24 + Buf.get buffer (offset + 1) * 2 ^ 16
  + Buf.get buffer (offset + 2) * 2 ^ 8 + Buf.get buffer (offset + 3).

Definition finish (acc : Acc) : Response :=
  let finals := finaliseRemaining (toolCallsMap acc) (toolCalls acc) in
  CompletionResponse
    (if JS.truthy_string (totalContent acc)
     then Some (totalContent acc) else None)
    finals
    (match finals with [] => "stop" | _ => "tool_calls" end).

(** The frame loop of [transformProtobufToJSON]; every turn moves
    [offset] forward by at least 5, so [turns] is bounded by the buffer
    length.  [dfuel] bounds the message decoder; the result is [None]
    when it is used up. *)
Fixpoint frameLoop (dfuel turns : nat) (buffer : Bytes) (offset : Z)
    (acc : Acc) : option Response :=
  match turns with
  | O => Some (finish acc)
  | S turns' =>
      if Buf.len buffer <=? offset then Some (finish acc)
      else if Buf.len buffer <? offset + 5 then Some (finish acc)
      else
        let flags := Buf.get buffer offset in
        let length := readUInt32BE buffer (offset + 1) in
        if Buf.len buffer <? offset + 5 + length then Some (finish acc)
        else
          let payload :=
            decompressPayload
              (Buf.slice buffer (offset + 5) (offset + 5 + length))
              flags in
          let offset' := offset + 5 + length in
          let text := Buf.toString payload in
          let jsonError :=
            if JS.startsWith text "{" && JS.includes text quotedError
            then jsonParse text else None in
          match jsonError with
          | Some parsed => Some (ErrorResponse parsed)
          | None =>
              match CursorDecode.extractTextFromResponse dfuel payload with
              | None => None
              | Some result =>
                  match error result with
                  | Some e =>
                      if JS.truthy_string e
                      then Some (RateLimitResponse e)
                      else frameLoop dfuel turns' buffer offset'
                                     (onResult result acc)
                  | None =>
                      frameLoop dfuel turns' buffer offset'
                                (onResult result acc)
                  end
              end
          end
  end.

Definition transformProtobufToJSON (dfuel : nat) (buffer : Bytes)
    : option Response :=
  frameLoop dfuel (S (List.length buffer)) buffer 0
    {| totalContent := ""; toolCalls := []; toolCallsMap := [] |}.

End WithRuntime.

End CursorExecutor.


(* ================================================================== *)
(** ** Cursor executor, streaming (open-sse/executors/cursor.js) *)
(* ================================================================== *)

(** The [delta] of a chunk: [{role: "assistant", content}], [{content}],
    [{tool_calls: [{index, id, type: "function", function: {name,
    arguments}}]}] or [{}]. *)
Inductive Delta : Type :=
| DeltaRole (content : string)
| DeltaContent (content : string)
| DeltaToolCall (index : Z) (id name arguments : string)
| DeltaEmpty.

(** An element of [chunks]: a [chat.completion.chunk] event with its
    delta and [finish_reason], or the closing [data: [DONE]].  The fields
    [id], [created], [model] and [usage] are left out. *)
Inductive SseChunk : Type :=
| Chunk (delta : Delta) (finish_reason : option string)
| Done.

Module CursorSse.

Section WithRuntime.

Variable gunzipSync : Bytes -> option Bytes.
Variable J : Type.
Variable jsonParse : string -> option J.

(** What [transformProtobufToSSE] returns. *)
Inductive Response : Type :=
| ErrorResponse (parsed : J)
| RateLimitResponse (message : string)
| StreamResponse (chunks : list SseChunk).

(** The accumulators of [transformProtobufToSSE]; a tool call is kept
    with the index it was given. *)
Record Acc : Type := {
  chunks : list SseChunk;
  totalContent : string;
  toolCalls : list (ToolCall * Z);
  toolCallsMap : list (string * (ToolCall * Z))
}.

Definition mapGet (id : string) (m : list (string * (ToolCall * Z)))
    : option (ToolCall * Z) :=
  match List.find (fun e => String.eqb (fst e) id) m with
  | Some e => Some (snd e)
  | None => None
  end.

(** [existing.function.arguments += ...; existing.isLast = ...] *)
Fixpoint mapAppend (id : string) (chunk : string) (isLast : bool)
    (m : list (string * (ToolCall * Z))) : list (string * (ToolCall * Z)) :=
  match m with
  | [] => []
  | (k, (e, i)) :: rest =>
      if String.eqb k id then
        (k, ({| tc_id := tc_id e; tc_type := tc_type e;
                tc_name := tc_name e;
                tc_arguments := String.append (tc_arguments e) chunk;
                tc_isLast := isLast |}, i)) :: rest
      else (k, (e, i)) :: mapAppend id chunk isLast rest
  end.

(** The [if (result.toolCall)] block. *)
Definition onToolCall (tc : ToolCall) (acc : Acc) : Acc :=
  let chunks1 :=
    match chunks acc with
    | [] => [Chunk (DeltaRole "") None]
    | cs => cs
    end in
  match mapGet (tc_id tc) (toolCallsMap acc) with
  | Some (existing, index) =>
      {| chunks :=
           if JS.truthy_string (tc_arguments tc) then
             chunks1
             ++ [Chunk (DeltaToolCall index (tc_id tc) (tc_name tc)
                          (tc_arguments tc)) None]
           else chunks1;
         totalContent := totalContent acc;
         toolCalls := toolCalls acc;
         toolCallsMap :=
           mapAppend (tc_id tc) (tc_arguments tc) (tc_isLast tc)
                     (toolCallsMap acc) |}
  | None =>
      let toolCallIndex := Z.of_nat (List.length (toolCalls acc)) in
      {| chunks :=
           chunks1
           ++ [Chunk (DeltaToolCall toolCallIndex (tc_id tc) (tc_name tc)
                        (tc_arguments tc)) None];
         totalContent := totalContent acc;
         toolCalls := toolCalls acc ++ [(tc, toolCallIndex)];
         toolCallsMap :=
           toolCallsMap acc ++ [(tc_id tc, (tc, toolCallIndex))] |}
  end.

(** What one decoded frame adds to the accumulators. *)
Definition onResult (result : DecodeResult) (acc : Acc) : Acc :=
  let acc1 :=
    match CursorExecutor.toolCallOf result with
    | Some tc => onToolCall tc acc
    | None => acc
    end in
  match text result with
  | Some t =>
      if JS.truthy_string t then
        {| chunks :=
             chunks acc1
             ++ [Chunk
                   (match chunks acc1, toolCalls acc1 with
                    | [], [] => DeltaRole t
                    | _, _ => DeltaContent t
                    end) None];
           totalContent := String.append (totalContent acc1) t;
           toolCalls := toolCalls acc1;
           toolCallsMap := toolCallsMap acc1 |}
      else acc1
  | None => acc1
  end.

(** The statements after the loop. *)
Definition finish (acc : Acc) : Response :=
  let chunks1 :=
    match chunks acc, toolCalls acc with
    | [], [] => [Chunk (DeltaRole "") None]
    | cs, _ => cs
    end in
  StreamResponse
    (chunks1
     ++ [ Chunk DeltaEmpty
            (Some match toolCalls acc with
                  | [] => "stop"
                  | _ => "tool_calls"
                  end);
          Done ]).

(** The frame loop of [transformProtobufToSSE], with the bounds of
    [CursorExecutor.frameLoop]. *)
Fixpoint frameLoop (dfuel turns : nat) (buffer : Bytes) (offset : Z)
    (acc : Acc) : option Response :=
  match turns with
  | O => Some (finish acc)
  | S turns' =>
      if Buf.len buffer <=? offset then Some (finish acc)
      else if Buf.len buffer <? offset + 5 then Some (finish acc)
      else
        let flags := Buf.get buffer offset in
        let length := CursorExecutor.readUInt32BE buffer (offset + 1) in
        if Buf.len buffer <? offset + 5 + length then Some (finish acc)
        else
          let payload :=
            CursorExecutor.decompressPayload gunzipSync
              (Buf.slice buffer (offset + 5) (offset + 5 + length))
              flags in
          let offset' := offset + 5 + length in
          let text := Buf.toString payload in
          let jsonError :=
            if JS.startsWith text "{"
               && JS.includes text CursorExecutor.quotedError
            then jsonParse text else None in
          match jsonError with
          | Some parsed => Some (ErrorResponse parsed)
          | None =>
              match CursorDecode.extractTextFromResponse dfuel payload with
              | None => None
              | Some result =>
                  match error result with
                  | Some e =>
                      if JS.truthy_string e
                      then Some (RateLimitResponse e)
                      else frameLoop dfuel turns' buffer offset'
                                     (onResult result acc)
                  | None =>
                      frameLoop dfuel turns' buffer offset'
                                (onResult result acc)
                  end
              end
          end
  end.

Definition transformProtobufToSSE (dfuel : nat) (buffer : Bytes)
    : option Response :=
  frameLoop dfuel (S (List.length buffer)) buffer 0
    {| chunks := []; totalContent := ""; toolCalls := [];
       toolCallsMap := [] |}.

End WithRuntime.

End CursorSse.

(** [String(n)], and [n] inside a template literal, for an integer. *)
Definition numberToString (n : Z) : string :=
  DecimalString.NilZero.string_of_int (Z.to_int n).

(* ================================================================== *)
(** ** Base executor (open-sse/executors/base.js) *)
(* ================================================================== *)

Module BaseExecutor.

(** The part of [this.config] the URL fallback reads. *)
Record ExecutorConfig : Type := {
  baseUrls : option (list string);
  baseUrl : option string
}.

(** What [execute] does: it returns the response got from the URL of some
    index, or throws the error of a failed [fetch], or throws
    [All N URLs failed with status S]. *)
Inductive Outcome : Type :=
| Returned (urlIndex : nat) (status : Z)
| Thrown (error : string)
| ThrownAllFailed (fallbackCount : nat) (lastStatus : Z).

Section Execute.

Variable config : ExecutorConfig.

(** [fetch] on the URL of index [urlIndex]: the status of the response,
    or an exception. *)
Variable fetch : nat -> Completion Z.

Definition getBaseUrls : list string :=
  match baseUrls config with
  | Some urls => urls
  | None =>
      match baseUrl config with
      | Some u => if JS.truthy_string u then [u] else []
      | None => []
      end
  end.

(** [this.getBaseUrls().length || 1] *)
Definition getFallbackCount : nat :=
  match List.length getBaseUrls with
  | O => 1%nat
  | n => n
  end.

Definition shouldRetry (status : Z) (urlIndex : nat) : bool :=
  (status =? HTTP_STATUS.RATE_LIMITED)
  && (urlIndex + 1 <? getFallbackCount)%nat.

(** [for (let urlIndex = 0; urlIndex < fallbackCount; urlIndex++)], with
    [remaining = fallbackCount - urlIndex], and the [throw] after it. *)
Fixpoint executeFrom (remaining urlIndex : nat) (lastError : option string)
    (lastStatus : Z) : Outcome :=
  match remaining with
  | O =>
      match lastError with
      | Some e => Thrown e
      | None => ThrownAllFailed getFallbackCount lastStatus
      end
  | S remaining' =>
      match fetch urlIndex with
      | Normal status =>
          if shouldRetry status urlIndex then
            executeFrom remaining' (S urlIndex) lastError status
          else Returned urlIndex status
      | Throw error =>
          if (urlIndex + 1 <? getFallbackCount)%nat then
            executeFrom remaining' (S urlIndex) (Some error) lastStatus
          else Thrown error
      end
  end.

Definition execute : Outcome :=
  executeFrom getFallbackCount 0 None 0.

End Execute.

End BaseExecutor.

(* ================================================================== *)
(** ** Model combos (open-sse/services/combo.js) *)
(* ================================================================== *)

(** The response [handleSingleModel] resolves to, as [handleComboChat]
    reads it: [ok], [status], [statusText], and from the JSON body (when
    it parses) the first truthy of [error.message], [error] and [message],
    as a string, and [retryAfter] as an instant. *)
Record ComboResponse : Type := {
  cr_ok : bool;
  cr_status : Z;
  cr_statusText : string;
  cr_bodyError : option string;
  cr_retryAfter : option Z
}.

(** What [handleComboChat] returns: the response of a model, or the 406
    it builds itself, with [unavailableResponse] when a [retryAfter] is
    known; or the exception of the classifier, which nothing in it
    catches. *)
Inductive ComboOutcome : Type :=
| ComboReturned (result : ComboResponse)
| ComboUnavailable (status : Z) (message : string) (retryAfter : option Z)
| ComboThrown (thrown : string).

Module Combo.

Section HandleCombo.

Variable cfg : Config.
Variable handleSingleModel : string -> ComboResponse.

Definition errorTextOf (result : ComboResponse) : string :=
  match cr_bodyError result with
  | Some t => if JS.truthy_string t then t else cr_statusText result
  | None => cr_statusText result
  end.

(** The body of the [for] loop over [models], carrying [lastError],
    [earliestRetryAfter] and [lastStatus]. *)
Fixpoint comboLoop (models : list string) (lastError : option string)
    (earliestRetryAfter : option Z) (lastStatus : option Z)
    : ComboOutcome :=
  match models with
  | [] =>
      let status := 406 in
      let msg :=
        match lastError with
        | Some e => if JS.truthy_string e then e
                    else "All combo models unavailable"
        | None => "All combo models unavailable"
        end in
      ComboUnavailable status msg earliestRetryAfter
  | modelStr :: rest =>
      let result := handleSingleModel modelStr in
      if cr_ok result then ComboReturned result
      else
        let errorText := errorTextOf result in
        let earliest :=
          match cr_retryAfter result with
          | Some retryAfter =>
              match earliestRetryAfter with
              | None => Some retryAfter
              | Some e => if retryAfter <? e then Some retryAfter else Some e
              end
          | None => earliestRetryAfter
          end in
        match AccountFallback.checkFallbackError cfg (cr_status result)
                (ErrString errorText) 0 with
        | Throw thrown => ComboThrown thrown
        | Normal r =>
            if negb (shouldFallback r) then ComboReturned result
            else
              comboLoop rest
                (Some (if JS.truthy_string errorText then errorText
                       else numberToString (cr_status result)))
                earliest
                (match lastStatus with
                 | Some st => if JS.truthy_num st then Some st
                              else Some (cr_status result)
                 | None => Some (cr_status result)
                 end)
        end
  end.

Definition handleComboChat (models : list string) : ComboOutcome :=
  comboLoop models None None None.

End HandleCombo.

End Combo.

(* ================================================================== *)
(** ** Account state helpers (open-sse/services/accountFallback.js) *)
(* ================================================================== *)

(** The [lastError] object [applyErrorState] stores. *)
Record ErrorInfo : Type := {
  ei_status : Z;
  ei_message : ErrorText;
  ei_timestamp : Z
}.

(** An account object as the helpers read and rebuild it; the properties
    they do not name are carried over by the spread [...account] and are
    stood for by [id]. *)
Module Account.
Record t : Type := Build {
  id : string;
  rateLimitedUntil : option Z;
  backoffLevel : nat;
  lastError : option ErrorInfo;
  status : string
}.
End Account.

Module AccountState.

(** [Math.ceil(x / 1000)] for an integer [x]. *)
Definition ceilSeconds (x : Z) : Z := - ((- x) / 1000).

(** The parts [formatRetryAfter] joins: each a number and its unit. *)
Definition retryParts (totalSec : Z) : list (Z * string) :=
  let h := totalSec / 3600 in
  let m := (totalSec mod 3600) / 60 in
  let s := totalSec mod 60 in
  let parts :=
    (if 0 <? h then [(h, "h")] else [])
    ++ (if 0 <? m then [(m, "m")] else []) in
  parts
  ++ (if (0 <? s) || (Z.of_nat (List.length parts) =? 0)
      then [(s, "s")] else []).

(** [formatRetryAfter(rateLimitedUntil)], with [Date.now()] = [now]. *)
Definition formatRetryAfter (now : Z) (rateLimitedUntil : option Z)
    : string :=
  match rateLimitedUntil with
  | None => ""
  | Some until =>
      let diffMs := until - now in
      if diffMs <=? 0 then "reset after 0s"
      else
        let totalSec := ceilSeconds diffMs in
        String.append "reset after "
          (String.concat " "
             (map (fun p => String.append (numberToString (fst p))
                                          (snd p))
                  (retryParts totalSec)))
  end.

(** [filterAvailableAccounts(accounts, excludeId)]. *)
Definition filterAvailableAccounts (now : Z) (accounts : list Account.t)
    (excludeId : option string) : list Account.t :=
  filter
    (fun acc =>
       if match excludeId with
          | Some e => JS.truthy_string e && String.eqb (Account.id acc) e
          | None => false
          end
       then false
       else
         match Account.rateLimitedUntil acc with
         | Some until => if now <? until then false else true
         | None => true
         end)
    accounts.

(** [resetAccountState(account)]. *)
Definition resetAccountState (account : Account.t) : Account.t :=
  Account.Build (Account.id account) None O None "active".

(** [applyErrorState(account, status, errorText)], for an account that
    is not [null]. *)
Definition applyErrorState (cfg : Config) (now : Z) (account : Account.t)
    (status : Z) (errorText : ErrorText) : Completion Account.t :=
  let backoffLevel := Account.backoffLevel account in
  match AccountFallback.checkFallbackError cfg status errorText
                                           backoffLevel with
  | Throw thrown => Throw thrown
  | Normal r =>
      Normal
        (Account.Build (Account.id account)
           (if 0 <? cooldownMs r
            then Some (Cooldowns.getUnavailableUntil now (cooldownMs r))
            else None)
           (match newBackoffLevel r with
            | Some l => l
            | None => backoffLevel
            end)
           (Some {| ei_status := status; ei_message := errorText;
                    ei_timestamp := now |})
           "error")
  end.

End AccountState.

(* ================================================================== *)
(** ** Error responses (open-sse/utils/error.js) *)
(* ================================================================== *)

(** The response [unavailableResponse] builds: status, message and the
    [Retry-After] header, in seconds. *)
Record UnavailableResponse : Type := {
  ur_status : Z;
  ur_message : string;
  ur_retryAfter : Z
}.

Module ErrorUtil.

(** [unavailableResponse(statusCode, message, retryAfter, retryAfterHuman)],
    with [Date.now()] = [now]. *)
Definition unavailableResponse (now statusCode : Z) (message : string)
    (retryAfter : Z) (retryAfterHuman : string) : UnavailableResponse :=
  let retryAfterSec :=
    Z.max (AccountState.ceilSeconds (retryAfter - now)) 1 in
  {| ur_status := statusCode;
     ur_message :=
       String.append message
         (String.append " (" (String.append retryAfterHuman ")"));
     ur_retryAfter := retryAfterSec |}.

End ErrorUtil.

(* ================================================================== *)
(** ** Message conversion (the executor in src/sse/handlers/chat.js) *)
(* ================================================================== *)

(** An element of an array-valued [content]: a part of type "text" with
    its text, or a part of another type. *)
Inductive ContentPart : Type :=
| TextPart (text : string)
| OtherPart.

(** The [content] of a chat message: a string, an array of parts, or
    something else. *)
Inductive MessageContent : Type :=
| ContentString (s : string)
| ContentArray (parts : list ContentPart)
| ContentOther.

(** A message of the request body. *)
Record ChatMessage : Type := {
  cm_role : string;
  cm_content : MessageContent
}.

Module Convert.

Definition newline : string := String (ascii_of_nat 10) EmptyString.

Section ConvertMessages.

(** The string a template literal makes of a [content] that is not a
    string. *)
Variable stringify : MessageContent -> string.

(** The loop over [msg.content] that joins the text parts. *)
Fixpoint textOf (parts : list ContentPart) : string :=
  match parts with
  | [] => ""
  | TextPart t :: rest => String.append t (textOf rest)
  | OtherPart :: rest => textOf rest
  end.

(** [convertMessages(body)], on [body.messages || []]. *)
Fixpoint convertMessages (messages : list ChatMessage) : list Message :=
  match messages with
  | [] => []
  | msg :: rest =>
      if String.eqb (cm_role msg) "system" then
        {| role := "user";
           content :=
             String.append "[System Instructions]"
               (String.append newline
                  match cm_content msg with
                  | ContentString s => s
                  | other => stringify other
                  end) |}
        :: convertMessages rest
      else if String.eqb (cm_role msg) "user"
              || String.eqb (cm_role msg) "assistant" then
        let content :=
          match cm_content msg with
          | ContentString s => s
          | ContentArray parts => textOf parts
          | ContentOther => ""
          end in
        if JS.truthy_string content
        then {| role := cm_role msg; content := content |}
             :: convertMessages rest
        else convertMessages rest
      else convertMessages rest
  end.

End ConvertMessages.

End Convert.


(* ================================================================== *)
(** ** The specification's wording, for comparison with the code *)
(* ================================================================== *)

Module Spec.

(** *** Section 4.1: the classifier as an ordered decision table *)

Section Classifier.

Variable cfg : Config.

(** "fallback, cooldown = ... constant" *)
Definition constant (ms : Z) (_ : nat) : FallbackResult :=
  {| shouldFallback := true; cooldownMs := ms; newBackoffLevel := None |}.

(** "cooldown = base * 2^backoffLevel, clipped to max;
     newBackoffLevel = min(backoffLevel+1, maxLevel)" *)
Definition exponential (n : nat) : FallbackResult :=
  let b := BACKOFF_CONFIG cfg in
  {| shouldFallback := true;
     cooldownMs :=
       if Backoff.base b * 2 ^ Z.of_nat n <=? Backoff.max b
       then Backoff.base b * 2 ^ Z.of_nat n else Backoff.max b;
     newBackoffLevel :=
       Some (if (n + 1 <=? Backoff.maxLevel b)%nat
             then (n + 1)%nat else Backoff.maxLevel b) |}.

Definition bodyContains (patterns : list string) (_ : Z) (body : string)
    : bool :=
  existsb (JS.includes body) patterns.

Definition statusAmong (codes : list Z) (status : Z) (_ : string) : bool :=
  existsb (Z.eqb status) codes.

(** Rules 1 to 8, in order: the condition on (status, body) and the
    result. *)
Definition rules : list ((Z -> string -> bool) * (nat -> FallbackResult)) :=
  let c := COOLDOWN_MS cfg in
  [ (bodyContains ["no credentials"], constant (Cooldown.notFound c));
    (bodyContains ["request not allowed"],
     constant (Cooldown.requestNotAllowed c));
    (bodyContains ["rate limit"; "too many requests"; "quota exceeded";
                   "capacity"; "overloaded"], exponential);
    (statusAmong [401], constant (Cooldown.unauthorized c));
    (statusAmong [402; 403], constant (Cooldown.paymentRequired c));
    (statusAmong [404], constant (Cooldown.notFound c));
    (statusAmong [429], exponential);
    (statusAmong [406; 408; 500; 502; 503; 504],
     constant (Cooldown.transient c)) ].

(** "The FIRST match wins"; rule 9 is the default. *)
Fixpoint firstMatch
    (rs : list ((Z -> string -> bool) * (nat -> FallbackResult)))
    (status : Z) (body : string) (backoffLevel : nat) : FallbackResult :=
  match rs with
  | [] => constant (Cooldown.transient (COOLDOWN_MS cfg)) backoffLevel
  | (condition, result) :: rest =>
      if condition status body then result backoffLevel
      else firstMatch rest status body backoffLevel
  end.

Definition classify (status : Z) (body : string) (backoffLevel : nat)
    : FallbackResult :=
  firstMatch rules status body backoffLevel.

(** A failure the table sends to the exponential rule: rule 3 or rule 7
    matches and neither rule 1 nor rule 2 does. *)
Definition isRateLimit (status : Z) (body : string) : bool :=
  negb (JS.includes body "no credentials")
  && negb (JS.includes body "request not allowed")
  && (bodyContains ["rate limit"; "too many requests"; "quota exceeded";
                    "capacity"; "overloaded"] status body
      || (status =? 429)).

End Classifier.

(** *** Section 4.2: the checksum as the specification words it *)

(** "writes the 48-bit timestamp big-endian" *)
Definition bigEndian48 (t : Z) : Bytes :=
  map (fun k => (t / 2 ^ (8 * k)) mod 256) [5; 4; 3; 2; 1; 0].

(** "b[i] = ((b[i] XOR k) + (i mod 256)) AND 0xFF; k = b[i]" *)
Fixpoint rolling (bytes : Bytes) (i k : Z) : Bytes :=
  match bytes with
  | [] => []
  | b :: rest =>
      let b' := (Z.lxor b k + i mod 256) mod 256 in
      b' :: rolling rest (i + 1) b'
  end.

Definition urlSafeAlphabet : list ascii :=
  list_ascii_of_string
    "ABCDEFGHIJKLMNOPQRSTUVWXYZabcdefghijklmnopqrstuvwxyz0123456789-_".

Definition sextet (n : Z) : string :=
  String (nth (Z.to_nat (n mod 64)) urlSafeAlphabet "?"%char) EmptyString.

(** URL-safe base64 without padding, on a whole number of 24-bit groups
    (six bytes make two). *)
Fixpoint base64url (fuel : nat) (bytes : Bytes) : string :=
  match fuel, bytes with
  | S fuel', a :: b :: c :: rest =>
      let n := a * 65536 + b * 256 + c in
      String.append (sextet (n / 2 ^ 18))
        (String.append (sextet (n / 2 ^ 12))
           (String.append (sextet (n / 2 ^ 6))
              (String.append (sextet n) (base64url fuel' rest))))
  | _, _ => ""
  end.

Definition jyhEncode (t : Z) : string :=
  base64url 2 (rolling (bigEndian48 t) 0 165).

(** "x-cursor-checksum = jyhEncode(timestamp / 1e6) + machineId" *)
Definition checksum (now : Z) (machineId : string) : string :=
  String.append (jyhEncode (now / 1000000)) machineId.

End Spec.


(* ================================================================== *)
(** ** Runs and sample data used by the properties *)
(* ================================================================== *)

(** The text the classifier searches for an error value: the empty text
    for a missing one, the lower-cased string or JSON text otherwise, and
    none for a value that has no JSON text. *)
Definition searchedText (errorText : ErrorText) : option string :=
  match errorText with
  | ErrAbsent => Some ""
  | ErrString s => Some (JS.toLowerCase s)
  | ErrObject json => Some (JS.toLowerCase json)
  | ErrOpaque _ => None
  end.

(** Whether the decision table sends a failure to its exponential rule. *)
Definition isRateLimitFailure (status : Z) (errorText : ErrorText) : bool :=
  match searchedText errorText with
  | Some body => Spec.isRateLimit status body
  | None => false
  end.

(** A conversation with a system message, a user message, a message of
    the role "tool", an assistant message without text and an assistant
    message whose content is an array with two text parts and an image. *)
Definition sampleConversation : list ChatMessage :=
  [ {| cm_role := "system"; cm_content := ContentString "Be brief." |};
    {| cm_role := "user"; cm_content := ContentString "hi" |};
    {| cm_role := "tool"; cm_content := ContentString "42" |};
    {| cm_role := "assistant"; cm_content := ContentString "" |};
    {| cm_role := "assistant";
       cm_content := ContentArray [TextPart "a"; OtherPart; TextPart "b"] |} ].

(** What a template literal makes of an object. *)
Definition objectObject (_ : MessageContent) : string := "[object Object]".

(** The account of the sample run of [applyErrorState]: failed with
    status 503 at time 1000 and cooled for five seconds. *)
Definition cooledAccount : Account.t :=
  Account.Build "acc" (Some 6000) O
    (Some {| ei_status := 503; ei_message := ErrAbsent;
             ei_timestamp := 1000 |})
    "error".

(** One upstream failure reported to the arbiter: the clock reading, the
    status and the error text. *)
Record Failure : Type := {
  f_now : Z;
  f_status : Z;
  f_errorText : ErrorText
}.

(** The backoff level stored for a connection, as [markAccountUnavailable]
    reads it. *)
Definition storedLevel (provider : option string) (id : string)
    (s : Store.t) : option nat :=
  match Store.find id
          (Store.getProviderConnections
             {| Store.f_provider := provider; Store.f_isActive := None |} s)
  with
  | Some c => Some (Conn.backoffLevel c)
  | None => None
  end.

(** Consecutive failures on one connection: what each call of
    [markAccountUnavailable] returns and the level stored after it. *)
Fixpoint markAll (cfg : Config) (provider : option string) (id : string)
    (fs : list Failure) (s : Store.t)
    : list (Completion Auth.MarkResult * option nat) * Store.t :=
  match fs with
  | [] => ([], s)
  | f :: rest =>
      let (r, s1) :=
        Auth.markAccountUnavailable cfg (f_now f) id (f_status f)
          (f_errorText f) provider s in
      let (rs, s2) := markAll cfg provider id rest s1 in
      ((r, storedLevel provider id s1) :: rs, s2)
  end.

(** A connection of provider "cursor" that has never been used and shows
    no error. *)
Definition freshConn (id : string) (priority : Z) : Conn.t :=
  Conn.Build id "cursor" true priority None (Some "token") None None None
             "active" None None None None O None 0.

Definition storeAB : Store.t :=
  Store.Build [freshConn "A" 1; freshConn "B" 2] [].

(** The failures of scenario S3: twice "Rate limit exceeded" at status
    429. *)
Definition rateLimitTwice : list Failure :=
  [ {| f_now := 1000; f_status := 429;
       f_errorText := ErrString "Rate limit exceeded" |};
    {| f_now := 5000; f_status := 429;
       f_errorText := ErrString "Rate limit exceeded" |} ].

(** A store whose connection carries a level above the configured cap. *)
Definition storeAboveCap : Store.t :=
  Store.Build
    [ Conn.Build "A" "cursor" true 1 None (Some "token") None None None
                 "active" None None None None 20%nat None 0 ] [].

(** Whether the account loop was left through the statement that returns
    the upstream error without trying another account. *)
Definition leftByUpstreamError (r : option Exit) : bool :=
  match r with
  | Some (ExitUpstreamError _) => true
  | _ => false
  end.

(** A store in which both connections of the provider are in cooldown at
    time 1000: "A" until 31000 after a 429, "B" until 61000. *)
Definition storeCooling : Store.t :=
  Store.Build
    [ Conn.Build "A" "cursor" true 1 None (Some "token") None None None
                 "unavailable" (Some "Rate limit exceeded") (Some 429)
                 (Some 900) (Some 31000) 1%nat None 0;
      Conn.Build "B" "cursor" true 2 None (Some "token") None None None
                 "unavailable" (Some "overloaded") (Some 503)
                 (Some 950) (Some 61000) 1%nat None 0 ] [].

(** A store whose only connection is in cooldown until 31000 with an
    empty [lastError] and the [errorCode] zero. *)
Definition storeSilent : Store.t :=
  Store.Build
    [ Conn.Build "A" "cursor" true 1 None (Some "token") None None None
                 "unavailable" (Some "") (Some 0)
                 (Some 900) (Some 31000) 1%nat None 0 ] [].

(** Sticky round-robin with a limit of two consecutive uses. *)
Definition stickyTwo : Settings :=
  {| fallbackStrategy := Some "round-robin";
     stickyRoundRobinLimit := Some 2 |}.

(** The ids returned by consecutive selections made at the given times,
    each selection seeing the writes of the ones before it. *)
Fixpoint selections (settings : Settings) (provider : string)
    (times : list Z) (s : Store.t) : list (option string) :=
  match times with
  | [] => []
  | t :: rest =>
      let (r, s') := Auth.getProviderCredentials settings t provider None s in
      match r with
      | Selected creds => Some (Creds.connectionId creds)
      | _ => None
      end :: selections settings provider rest s'
  end.

(** [c] was used at least as recently as [c']; a connection never used
    counts as the oldest. *)
Definition usedNoEarlier (c c' : Conn.t) : Prop :=
  match Conn.lastUsedAt c, Conn.lastUsedAt c' with
  | Some t, Some t' => t' <= t
  | Some _, None => True
  | None, Some _ => False
  | None, None => True
  end.

(** [c] was used no later than [c'], a connection never used coming
    first. *)
Definition usedNoLater (c c' : Conn.t) : Prop :=
  match Conn.lastUsedAt c, Conn.lastUsedAt c' with
  | None, _ => True
  | Some _, None => False
  | Some t, Some t' => t <= t'
  end.

(** The patch persisted for the connection chosen by round-robin. *)
Definition usePatch (now count : Z) : Patch.t :=
  Patch.Build None None None None None None (Some (Some now)) (Some count).

(** What the retry wrapper does around attempt number [a]: "linear
    backoff attempt * 1000 ms" before every attempt but the first. *)
Definition attemptEvents (a : nat) : list RetryEvent :=
  match a with
  | O => [Call O]
  | S _ => [Sleep (Z.of_nat a * 1000); Call a]
  end.

(** An invocation that gives nothing to return: it throws, or resolves to
    a falsy value. *)
Definition failed {Token : Type} (truthy : Token -> bool)
    (c : Settled Token) : Prop :=
  match c with
  | Resolved result => truthy result = false
  | Rejected _ => True
  end.

(** Sample results of a refresh: [null] or a string. *)
Definition truthyToken (t : option string) : bool :=
  match t with
  | Some s => JS.truthy_string s
  | None => false
  end.

(** A refresh function that never gives a token. *)
Definition alwaysNull (_ : nat) : Settled (option string) := Resolved None.

(** A refresh function that throws once and then gives a token. *)
Definition throwsThenToken (n : nat) : Settled (option string) :=
  match n with
  | O => Rejected (ThrownValue (Normal "network"))
  | _ => Resolved (Some "token")
  end.

(** A refresh function that gives the empty string and then a token. *)
Definition emptyThenToken (n : nat) : Settled (option string) :=
  match n with
  | O => Resolved (Some "")
  | _ => Resolved (Some "token")
  end.

(** A refresh function that throws [null], and a logger whose [warn]
    returns. *)
Definition throwsNull (_ : nat) : Settled (option string) :=
  Rejected ThrownNullish.

Definition warnOnly : Logger :=
  {| lg_debug := None;
     lg_warn := Some (fun _ _ => Normal tt);
     lg_error := None |}.

(** The snapshot of a connection whose token test found it expired, with
    no error recorded, and a store holding that connection. *)
Definition expiredSnapshot : Creds.t :=
  Creds.Build None (Some "token") None None None "A" "expired" None None.

Definition storeExpired : Store.t :=
  Store.Build
    [ Conn.Build "A" "cursor" true 1 None (Some "token") None None None
                 "expired" None None None None 2%nat None 0 ] [].

(** The snapshot of a connection marked unavailable. *)
Definition coolingSnapshot : Creds.t :=
  Creds.Build None (Some "token") None None None "A" "unavailable"
              (Some "Rate limit exceeded") (Some 31000).

(** A frame without compression around a payload. *)
Definition rawFrame (payload : Bytes) : Bytes :=
  CursorProtobuf.wrapConnectRPCFrame (fun b => b) payload false.

(** A response message carrying a text delta: field 2 holding
    [StreamUnifiedChatResponse {1: text}]. *)
Definition textMessage (t : string) : Bytes :=
  CursorProtobuf.encodeField 2 2
    (VBytes (CursorProtobuf.encodeField 1 2 (VStr t))).

(** A response message carrying a tool call in field 1.  The sources do not
    fix the layout inside field 1; the one used here numbers id, name,
    argument chunk and last-flag 1 to 4. *)
Definition toolCallMessage (id name chunk : string) (isLast : bool) : Bytes :=
  CursorProtobuf.encodeField 1 2
    (VBytes (CursorProtobuf.concatArrays
               [ CursorProtobuf.encodeField 1 2 (VStr id);
                 CursorProtobuf.encodeField 2 2 (VStr name);
                 CursorProtobuf.encodeField 3 2 (VStr chunk);
                 CursorProtobuf.encodeField 4 0
                   (VNum (if isLast then 1 else 0)) ])).

(** The two argument chunks of scenario S5; together they read
    [{"a":1}]. *)
Definition chunkOne : string :=
  String.append "{" (String.append dquote (String.append "a"
    (String.append dquote ":"))).

Definition chunkTwo : string := "1}".

(** The response buffer of scenario S5. *)
Definition scenarioBuffer : Bytes :=
  rawFrame (textMessage "hello")
  ++ rawFrame (toolCallMessage "T" "f" chunkOne false)
  ++ rawFrame (toolCallMessage "T" "" chunkTwo true)
  ++ rawFrame (textMessage " world").

(** The tool-call events of scenario S5, as the executor expects them. *)
Definition scenarioEvents : list ToolCall :=
  [ {| tc_id := "T"; tc_type := "function"; tc_name := "f";
       tc_arguments := chunkOne; tc_isLast := false |};
    {| tc_id := "T"; tc_type := "function"; tc_name := "";
       tc_arguments := chunkTwo; tc_isLast := true |} ].

(** A stand-in for zlib with the one property the framing relies on:
    decompressing a compressed buffer gives the buffer back. *)
Definition toyGzip (b : Bytes) : Bytes := 31 :: 139 :: b.

Definition toyGunzip (b : Bytes) : option Bytes :=
  match b with
  | 31 :: 139 :: rest => Some rest
  | _ => None
  end.

Definition sampleEnv : Env :=
  {| uuidv4 := fun _ => "123e4567-e89b-42d3-a456-426614174000";
     platform := "linux";
     arch := "x64";
     version := "v20.0.0";
     cwd := "/";
     isoNow := "2026-01-01T00:00:00.000Z" |}.

Definition twoMessages : list Message :=
  [ {| role := "user"; content := "hi" |};
    {| role := "user"; content := "there" |} ].

Definition fourMessages : list Message :=
  [ {| role := "user"; content := "hi" |};
    {| role := "assistant"; content := "hello" |};
    {| role := "user"; content := "how are you" |};
    {| role := "user"; content := "?" |} ].

(** What [updateProviderConnection id p] does to one connection. *)
Definition patched (id : string) (p : Patch.t) (c : Conn.t) : Conn.t :=
  if String.eqb (Conn.id c) id then Patch.apply p c else c.

(** The level stored before the i-th failure of a run of rate-limit
    failures that starts at level [n0]. *)
Definition levelAt (cfg : Config) (n0 i : nat) : nat :=
  Nat.min (n0 + i) (Backoff.maxLevel (BACKOFF_CONFIG cfg)).

(** The cooldown section 4.1 prescribes at a level. *)
Definition cooldownAt (cfg : Config) (n : nat) : Z :=
  Z.min (Backoff.base (BACKOFF_CONFIG cfg) * 2 ^ Z.of_nat n)
        (Backoff.max (BACKOFF_CONFIG cfg)).


(** The argument chunks that arrived for one id, joined in arrival order. *)
Fixpoint chunksOf (id : string) (events : list ToolCall) : string :=
  match events with
  | [] => ""
  | tc :: rest =>
      if String.eqb (tc_id tc) id
      then String.append (tc_arguments tc) (chunksOf id rest)
      else chunksOf id rest
  end.

(** The accumulators after the reassembly block has seen the events. *)
Definition reassemble (events : list ToolCall) : CursorExecutor.Acc :=
  fold_left (fun acc tc => CursorExecutor.onToolCall tc acc) events
    {| CursorExecutor.totalContent := "";
       CursorExecutor.toolCalls := [];
       CursorExecutor.toolCallsMap := [] |}.

(** The [tool_calls] array built from the events. *)
Definition finalised (events : list ToolCall) : list FinalToolCall :=
  CursorExecutor.finaliseRemaining
    (CursorExecutor.toolCallsMap (reassemble events))
    (CursorExecutor.toolCalls (reassemble events)).

(** The chunk flagged last, if there is one, is the last chunk of its
    id. *)
Definition lastFlagEndsId (events : list ToolCall) : Prop :=
  forall pre tc post,
    events = pre ++ tc :: post -> tc_isLast tc = true ->
    forall tc', In tc' post -> tc_id tc' <> tc_id tc.

(** A field as the encoder's call sites write it: a number with wire
    type 0, or a byte range with wire type 2. *)
Inductive WireField : Type :=
| WVarint (fieldNum n : Z)
| WBytes (fieldNum : Z) (b : Bytes).

Definition encodeWire (f : WireField) : Bytes :=
  match f with
  | WVarint k n => CursorProtobuf.encodeField k 0 (VNum n)
  | WBytes k b => CursorProtobuf.encodeField k 2 (VBytes b)
  end.

(** The entry [decodeMessage] is expected to store for a field. *)
Definition decodedWire (f : WireField) : Z * (Z * DecodedValue) :=
  match f with
  | WVarint k n => (k, (0, DVarint n))
  | WBytes k b => (k, (2, DBytes b))
  end.

(** Field numbers below 2^28 keep the tag [(fieldNum << 3) | wireType] a
    non-negative 32-bit number; values and lengths below 2^31 are read
    back without wrapping. *)
Definition wireInRange (f : WireField) : Prop :=
  match f with
  | WVarint k n => 0 <= k < 2 ^ 28 /\ 0 <= n < 2 ^ 31
  | WBytes k b => 0 <= k < 2 ^ 28 /\ Buf.len b < 2 ^ 31
  end.

(** A field with wire type 2 whose length prefix, FA FF FF FF 0F, decodes
    to -6 in 32-bit arithmetic: the six bytes of the field itself. *)
Definition backwardField : Bytes := [0x0A; 0xFA; 0xFF; 0xFF; 0xFF; 0x0F].

(** A response message carrying the bytes of a text delta: field 2
    holding [StreamUnifiedChatResponse {1: text}]. *)
Definition deltaMessage (delta : Bytes) : Bytes :=
  CursorProtobuf.encodeField 2 2
    (VBytes (CursorProtobuf.encodeField 1 2 (VBytes delta))).

(** The response buffer made of one uncompressed frame per text delta. *)
Definition textFrames (deltas : list Bytes) : Bytes :=
  List.concat (map (fun delta => rawFrame (deltaMessage delta)) deltas).

(** Whether a text has ASCII characters only. *)
Definition isAscii (s : string) : bool :=
  forallb (fun c => Nat.ltb (nat_of_ascii c) 128) (list_ascii_of_string s).

(** The text a reader of the wire gets for a text written to it. *)
Definition asRead (t : string) : string := Buf.decode (Buf.ofString t).

(** [totalContent] after the deltas [ts]. *)
Definition joined (ts : list string) : string :=
  fold_left String.append ts "".

(** Whether [s] is one character of the checksum alphabet. *)
Definition isAlphabetChar (s : string) : bool :=
  match s with
  | String c EmptyString =>
      existsb (Ascii.eqb c) (list_ascii_of_string CursorExecutor.alphabet)
  | _ => false
  end.

(** Whether every character of [s] belongs to the checksum alphabet. *)
Definition overAlphabet (s : string) : bool :=
  forallb (fun c => existsb (Ascii.eqb c)
                      (list_ascii_of_string CursorExecutor.alphabet))
          (list_ascii_of_string s).

(** The text a client assembles from the chunks of a stream: the
    [content] of every delta, in order. *)
Fixpoint contentOf (chunks : list SseChunk) : string :=
  match chunks with
  | [] => ""
  | Chunk (DeltaRole t) _ :: rest => String.append t (contentOf rest)
  | Chunk (DeltaContent t) _ :: rest => String.append t (contentOf rest)
  | _ :: rest => contentOf rest
  end.

(** A chunk that carries text only, with no role and no
    [finish_reason]. *)
Definition isContentChunk (c : SseChunk) : Prop :=
  exists t, c = Chunk (DeltaContent t) None.

(** The events of a stream: one chunk that opens the message with the
    role, chunks of text, the closing chunk with the [finish_reason], and
    [data: [DONE]]. *)
Definition wellFormedStream (chunks : list SseChunk) (content : string)
    (finish_reason : string) : Prop :=
  exists first rest,
    chunks
    = Chunk (DeltaRole first) None :: rest
      ++ [Chunk DeltaEmpty (Some finish_reason); Done]
    /\ Forall isContentChunk rest
    /\ contentOf (Chunk (DeltaRole first) None :: rest) = content.

(** The accumulators of the two transformations after the same frames:
    no tool call on either side, the same text, and chunks that carry
    that text behind one opening chunk. *)
Definition inStep (a : CursorExecutor.Acc) (b : CursorSse.Acc) : Prop :=
  CursorExecutor.toolCalls a = []
  /\ CursorExecutor.toolCallsMap a = []
  /\ CursorSse.toolCalls b = []
  /\ CursorSse.totalContent b = CursorExecutor.totalContent a
  /\ ((CursorSse.chunks b = [] /\ CursorExecutor.totalContent a = "")
      \/ exists first rest,
           CursorSse.chunks b = Chunk (DeltaRole first) None :: rest
           /\ Forall isContentChunk rest
           /\ contentOf (CursorSse.chunks b)
              = CursorExecutor.totalContent a).

(** The non-streaming and the streaming answer to one response buffer
    say the same: both are still decoding, or both are the error response
    for the same JSON error, or one is a completion and the other a
    stream of that completion's text and [finish_reason]. *)
Definition renderingsAgree {J : Type}
    (json : option (CursorExecutor.Response J))
    (sse : option (CursorSse.Response J)) : Prop :=
  match json, sse with
  | None, None => True
  | Some (CursorExecutor.ErrorResponse _ parsed),
    Some (CursorSse.ErrorResponse _ parsed') => parsed = parsed'
  | Some (CursorExecutor.CompletionResponse _ content tool_calls
            finish_reason),
    Some (CursorSse.StreamResponse _ chunks) =>
      tool_calls = []
      /\ wellFormedStream chunks
           match content with Some s => s | None => "" end
           finish_reason
  | _, _ => False
  end.

(** Whether a connection can be selected at some time up to [T]: it has no
    cooldown, or one that ends by [T]. *)
Definition mayServe (T : Z) (c : Conn.t) : bool :=
  match Conn.rateLimitedUntil c with
  | None => true
  | Some u => u <=? T
  end.

(** The number of active connections of the provider that can be selected
    at some time up to [T]. *)
Definition candidates (T : Z) (provider : string) (s : Store.t) : nat :=
  List.length
    (filter (mayServe T)
       (Store.getProviderConnections
          {| Store.f_provider := Some provider;
             Store.f_isActive := Some true |} s)).

(** An upstream that fails every request with status 503 and no error
    text. *)
Definition alwaysFails (_ : nat) (_ : Creds.t) : ChatResult :=
  ChatFailure 503 ErrAbsent "upstream error".

(** The default strategy. *)
Definition fillFirst : Settings :=
  {| fallbackStrategy := None; stickyRoundRobinLimit := None |}.

(** The connection has no cooldown that lasts beyond [t]. *)
Definition quietAt (t : Z) (c : Conn.t) : Prop :=
  forall u, Conn.rateLimitedUntil c = Some u -> u <= t.

(** A store holding two active connections of provider "cursor", "A"
    before "B" in priority, neither in cooldown after [t]. *)
Definition twoQuiet (t : Z) (s : Store.t) : Prop :=
  exists a b,
    Store.connections s = [a; b]
    /\ Conn.id a = "A" /\ Conn.id b = "B"
    /\ Conn.provider a = "cursor" /\ Conn.provider b = "cursor"
    /\ Conn.isActive a = true /\ Conn.isActive b = true
    /\ Conn.priority a = 1 /\ Conn.priority b = 2
    /\ quietAt t a /\ quietAt t b.

(** A clock that advances by ten seconds a turn. *)
Definition tenSeconds (n : nat) : Z := 10000 * Z.of_nat n.

(** The number of seconds a part list stands for. *)
Definition secondsOf (parts : list (Z * string)) : Z :=
  fold_right
    (fun p acc =>
       fst p * (if String.eqb (snd p) "h" then 3600
                else if String.eqb (snd p) "m" then 60 else 1)
       + acc)
    0 parts.

(** The error text [handleComboChat] keeps for a failed model: the text
    read from the response, or the status when there is none. *)
Definition keptError (result : ComboResponse) : string :=
  if JS.truthy_string (Combo.errorTextOf result)
  then Combo.errorTextOf result
  else numberToString (cr_status result).

(** A combo of two models: the first is rate limited until 9000, the
    second has no credentials and is cooling until 7000. *)
Definition twoFailingModels (modelStr : string) : ComboResponse :=
  if String.eqb modelStr "first" then
    {| cr_ok := false; cr_status := 429; cr_statusText := "";
       cr_bodyError := Some "Rate limit exceeded";
       cr_retryAfter := Some 9000 |}
  else
    {| cr_ok := false; cr_status := 400; cr_statusText := "";
       cr_bodyError := Some "No credentials";
       cr_retryAfter := Some 7000 |}.

(* ================================================================== *)
(** * Properties *)
(* ================================================================== *)

(** ** Error classifier *)

Section ClassifierFacts.

Variable cfg : Config.

Lemma backoff_exponential (level : nat) :
  AccountFallback.backoff cfg level = Spec.exponential cfg level.
Proof.
  unfold AccountFallback.backoff, AccountFallback.getQuotaCooldown,
    Spec.exponential.
  f_equal.
  - destruct (Z.leb_spec
                (Backoff.base (BACKOFF_CONFIG cfg) * 2 ^ Z.of_nat level)
                (Backoff.max (BACKOFF_CONFIG cfg))); lia.
  - f_equal.
    destruct (Nat.leb_spec (level + 1)
                (Backoff.maxLevel (BACKOFF_CONFIG cfg))); lia.
Qed.

Lemma checkStatus_table (status : Z) (body : string) (level : nat) :
  AccountFallback.checkStatus cfg status level
  = Spec.firstMatch cfg (skipn 3 (Spec.rules cfg)) status body level.
Proof.
  unfold AccountFallback.checkStatus, AccountFallback.transientStatuses,
    Spec.rules.
  cbn [skipn Spec.firstMatch Spec.statusAmong existsb].
  unfold HTTP_STATUS.UNAUTHORIZED, HTTP_STATUS.PAYMENT_REQUIRED,
    HTTP_STATUS.FORBIDDEN, HTTP_STATUS.NOT_FOUND, HTTP_STATUS.RATE_LIMITED,
    HTTP_STATUS.NOT_ACCEPTABLE, HTTP_STATUS.REQUEST_TIMEOUT,
    HTTP_STATUS.SERVER_ERROR, HTTP_STATUS.BAD_GATEWAY,
    HTTP_STATUS.SERVICE_UNAVAILABLE, HTTP_STATUS.GATEWAY_TIMEOUT.
  rewrite backoff_exponential.
  destruct (status =? 401); [reflexivity|].
  destruct (status =? 402); [reflexivity|].
  destruct (status =? 403); [reflexivity|].
  destruct (status =? 404); [reflexivity|].
  destruct (status =? 429); [reflexivity|].
  cbn [orb].
  destruct (status =? 406), (status =? 408), (status =? 500),
    (status =? 502), (status =? 503), (status =? 504); reflexivity.
Qed.

Lemma checkFallbackError_searched
    (status : Z) (errorText : ErrorText) (body : string) (level : nat) :
  searchedText errorText = Some body ->
  AccountFallback.checkFallbackError cfg status errorText level
  = Normal (Spec.classify cfg status body level).
Proof.
  intros Hbody.
  unfold AccountFallback.checkFallbackError, Spec.classify.
  assert (Hfalsy : AccountFallback.truthy errorText = false -> body = "").
  { destruct errorText as [|s|j|t]; cbn in *; try discriminate;
      try (injection Hbody as <-; reflexivity).
    destruct s; [injection Hbody as <-; reflexivity | discriminate]. }
  assert (Hlower : AccountFallback.truthy errorText = true ->
                   AccountFallback.lowerErrorOf errorText = Normal body).
  { destruct errorText as [|s|j|t]; cbn in *; try discriminate;
      injection Hbody as <-; reflexivity. }
  destruct (AccountFallback.truthy errorText) eqn:Ht.
  - rewrite (Hlower eq_refl).
    rewrite (checkStatus_table status body level).
    unfold Spec.rules.
    cbn [skipn Spec.firstMatch Spec.bodyContains existsb].
    rewrite backoff_exponential.
    destruct (JS.includes body "no credentials"); [reflexivity|].
    destruct (JS.includes body "request not allowed"); [reflexivity|].
    cbn [orb].
    destruct (JS.includes body "rate limit"); [reflexivity|].
    destruct (JS.includes body "too many requests"); [reflexivity|].
    destruct (JS.includes body "quota exceeded"); [reflexivity|].
    destruct (JS.includes body "capacity"); [reflexivity|].
    destruct (JS.includes body "overloaded"); reflexivity.
  - rewrite (Hfalsy eq_refl).
    rewrite (checkStatus_table status "" level).
    reflexivity.
Qed.

(** C1 (amended).  For every status and backoff level, and for an error
    text that is missing, a string, or a value [JSON.stringify] renders,
    [checkFallbackError] returns what the decision table of section 4.1
    returns on the lower-cased text (the empty text when there is none):
    the message patterns are tried before the status codes, the first
    matching rule decides, and the default is the transient cooldown.  On
    a truthy value that [JSON.stringify] does not render the classifier
    throws. *)
Theorem checkFallbackError_follows_decision_table :
  forall (status : Z) (backoffLevel : nat),
    AccountFallback.checkFallbackError cfg status ErrAbsent backoffLevel
    = Normal (Spec.classify cfg status "" backoffLevel)
    /\ (forall s : string,
          AccountFallback.checkFallbackError cfg status (ErrString s)
                                             backoffLevel
          = Normal (Spec.classify cfg status (JS.toLowerCase s)
                                  backoffLevel))
    /\ (forall json : string,
          AccountFallback.checkFallbackError cfg status (ErrObject json)
                                             backoffLevel
          = Normal (Spec.classify cfg status (JS.toLowerCase json)
                                  backoffLevel))
    /\ (forall thrown : string,
          AccountFallback.checkFallbackError cfg status (ErrOpaque thrown)
                                             backoffLevel
          = Throw thrown).
Proof.
  intros status level. split; [|split; [|split]]; intros.
  - now apply checkFallbackError_searched.
  - now apply checkFallbackError_searched.
  - now apply checkFallbackError_searched.
  - reflexivity.
Qed.

(** C1 as the specification words it fails: an error value that is a
    function has no JSON text, and classifying it throws instead of
    returning a decision. *)
Lemma classifier_throws_on_unrendered_error :
  AccountFallback.checkFallbackError sampleConfig 500
    (ErrOpaque "TypeError: Cannot read properties of undefined") 0
  = Throw "TypeError: Cannot read properties of undefined"
  /\ forall r : FallbackResult,
       AccountFallback.checkFallbackError sampleConfig 500
         (ErrOpaque "TypeError: Cannot read properties of undefined") 0
       <> Normal r.
Proof. split; [reflexivity | intros r; discriminate]. Qed.

Lemma checkStatus_429 (level : nat) :
  AccountFallback.checkStatus cfg 429 level
  = AccountFallback.backoff cfg level.
Proof. reflexivity. Qed.

Lemma checkStatus_shouldFallback (status : Z) (level : nat) :
  shouldFallback (AccountFallback.checkStatus cfg status level) = true.
Proof.
  unfold AccountFallback.checkStatus.
  repeat match goal with
         | |- context [if ?b then _ else _] => destruct b
         end; reflexivity.
Qed.

(** Every branch of the classifier asks for a fallback, and only a value
    that cannot be rendered makes it throw. *)
Lemma checkFallbackError_shouldFallback
    (status : Z) (errorText : ErrorText) (level : nat) :
  match AccountFallback.checkFallbackError cfg status errorText level with
  | Normal r => shouldFallback r = true
  | Throw thrown => errorText = ErrOpaque thrown
  end.
Proof.
  unfold AccountFallback.checkFallbackError.
  destruct (AccountFallback.truthy errorText);
    [|apply checkStatus_shouldFallback].
  destruct errorText as [|s|j|t]; cbn [AccountFallback.lowerErrorOf];
    try reflexivity;
    repeat match goal with
           | |- context [if ?b then _ else _] => destruct b
           end;
    try reflexivity; apply checkStatus_shouldFallback.
Qed.

End ClassifierFacts.

(** ** Credential store *)

Section SortFacts.

Context {A : Type}.

Lemma insertSorted_map (cmp : A -> A -> Z) (f : A -> A) (x : A) (l : list A) :
  (forall a b, cmp (f a) (f b) = cmp a b) ->
  insertSorted cmp (f x) (map f l) = map f (insertSorted cmp x l).
Proof.
  intros Hc. induction l as [|y l IH]; cbn; [reflexivity|].
  rewrite Hc. destruct (cmp x y <=? 0); cbn; [reflexivity|].
  now rewrite IH.
Qed.

Lemma sort_map (cmp : A -> A -> Z) (f : A -> A) (l : list A) :
  (forall a b, cmp (f a) (f b) = cmp a b) ->
  sort cmp (map f l) = map f (sort cmp l).
Proof.
  intros Hc. induction l as [|x l IH]; cbn; [reflexivity|].
  now rewrite IH, insertSorted_map.
Qed.

Lemma insertSorted_In (cmp : A -> A -> Z) (x y : A) (l : list A) :
  In y (insertSorted cmp x l) <-> y = x \/ In y l.
Proof.
  induction l as [|z l IH]; cbn.
  - intuition auto.
  - destruct (cmp x z <=? 0); cbn; [intuition auto|].
    rewrite IH. intuition auto.
Qed.

Lemma sort_In (cmp : A -> A -> Z) (y : A) (l : list A) :
  In y (sort cmp l) <-> In y l.
Proof.
  induction l as [|x l IH]; cbn; [tauto|].
  rewrite insertSorted_In, IH. intuition auto.
Qed.

Lemma sort_nil_inv (cmp : A -> A -> Z) (l : list A) :
  sort cmp l = [] -> l = [].
Proof.
  destruct l as [|x l]; [reflexivity|]. cbn. intros H.
  assert (Hin : In x (insertSorted cmp x (sort cmp l)))
    by (apply insertSorted_In; now left).
  rewrite H in Hin. destruct Hin.
Qed.

End SortFacts.

Section StoreFacts.

Variable id : string.
Variable p : Patch.t.

Lemma patched_id c : Conn.id (patched id p c) = Conn.id c.
Proof. unfold patched. now destruct (String.eqb (Conn.id c) id). Qed.

Lemma patched_matches f c :
  Store.matches f (patched id p c) = Store.matches f c.
Proof.
  unfold patched, Store.matches.
  now destruct (String.eqb (Conn.id c) id).
Qed.

Lemma patched_priority c : Conn.priority (patched id p c) = Conn.priority c.
Proof. unfold patched. now destruct (String.eqb (Conn.id c) id). Qed.

Lemma filter_map_patched f (l : list Conn.t) :
  filter (Store.matches f) (map (patched id p) l)
  = map (patched id p) (filter (Store.matches f) l).
Proof.
  induction l as [|c l IH]; cbn; [reflexivity|].
  rewrite patched_matches.
  destruct (Store.matches f c); cbn; now rewrite IH.
Qed.

Lemma getProviderConnections_update f (s : Store.t) :
  Store.getProviderConnections f (Store.updateProviderConnection id p s)
  = map (patched id p) (Store.getProviderConnections f s).
Proof.
  unfold Store.getProviderConnections, Store.updateProviderConnection.
  cbn [Store.connections].
  change (map (fun c => if String.eqb (Conn.id c) id
                        then Patch.apply p c else c)
              (Store.connections s))
    with (map (patched id p) (Store.connections s)).
  rewrite filter_map_patched.
  apply sort_map. intros a b. now rewrite !patched_priority.
Qed.

Lemma find_map_patched (k : string) (l : list Conn.t) :
  Store.find k (map (patched id p) l)
  = option_map (patched id p) (Store.find k l).
Proof.
  unfold Store.find.
  induction l as [|c l IH]; cbn; [reflexivity|].
  rewrite patched_id.
  destruct (String.eqb (Conn.id c) k); [reflexivity | exact IH].
Qed.

End StoreFacts.

(** ** Marking an account unavailable *)

Section MarkFacts.

Variable cfg : Config.

(** What [markAccountUnavailable] returns and the patch it persists. *)
Lemma markAccountUnavailable_eq
    (now : Z) (id : string) (status : Z) (errorText : ErrorText)
    (provider : option string) (s : Store.t) :
  let level :=
    match storedLevel provider id s with Some l => l | None => O end in
  Auth.markAccountUnavailable cfg now id status errorText provider s
  = match AccountFallback.checkFallbackError cfg status errorText level with
    | Throw thrown => (Throw thrown, s)
    | Normal r =>
        (Normal {| Auth.mr_shouldFallback := true;
                   Auth.mr_cooldownMs := cooldownMs r |},
         Store.updateProviderConnection id
           (Patch.Build (Some "unavailable")
              (Some (Some (Auth.reasonOf errorText)))
              (Some (Some status)) (Some (Some now))
              (Some (Some (now + cooldownMs r)))
              (Some match newBackoffLevel r with
                    | Some l => l
                    | None => level
                    end)
              None None) s)
    end.
Proof.
  cbv zeta.
  unfold Auth.markAccountUnavailable, bind, getConnections, updateConnection,
    ret, storedLevel, Cooldowns.getUnavailableUntil.
  set (found := Store.find id _).
  assert (E : match found with
              | Some c => Some (Conn.backoffLevel c)
              | None => None
              end
              = option_map Conn.backoffLevel found) by now destruct found.
  destruct found as [c|]; cbn [option_map] in *;
    match goal with
    | |- context [AccountFallback.checkFallbackError cfg status errorText
                    ?l] =>
        pose proof (checkFallbackError_shouldFallback cfg status errorText l)
          as Hfb;
        destruct (AccountFallback.checkFallbackError cfg status errorText l)
          as [r | thrown]
    end; try reflexivity; rewrite Hfb; reflexivity.
Qed.

(** The level stored after a call that returns, for a connection the
    store holds. *)
Lemma storedLevel_after_mark
    (now : Z) (id : string) (status : Z) (errorText : ErrorText)
    (provider : option string) (s : Store.t) (n : nat) (r : FallbackResult) :
  storedLevel provider id s = Some n ->
  AccountFallback.checkFallbackError cfg status errorText n = Normal r ->
  storedLevel provider id
    (snd (Auth.markAccountUnavailable cfg now id status errorText provider s))
  = Some match newBackoffLevel r with
         | Some l => l
         | None => n
         end.
Proof.
  intros Hn Hr. rewrite markAccountUnavailable_eq. cbv zeta.
  rewrite Hn, Hr. cbn [snd].
  unfold storedLevel in *.
  rewrite getProviderConnections_update, find_map_patched.
  destruct (Store.find id _) as [c|] eqn:Hf; [|discriminate].
  injection Hn as Hn. cbn [option_map]. unfold patched.
  assert (Hid : String.eqb (Conn.id c) id = true).
  { unfold Store.find in Hf. apply find_some in Hf. tauto. }
  rewrite Hid. reflexivity.
Qed.

(** A rate-limit failure is answered by the exponential rule. *)
Lemma rate_limit_classified
    (status : Z) (errorText : ErrorText) (n : nat) :
  isRateLimitFailure status errorText = true ->
  AccountFallback.checkFallbackError cfg status errorText n
  = Normal (AccountFallback.backoff cfg n).
Proof.
  unfold isRateLimitFailure.
  destruct (searchedText errorText) as [body|] eqn:Hbody; [|discriminate].
  intros Hrl.
  rewrite (checkFallbackError_searched cfg status errorText body n Hbody).
  f_equal. unfold Spec.classify, Spec.rules.
  unfold Spec.isRateLimit, Spec.bodyContains in Hrl.
  cbn [Spec.firstMatch Spec.bodyContains Spec.statusAmong existsb] in *.
  rewrite <- backoff_exponential.
  destruct (JS.includes body "no credentials"); [discriminate|].
  destruct (JS.includes body "request not allowed"); [discriminate|].
  cbn [negb andb] in Hrl.
  destruct (JS.includes body "rate limit"); [reflexivity|].
  destruct (JS.includes body "too many requests"); [reflexivity|].
  destruct (JS.includes body "quota exceeded"); [reflexivity|].
  destruct (JS.includes body "capacity"); [reflexivity|].
  destruct (JS.includes body "overloaded"); [reflexivity|].
  cbn [orb] in *. apply Z.eqb_eq in Hrl. subst status. reflexivity.
Qed.

End MarkFacts.

(** ** Exponential backoff over consecutive failures *)

Section BackoffFacts.

Variable cfg : Config.

Let maxLevel : nat := Backoff.maxLevel (BACKOFF_CONFIG cfg).

Lemma markAll_rate_limits
    (provider : option string) (id : string) (fs : list Failure) :
  forall (s : Store.t) (n0 : nat),
    storedLevel provider id s = Some n0 ->
    (n0 <= maxLevel)%nat ->
    Forall (fun f => isRateLimitFailure (f_status f) (f_errorText f) = true)
           fs ->
    fst (markAll cfg provider id fs s)
    = map (fun i =>
             (Normal {| Auth.mr_shouldFallback := true;
                        Auth.mr_cooldownMs :=
                          cooldownAt cfg (levelAt cfg n0 i) |},
              Some (levelAt cfg n0 (S i))))
          (seq 0 (List.length fs)).
Proof.
  induction fs as [|f fs IH]; intros s n0 Hn Hle Hall; [reflexivity|].
  inversion Hall as [|f' fs' Hf Hrest]; subst.
  cbn [markAll List.length seq map].
  pose proof (rate_limit_classified cfg _ _ n0 Hf) as Hcl.
  pose proof (storedLevel_after_mark cfg (f_now f) id (f_status f)
                (f_errorText f) provider s n0 _ Hn Hcl) as Hafter.
  pose proof (markAccountUnavailable_eq cfg (f_now f) id (f_status f)
                (f_errorText f) provider s) as Heq.
  cbv zeta in Heq. rewrite Hn, Hcl in Heq.
  cbn [AccountFallback.backoff cooldownMs newBackoffLevel] in Heq, Hafter.
  destruct (Auth.markAccountUnavailable cfg (f_now f) id (f_status f)
              (f_errorText f) provider s) as [r s1] eqn:Hm.
  cbn [snd] in Hafter.
  specialize (IH s1 (Nat.min (n0 + 1) maxLevel) Hafter
                (Nat.le_min_r _ _) Hrest).
  destruct (markAll cfg provider id fs s1) as [rs s2].
  cbn [fst] in *. rewrite Hafter, IH.
  injection Heq as Hr _. subst r.
  f_equal.
  - unfold levelAt, cooldownAt, AccountFallback.getQuotaCooldown.
    fold maxLevel. rewrite Nat.add_0_r, (Nat.min_l n0 maxLevel Hle).
    reflexivity.
  - rewrite <- seq_shift, map_map. apply map_ext. intros i.
    unfold levelAt. fold maxLevel.
    replace (Nat.min (Nat.min (n0 + 1) maxLevel + i) maxLevel)
      with (Nat.min (n0 + S i) maxLevel) by lia.
    replace (Nat.min (Nat.min (n0 + 1) maxLevel + S i) maxLevel)
      with (Nat.min (n0 + S (S i)) maxLevel) by lia.
    reflexivity.
Qed.

End BackoffFacts.

(** C2 (amended).  Take a connection whose stored backoff level [n0] does
    not exceed [maxLevel], and any sequence of consecutive failures that the
    classifier sends to its exponential rule (a rate-limit keyword in the
    text, or status 429, and in either case a text with neither
    "no credentials" nor "request not allowed").  The i-th failure is
    answered with the cooldown [min(base * 2^n, max)] for the level [n]
    stored before it, and stores [min(n + 1, maxLevel)]; the stored levels
    never decrease and never exceed [maxLevel]. *)
Theorem rate_limit_failures_back_off :
  forall (cfg : Config) (provider : option string) (id : string)
         (fs : list Failure) (s : Store.t) (n0 : nat),
    storedLevel provider id s = Some n0 ->
    (n0 <= Backoff.maxLevel (BACKOFF_CONFIG cfg))%nat ->
    Forall (fun f => isRateLimitFailure (f_status f) (f_errorText f) = true)
           fs ->
    fst (markAll cfg provider id fs s)
    = map (fun i =>
             (Normal {| Auth.mr_shouldFallback := true;
                        Auth.mr_cooldownMs :=
                          cooldownAt cfg (levelAt cfg n0 i) |},
              Some (levelAt cfg n0 (S i))))
          (seq 0 (List.length fs))
    /\ (forall i : nat,
          levelAt cfg n0 (S i)
          = Nat.min (levelAt cfg n0 i + 1)
                    (Backoff.maxLevel (BACKOFF_CONFIG cfg))
          /\ (levelAt cfg n0 i <= levelAt cfg n0 (S i))%nat
          /\ (levelAt cfg n0 (S i)
              <= Backoff.maxLevel (BACKOFF_CONFIG cfg))%nat).
Proof.
  intros cfg provider id fs s n0 Hn Hle Hall. split.
  - now apply markAll_rate_limits.
  - intros i. unfold levelAt. lia.
Qed.

(** Scenario S3: two rate-limit failures on a fresh connection are answered
    with [base] and [2 * base] and store the levels 1 and 2. *)
Lemma rate_limit_failures_back_off_witness :
  fst (markAll sampleConfig (Some "cursor") "A" rateLimitTwice storeAB)
  = [ (Normal {| Auth.mr_shouldFallback := true;
                 Auth.mr_cooldownMs := 1000 |},
       Some 1%nat);
      (Normal {| Auth.mr_shouldFallback := true;
                 Auth.mr_cooldownMs := 2000 |},
       Some 2%nat) ].
Proof.
  refine (proj1 (rate_limit_failures_back_off sampleConfig (Some "cursor")
                   "A" rateLimitTwice storeAB 0%nat eq_refl _ _)).
  - cbn. lia.
  - repeat constructor.
Defined.

(** C2 as the specification words it fails: a 429 whose text says
    "no credentials" is answered by rule 1, with the [notFound] cooldown
    and the level left as it was; and a stored level above [maxLevel] is
    lowered to it. *)
Lemma rate_limit_status_with_credentials_text :
  let r :=
    Auth.markAccountUnavailable sampleConfig 1000 "A" 429
      (ErrString "no credentials") (Some "cursor") storeAB in
  fst r = Normal {| Auth.mr_shouldFallback := true;
                    Auth.mr_cooldownMs := 120000 |}
  /\ fst r <> Normal {| Auth.mr_shouldFallback := true;
                        Auth.mr_cooldownMs := Z.min (1000 * 2 ^ 0) 120000 |}
  /\ storedLevel (Some "cursor") "A" (snd r) = Some 0%nat
  /\ storedLevel (Some "cursor") "A" (snd r) <> Some (Nat.min (0 + 1) 15)
  /\ storedLevel (Some "cursor") "A"
       (snd (Auth.markAccountUnavailable sampleConfig 1000 "A" 429
               (ErrString "Rate limit exceeded") (Some "cursor")
               storeAboveCap))
     = Some 15%nat.
Proof.
  cbv zeta. repeat split; try (vm_compute; reflexivity);
    vm_compute; discriminate.
Qed.

(** ** Dispatch loop *)

Section LoopFacts.

Variable cfg : Config.
Variable settings : Settings.
Variable provider : string.
Variable clock : nat -> Z.
Variable handleChatCore : nat -> Creds.t -> ChatResult.

Lemma markAccountUnavailable_always_falls_back
    (now : Z) (id : string) (status : Z) (errorText : ErrorText)
    (prov : option string) (s : Store.t) :
  match fst (Auth.markAccountUnavailable cfg now id status errorText prov s)
  with
  | Normal r => Auth.mr_shouldFallback r = true
  | Throw thrown => errorText = ErrOpaque thrown
  end.
Proof.
  rewrite markAccountUnavailable_eq. cbv zeta.
  match goal with
  | |- context [AccountFallback.checkFallbackError cfg status errorText ?l] =>
      pose proof (checkFallbackError_shouldFallback cfg status errorText l)
        as Hfb;
      destruct (AccountFallback.checkFallbackError cfg status errorText l)
  end; [reflexivity | exact Hfb].
Qed.

Lemma turn_never_surfaces (n : nat) (st : Chat.LoopState) (s : Store.t) :
  match fst (Chat.turn cfg settings provider clock handleChatCore n st s) with
  | inl e => leftByUpstreamError (Some e) = false
  | inr _ => True
  end.
Proof.
  unfold Chat.turn, bind.
  destruct (Auth.getProviderCredentials settings (clock n) provider
              (Chat.excludeConnectionId st) s) as [[| ra le lc | creds] s1].
  - destruct (Chat.excludeConnectionId st) as [e|]; [|reflexivity].
    destruct (JS.truthy_string e); reflexivity.
  - reflexivity.
  - destruct (handleChatCore n creds) as [resp | status err resp].
    + destruct (Auth.clearAccountError (Creds.connectionId creds) creds s1).
      reflexivity.
    + pose proof (markAccountUnavailable_always_falls_back (clock n)
                    (Creds.connectionId creds) status err (Some provider) s1)
        as Hfb.
      destruct (Auth.markAccountUnavailable cfg (clock n)
                  (Creds.connectionId creds) status err (Some provider) s1)
        as [[r | thrown] s2]; [|reflexivity].
      cbn [fst] in Hfb. rewrite Hfb. exact I.
Qed.

Lemma accountLoop_never_surfaces (fuel : nat) :
  forall (n : nat) (st : Chat.LoopState) (s : Store.t),
    leftByUpstreamError
      (fst (Chat.accountLoop cfg settings provider clock handleChatCore
              fuel n st s)) = false.
Proof.
  induction fuel as [|fuel IH]; intros n st s; [reflexivity|].
  cbn [Chat.accountLoop]. unfold bind at 1.
  pose proof (turn_never_surfaces n st s) as Ht.
  destruct (Chat.turn cfg settings provider clock handleChatCore n st s)
    as [[e | st'] s1]; cbn [fst] in Ht.
  - exact Ht.
  - apply IH.
Qed.

End LoopFacts.

(** C10.  Whatever the status, the text and the level, the classifier
    answers [shouldFallback = true] whenever it answers (it throws only on
    a value that has no JSON text); hence [markAccountUnavailable] never
    returns [{shouldFallback: false}], and the account loop is never left
    through the statement that returns the upstream error without rotating
    to the next account. *)
Theorem upstream_error_branch_unreachable :
  forall (cfg : Config),
    (forall (status : Z) (errorText : ErrorText) (backoffLevel : nat),
        match AccountFallback.checkFallbackError cfg status errorText
                                                 backoffLevel with
        | Normal r => shouldFallback r = true
        | Throw thrown => errorText = ErrOpaque thrown
        end)
    /\ (forall (now : Z) (id : string) (status : Z) (errorText : ErrorText)
               (provider : option string) (s : Store.t),
          match fst (Auth.markAccountUnavailable cfg now id status errorText
                                                 provider s) with
          | Normal r => Auth.mr_shouldFallback r = true
          | Throw thrown => errorText = ErrOpaque thrown
          end)
    /\ (forall (settings : Settings) (provider : string) (clock : nat -> Z)
               (handleChatCore : nat -> Creds.t -> ChatResult)
               (fuel n : nat) (st : Chat.LoopState) (s : Store.t),
          leftByUpstreamError
            (fst (Chat.accountLoop cfg settings provider clock
                    handleChatCore fuel n st s)) = false).
Proof.
  intros cfg. split; [|split].
  - apply checkFallbackError_shouldFallback.
  - apply markAccountUnavailable_always_falls_back.
  - intros. apply accountLoop_never_surfaces.
Qed.

(** ** Clearing an account's error *)

(** C9 (amended).  [clearAccountError(id, snapshot)] writes nothing exactly
    when the snapshot shows a [testStatus] other than "unavailable", no
    (non-empty) [lastError] and no [rateLimitedUntil].  Otherwise it makes
    one write, of the patch [{testStatus: "active", lastError: null,
    lastErrorAt: null, rateLimitedUntil: null, backoffLevel: 0}]: the
    connection with that id gets these five values and keeps every other
    field, and every other connection is unchanged. *)
Theorem clearAccountError_effect :
  forall (id : string) (snapshot : Creds.t) (s : Store.t),
    let clean :=
      Creds.testStatus snapshot <> "unavailable"
      /\ (Creds.lastError snapshot = None
          \/ Creds.lastError snapshot = Some "")
      /\ Creds.rateLimitedUntil snapshot = None in
    let s' := snd (Auth.clearAccountError id snapshot s) in
    (clean -> s' = s)
    /\ (~ clean ->
        Store.writes s'
        = Store.writes s
          ++ [(id, Patch.Build (Some "active") (Some None) None (Some None)
                               (Some None) (Some O) None None)]
        /\ Store.connections s'
           = map (fun c =>
                    if String.eqb (Conn.id c) id then
                      Conn.Build (Conn.id c) (Conn.provider c)
                        (Conn.isActive c) (Conn.priority c) (Conn.apiKey c)
                        (Conn.accessToken c) (Conn.refreshToken c)
                        (Conn.projectId c) (Conn.providerSpecificData c)
                        "active" None (Conn.errorCode c) None None O
                        (Conn.lastUsedAt c) (Conn.consecutiveUseCount c)
                    else c)
                 (Store.connections s)).
Proof.
  intros id snapshot s clean s'. subst clean s'.
  unfold Auth.clearAccountError, Auth.hasError.
  destruct (String.eqb_spec (Creds.testStatus snapshot) "unavailable")
    as [Hu | Hu];
    destruct (Creds.lastError snapshot) as [[|ch e]|];
    destruct (Creds.rateLimitedUntil snapshot) as [u|];
    cbn [orb negb JS.truthy_string snd ret updateConnection];
    (split; [ intros H | intros H ]);
    try reflexivity;
    try (exfalso; (tauto || (destruct H as (H1 & [H2|H2] & H3); congruence)));
    try (split; reflexivity);
    try (exfalso; apply H; repeat split; auto; congruence).
Qed.

(** ** Account selection *)

Section SortedHead.

Context {A : Type} (cmp : A -> A -> Z).

Hypothesis cmp_total : forall a b, cmp a b <= 0 \/ cmp b a <= 0.
Hypothesis cmp_trans :
  forall a b c, cmp a b <= 0 -> cmp b c <= 0 -> cmp a c <= 0.

(** The first element of a sorted array comes before every element. *)
Lemma sort_head_least (l : list A) (h : A) :
  hd_error (sort cmp l) = Some h ->
  In h l /\ forall y, In y l -> cmp h y <= 0.
Proof.
  revert h. induction l as [|x l IH]; intros h; cbn; [discriminate|].
  destruct (sort cmp l) as [|z rest] eqn:Hs.
  - apply sort_nil_inv in Hs. subst l. cbn. intros [= <-].
    split; [now left|]. intros y [<-|[]].
    destruct (cmp_total x x); assumption.
  - specialize (IH z eq_refl) as [Hz IH]. cbn.
    destruct (Z.leb_spec (cmp x z) 0) as [Hle | Hgt]; cbn; intros [= <-].
    + split; [now left|]. intros y [<-|Hy].
      * destruct (cmp_total x x); assumption.
      * eapply cmp_trans; [exact Hle | now apply IH].
    + split; [now right|]. intros y [<-|Hy].
      * destruct (cmp_total z x); [assumption | lia].
      * now apply IH.
Qed.

End SortedHead.

Section SelectionFacts.

Variable now : Z.

Lemma available_not_rate_limited (ex : option string) (c : Conn.t)
    (l : list Conn.t) :
  In c (filter (Auth.isAvailable now ex) l) ->
  In c l /\ Auth.isExcluded ex c = false /\ Auth.isRateLimited now c = false.
Proof.
  rewrite filter_In. unfold Auth.isAvailable, Auth.isRateLimited,
    Cooldowns.isAccountUnavailable.
  intros [Hin Hav]. split; [exact Hin|].
  destruct (Auth.isExcluded ex c); [discriminate|]. split; [reflexivity|].
  destruct (Conn.rateLimitedUntil c) as [u|]; [|reflexivity].
  destruct (now <? u); [discriminate | reflexivity].
Qed.

Lemma hd_sort_In (cmp : Conn.t -> Conn.t -> Z) (first : Conn.t)
    (l : list Conn.t) :
  In first l -> In (hd first (sort cmp l)) l.
Proof.
  intros Hf. destruct (sort cmp l) as [|z rest] eqn:Hs; cbn; [exact Hf|].
  apply (sort_In cmp). rewrite Hs. now left.
Qed.

Lemma roundRobin_In (stickyLimit : Z) (first : Conn.t) (l : list Conn.t) :
  In first l -> In (fst (Auth.roundRobin now stickyLimit first l)) l.
Proof.
  intros Hf. unfold Auth.roundRobin.
  destruct (Conn.lastUsedAt (hd first (sort Auth.cmpRecency l)));
    [destruct (_ <? _)|]; cbn [fst]; now apply hd_sort_In.
Qed.

Lemma all_rate_limited_none_available (ex : option string)
    (l : list Conn.t) :
  (forall c, In c l -> Auth.isRateLimited now c = true) ->
  filter (Auth.isAvailable now ex) l = [].
Proof.
  intros H. induction l as [|c l IH]; [reflexivity|]. cbn.
  assert (Hc : Auth.isRateLimited now c = true) by (apply H; now left).
  unfold Auth.isAvailable, Cooldowns.isAccountUnavailable.
  unfold Auth.isRateLimited in Hc.
  destruct (Auth.isExcluded ex c);
    [| destruct (Conn.rateLimitedUntil c); [rewrite Hc | discriminate]];
    apply IH; intros c' Hc'; apply H; now right.
Qed.

Lemma all_rate_limited_filter (l : list Conn.t) :
  (forall c, In c l -> Auth.isRateLimited now c = true) ->
  filter (Auth.isRateLimited now) l = l.
Proof.
  intros H. induction l as [|c l IH]; [reflexivity|]. cbn.
  rewrite (H c (or_introl eq_refl)). f_equal.
  apply IH. intros c' Hc'. apply H. now right.
Qed.

(** The loop of [getEarliestRateLimitedUntil] keeps the least instant. *)
Lemma earliest_fold (l : list Conn.t) :
  0 <= now ->
  (forall c, In c l -> Auth.isRateLimited now c = true) ->
  forall acc : option Z,
    (forall a, acc = Some a -> now < a) ->
    match fold_left (Cooldowns.earliestStep now) l acc with
    | Some e =>
        now < e
        /\ (acc = Some e
            \/ exists c, In c l /\ Conn.rateLimitedUntil c = Some e)
        /\ (forall a, acc = Some a -> e <= a)
        /\ (forall c u, In c l -> Conn.rateLimitedUntil c = Some u -> e <= u)
    | None => acc = None /\ l = []
    end.
Proof.
  intros Hnow. induction l as [|c l IH]; intros Hall acc Hacc; cbn.
  - destruct acc as [a|]; [|tauto].
    repeat split; [now apply Hacc | now left | | ].
    + intros a' [= <-]. lia.
    + intros c u [].
  - assert (Hc : Auth.isRateLimited now c = true) by (apply Hall; now left).
    unfold Auth.isRateLimited in Hc.
    destruct (Conn.rateLimitedUntil c) as [u|] eqn:Hu; [|discriminate].
    apply Z.ltb_lt in Hc.
    assert (Hall' : forall c', In c' l -> Auth.isRateLimited now c' = true)
      by (intros c' Hc'; apply Hall; now right).
    set (acc' := Cooldowns.earliestStep now acc c).
    assert (Hstep :
              (forall a, acc' = Some a -> now < a)
              /\ exists m, acc' = Some m /\ m <= u
                           /\ (forall a, acc = Some a -> m <= a)
                           /\ (m = u \/ acc = Some m)).
    { subst acc'. unfold Cooldowns.earliestStep. rewrite Hu.
      destruct (Z.leb_spec u now); [lia|].
      destruct acc as [a|].
      - specialize (Hacc a eq_refl).
        unfold JS.truthy_num.
        destruct (Z.eqb_spec a 0); [lia|]. cbn [negb orb].
        destruct (Z.ltb_spec u a).
        + split; [intros ? [= <-]; lia|].
          exists u. split; [reflexivity|]. split; [lia|].
          split; [intros ? [= <-]; lia | now left].
        + split; [intros ? [= <-]; lia|].
          exists a. split; [reflexivity|]. split; [lia|].
          split; [intros ? [= <-]; lia | now right].
      - split; [intros ? [= <-]; lia|].
        exists u. split; [reflexivity|]. split; [lia|].
        split; [discriminate | now left]. }
    destruct Hstep as [Hacc' (m & Hm & Hmu & Hma & Hmor)].
    specialize (IH Hall' acc' Hacc').
    fold acc'.
    destruct (fold_left (Cooldowns.earliestStep now) l acc') as [e|].
    + destruct IH as (He & Hwhere & Hle & Hmin).
      assert (Hem : e <= m) by now apply Hle.
      repeat split.
      * exact He.
      * destruct Hwhere as [Heq | (c' & Hin & Hc')].
        -- rewrite Hm in Heq. injection Heq as <-.
           destruct Hmor as [-> | Hax]; [right; exists c; cbn; auto
                                        | now left].
        -- right. exists c'. cbn. auto.
      * intros a Ha. specialize (Hma a Ha). lia.
      * intros c' u' [<- | Hin] Hu'.
        -- rewrite Hu in Hu'. injection Hu' as <-. lia.
        -- now apply (Hmin c').
    + destruct IH as [Hnone _]. rewrite Hm in Hnone. discriminate.
Qed.

Lemma getEarliest_all_limited (l : list Conn.t) :
  0 <= now -> l <> [] ->
  (forall c, In c l -> Auth.isRateLimited now c = true) ->
  exists e,
    Cooldowns.getEarliestRateLimitedUntil now l = Some e
    /\ now < e
    /\ (exists c, In c l /\ Conn.rateLimitedUntil c = Some e)
    /\ (forall c u, In c l -> Conn.rateLimitedUntil c = Some u -> e <= u).
Proof.
  intros Hnow Hne Hall.
  pose proof (earliest_fold l Hnow Hall None
                ltac:(intros a Ha; discriminate)) as H.
  unfold Cooldowns.getEarliestRateLimitedUntil.
  destruct (fold_left (Cooldowns.earliestStep now) l None) as [e|].
  - destruct H as (He & [Hx | Hc] & _ & Hmin); [discriminate|].
    exists e. unfold JS.truthy_num.
    destruct (Z.eqb_spec e 0); [lia|]. cbn. auto.
  - destruct H as [_ Hnil]. contradiction.
Qed.

(** The connection whose error is reported has the least instant. *)
Lemma earliestConn_least (l : list Conn.t) :
  l <> [] ->
  (forall c, In c l -> Auth.isRateLimited now c = true) ->
  exists c u,
    Auth.earliestConn now l = Some c /\ In c l
    /\ Conn.rateLimitedUntil c = Some u
    /\ (forall c' u', In c' l -> Conn.rateLimitedUntil c' = Some u' ->
                      u <= u').
Proof.
  intros Hne Hall. unfold Auth.earliestConn.
  rewrite (all_rate_limited_filter l Hall).
  set (cmp := fun a b => Auth.untilOf a - Auth.untilOf b).
  destruct (hd_error (sort cmp l)) as [c|] eqn:Hh.
  - destruct (sort_head_least cmp
                ltac:(intros a b; unfold cmp; lia)
                ltac:(intros a b d; unfold cmp; lia) l c Hh) as [Hin Hmin].
    pose proof (Hall c Hin) as Hc. unfold Auth.isRateLimited in Hc.
    destruct (Conn.rateLimitedUntil c) as [u|] eqn:Hu; [|discriminate].
    exists c, u. repeat split; auto.
    intros c' u' Hin' Hu'. specialize (Hmin c' Hin').
    unfold cmp, Auth.untilOf in Hmin. rewrite Hu, Hu' in Hmin. lia.
  - destruct (sort cmp l) eqn:Hs; [|discriminate].
    apply sort_nil_inv in Hs. contradiction.
Qed.

End SelectionFacts.

(** Closes a branch of [getProviderCredentials] that returns no
    connection. *)
Ltac no_selection :=
  let H := fresh "H" in intros H; cbn [fst] in H; discriminate H.

(** C3.  Whatever the provider, the stored connections, the settings and
    the excluded id: a connection returned by [getProviderCredentials] is
    one of the provider's active connections, is not the excluded one and
    has no [rateLimitedUntil] after the time of selection.  When the
    provider has active connections and every one of them is in cooldown,
    the result is the [AllRateLimited] sentinel: it carries the earliest
    [rateLimitedUntil] and the [lastError] and [errorCode] of a connection
    that has it, an empty [lastError] and an [errorCode] of zero being
    reported as [null]; and the store is left as it was. *)
Theorem selection_skips_cooling_connections :
  forall (settings : Settings) (now : Z) (provider : string)
         (excludeConnectionId : option string) (s : Store.t),
    let conns :=
      Store.getProviderConnections
        {| Store.f_provider := Some provider;
           Store.f_isActive := Some true |} s in
    (forall creds : Creds.t,
        fst (Auth.getProviderCredentials settings now provider
               excludeConnectionId s) = Selected creds ->
        exists c : Conn.t,
          In c conns /\ creds = Creds.ofConn c
          /\ Auth.isExcluded excludeConnectionId c = false
          /\ (forall u, Conn.rateLimitedUntil c = Some u -> u <= now))
    /\ (0 <= now -> conns <> [] ->
        (forall c, In c conns ->
                   exists u, Conn.rateLimitedUntil c = Some u /\ now < u) ->
        exists (c : Conn.t) (e : Z),
          In c conns /\ Conn.rateLimitedUntil c = Some e /\ now < e
          /\ (forall c' u', In c' conns ->
                            Conn.rateLimitedUntil c' = Some u' -> e <= u')
          /\ Auth.getProviderCredentials settings now provider
               excludeConnectionId s
             = (AllRateLimited e
                  match Conn.lastError c with
                  | Some EmptyString => None
                  | stored => stored
                  end
                  match Conn.errorCode c with
                  | Some 0 => None
                  | stored => stored
                  end, s)).
Proof.
  intros settings now provider ex s conns. split.
  - intros creds.
    unfold Auth.getProviderCredentials, bind, getConnections, ret,
      updateConnection.
    fold conns.
    destruct conns as [|c0 rest] eqn:Hconns.
    + destruct (Store.getProviderConnections
                  {| Store.f_provider := Some provider;
                     Store.f_isActive := None |} s) as [|c1 others];
        [no_selection|].
      destruct (Cooldowns.getEarliestRateLimitedUntil now (c1 :: others));
        no_selection.
    + set (avail := filter (Auth.isAvailable now ex) (c0 :: rest)).
      destruct avail as [|first more] eqn:Hav.
      * destruct (Cooldowns.getEarliestRateLimitedUntil now _); no_selection.
      * assert (Hfirst : In first avail) by (rewrite Hav; now left).
        assert (Hsel : forall c, In c avail ->
                  exists c', In c' (c0 :: rest) /\ Creds.ofConn c = Creds.ofConn c'
                    /\ Auth.isExcluded ex c' = false
                    /\ (forall u, Conn.rateLimitedUntil c' = Some u -> u <= now)).
        { intros c Hc. subst avail.
          apply available_not_rate_limited in Hc as (Hin & Hex & Hrl).
          exists c. repeat split; auto.
          intros u Hu. unfold Auth.isRateLimited in Hrl. rewrite Hu in Hrl.
          apply Z.ltb_ge in Hrl. exact Hrl. }
        rewrite <- Hav.
        destruct (String.eqb (Auth.strategyOf settings) "round-robin").
        -- pose proof (roundRobin_In now (Auth.stickyLimitOf settings)
                         first avail Hfirst) as Hrr.
           destruct (Auth.roundRobin now (Auth.stickyLimitOf settings)
                       first avail) as [connection patch].
           cbn [fst] in *. intros [= <-].
           destruct (Hsel connection Hrr) as (c' & H1 & H2 & H3 & H4).
           exists c'. auto.
        -- cbn [fst]. intros [= <-].
           destruct (Hsel first Hfirst) as (c' & H1 & H2 & H3 & H4).
           exists c'. auto.
  - intros Hnow Hne Hall.
    assert (Hrl : forall c, In c conns -> Auth.isRateLimited now c = true).
    { intros c Hc. destruct (Hall c Hc) as (u & Hu & Hlt).
      unfold Auth.isRateLimited. rewrite Hu. now apply Z.ltb_lt. }
    destruct (getEarliest_all_limited now conns Hnow Hne Hrl)
      as (e & He & Hlt & (ce & Hce & Hcu) & Hmin).
    destruct (earliestConn_least now conns Hne Hrl)
      as (c & u & Hc & Hin & Hu & Hleast).
    assert (Heu : e = u).
    { pose proof (Hmin c u Hin Hu). pose proof (Hleast ce e Hce Hcu). lia. }
    subst u.
    exists c, e. repeat split; auto.
    unfold Auth.getProviderCredentials, bind, getConnections, ret.
    fold conns.
    destruct conns as [|c0 rest] eqn:Hconns; [contradiction|].
    rewrite (all_rate_limited_none_available now ex (c0 :: rest) Hrl).
    rewrite He, Hc. cbn [Auth.optField].
    unfold Auth.strOrNull, Auth.numOrNull, JS.truthy_string, JS.truthy_num.
    destruct (Conn.lastError c) as [[|ch msg]|];
      destruct (Conn.errorCode c) as [[|code|code]|]; reflexivity.
Qed.

(** The selection of C3 on a store with a free connection and on a store
    whose two connections are both in cooldown, where the sentinel carries
    the end of cooldown, the error and the code of "A"; and on a store
    whose cooling connection has an empty error and the code zero. *)
Lemma selection_skips_cooling_connections_witness :
  (exists c : Conn.t,
      In c (Store.getProviderConnections
              {| Store.f_provider := Some "cursor";
                 Store.f_isActive := Some true |} storeAB)
      /\ Creds.ofConn (freshConn "A" 1) = Creds.ofConn c
      /\ Auth.isExcluded None c = false
      /\ (forall u, Conn.rateLimitedUntil c = Some u -> u <= 1000))
  /\ (exists (c : Conn.t) (e : Z),
         In c (Store.getProviderConnections
                 {| Store.f_provider := Some "cursor";
                    Store.f_isActive := Some true |} storeCooling)
         /\ Conn.rateLimitedUntil c = Some e /\ 1000 < e
         /\ (forall c' u',
                In c' (Store.getProviderConnections
                         {| Store.f_provider := Some "cursor";
                            Store.f_isActive := Some true |} storeCooling) ->
                Conn.rateLimitedUntil c' = Some u' -> e <= u')
         /\ Auth.getProviderCredentials stickyTwo 1000 "cursor" None
              storeCooling
            = (AllRateLimited e
                 match Conn.lastError c with
                 | Some EmptyString => None
                 | stored => stored
                 end
                 match Conn.errorCode c with
                 | Some 0 => None
                 | stored => stored
                 end,
               storeCooling))
  /\ Auth.getProviderCredentials stickyTwo 1000 "cursor" None storeCooling
     = (AllRateLimited 31000 (Some "Rate limit exceeded") (Some 429),
        storeCooling)
  /\ Auth.getProviderCredentials stickyTwo 1000 "cursor" None storeSilent
     = (AllRateLimited 31000 None None, storeSilent).
Proof.
  split; [|split; [|split; reflexivity]].
  - refine (proj1 (selection_skips_cooling_connections
                     {| fallbackStrategy := None;
                        stickyRoundRobinLimit := None |}
                     1000 "cursor" None storeAB) _ eq_refl).
  - refine (proj2 (selection_skips_cooling_connections stickyTwo 1000
                     "cursor" None storeCooling) _ _ _).
    + lia.
    + discriminate.
    + intros c [<- | [<- | []]]; eexists; (split; [reflexivity | lia]).
Defined.

(** ** Sticky round-robin *)

Lemma cmpRecency_total (a b : Conn.t) :
  Auth.cmpRecency a b <= 0 \/ Auth.cmpRecency b a <= 0.
Proof.
  unfold Auth.cmpRecency, Auth.byPriority.
  destruct (Conn.lastUsedAt a), (Conn.lastUsedAt b); lia.
Qed.

Lemma cmpRecency_trans (a b c : Conn.t) :
  Auth.cmpRecency a b <= 0 -> Auth.cmpRecency b c <= 0 ->
  Auth.cmpRecency a c <= 0.
Proof.
  unfold Auth.cmpRecency, Auth.byPriority.
  destruct (Conn.lastUsedAt a), (Conn.lastUsedAt b), (Conn.lastUsedAt c);
    lia.
Qed.

Lemma cmpOldest_total (a b : Conn.t) :
  Auth.cmpOldest a b <= 0 \/ Auth.cmpOldest b a <= 0.
Proof.
  unfold Auth.cmpOldest, Auth.byPriority.
  destruct (Conn.lastUsedAt a), (Conn.lastUsedAt b); lia.
Qed.

Lemma cmpOldest_trans (a b c : Conn.t) :
  Auth.cmpOldest a b <= 0 -> Auth.cmpOldest b c <= 0 ->
  Auth.cmpOldest a c <= 0.
Proof.
  unfold Auth.cmpOldest, Auth.byPriority.
  destruct (Conn.lastUsedAt a), (Conn.lastUsedAt b), (Conn.lastUsedAt c);
    lia.
Qed.

Lemma hd_sort_least (cmp : Conn.t -> Conn.t -> Z) (first : Conn.t)
    (l : list Conn.t) :
  (forall a b, cmp a b <= 0 \/ cmp b a <= 0) ->
  (forall a b c, cmp a b <= 0 -> cmp b c <= 0 -> cmp a c <= 0) ->
  l <> [] ->
  In (hd first (sort cmp l)) l
  /\ forall y, In y l -> cmp (hd first (sort cmp l)) y <= 0.
Proof.
  intros Htot Htr Hne.
  destruct (sort cmp l) as [|z rest] eqn:Hs.
  - apply sort_nil_inv in Hs. contradiction.
  - cbn [hd]. apply (sort_head_least cmp Htot Htr). now rewrite Hs.
Qed.

(** The rule of the round-robin strategy, on the available connections. *)
Lemma roundRobin_rule (now stickyLimit : Z) (first : Conn.t)
    (avail : list Conn.t) :
  avail <> [] ->
  exists current : Conn.t,
    In current avail
    /\ (forall c', In c' avail -> usedNoEarlier current c')
    /\ ((Conn.lastUsedAt current <> None
         /\ Conn.consecutiveUseCount current < stickyLimit
         /\ Auth.roundRobin now stickyLimit first avail
            = (current,
               usePatch now (Conn.consecutiveUseCount current + 1)))
        \/ ((Conn.lastUsedAt current = None
             \/ stickyLimit <= Conn.consecutiveUseCount current)
            /\ exists oldest : Conn.t,
                In oldest avail
                /\ (forall c', In c' avail -> usedNoLater oldest c')
                /\ Auth.roundRobin now stickyLimit first avail
                   = (oldest, usePatch now 1))).
Proof.
  intros Hne.
  destruct (hd_sort_least Auth.cmpRecency first avail cmpRecency_total
              cmpRecency_trans Hne) as [Hcin Hcmin].
  destruct (hd_sort_least Auth.cmpOldest first avail cmpOldest_total
              cmpOldest_trans Hne) as [Hoin Homin].
  set (current := hd first (sort Auth.cmpRecency avail)) in *.
  set (oldest := hd first (sort Auth.cmpOldest avail)) in *.
  assert (Hrec : forall c', In c' avail -> usedNoEarlier current c').
  { intros c' Hc'. specialize (Hcmin c' Hc').
    unfold Auth.cmpRecency in Hcmin. unfold usedNoEarlier.
    destruct (Conn.lastUsedAt current), (Conn.lastUsedAt c'); lia || exact I. }
  assert (Hold : forall c', In c' avail -> usedNoLater oldest c').
  { intros c' Hc'. specialize (Homin c' Hc').
    unfold Auth.cmpOldest in Homin. unfold usedNoLater.
    destruct (Conn.lastUsedAt oldest), (Conn.lastUsedAt c'); lia || exact I. }
  exists current. split; [exact Hcin|]. split; [exact Hrec|].
  unfold Auth.roundRobin. fold current oldest. unfold usePatch.
  destruct (Conn.lastUsedAt current) as [t|] eqn:Ht.
  - destruct (Z.ltb_spec (Conn.consecutiveUseCount current) stickyLimit).
    + left. split; [discriminate|]. split; [assumption | reflexivity].
    + right. split; [now right|]. exists oldest. auto.
  - right. split; [now left|]. exists oldest. auto.
Qed.

(** Decides the comparisons of instants that the hypotheses order. *)
Ltac settle_order :=
  repeat match goal with
         | |- context [?a - ?b <=? 0] =>
             first [ rewrite (proj2 (Z.leb_le (a - b) 0)) by lia
                   | rewrite (proj2 (Z.leb_gt (a - b) 0)) by lia ]
         end.

Lemma six_selections (t1 t2 t3 t4 t5 t6 : Z) :
  t1 < t2 -> t2 < t3 -> t3 < t4 -> t4 < t5 -> t5 < t6 ->
  selections stickyTwo "cursor" [t1; t2; t3; t4; t5; t6] storeAB
  = [Some "A"; Some "A"; Some "B"; Some "B"; Some "A"; Some "A"].
Proof.
  intros.
  repeat (progress (unfold Auth.roundRobin, Auth.cmpRecency, Auth.cmpOldest;
                    cbn; settle_order)).
  reflexivity.
Qed.

(** C4 (amended).  Under the round-robin strategy, with at least one
    available connection, let [current] be the available connection used
    most recently (connections never used count as oldest).  If [current]
    has been used and its [consecutiveUseCount] is below the sticky limit,
    it is returned again and [{lastUsedAt = now, consecutiveUseCount + 1}]
    is persisted for it; otherwise the least recently used available
    connection (never-used ones first) is returned and
    [{lastUsedAt = now, consecutiveUseCount = 1}] is persisted for it.
    With a limit of 2 and two never-used connections A and B, A first by
    priority, six selections at increasing times return A, A, B, B, A, A. *)
Theorem sticky_round_robin :
  (forall (settings : Settings) (now : Z) (provider : string)
          (excludeConnectionId : option string) (s : Store.t),
      let avail :=
        filter (Auth.isAvailable now excludeConnectionId)
          (Store.getProviderConnections
             {| Store.f_provider := Some provider;
                Store.f_isActive := Some true |} s) in
      Auth.strategyOf settings = "round-robin" ->
      avail <> [] ->
      exists current : Conn.t,
        In current avail
        /\ (forall c', In c' avail -> usedNoEarlier current c')
        /\ ((Conn.lastUsedAt current <> None
             /\ Conn.consecutiveUseCount current < Auth.stickyLimitOf settings
             /\ Auth.getProviderCredentials settings now provider
                  excludeConnectionId s
                = (Selected (Creds.ofConn current),
                   Store.updateProviderConnection (Conn.id current)
                     (usePatch now (Conn.consecutiveUseCount current + 1)) s))
            \/ ((Conn.lastUsedAt current = None
                 \/ Auth.stickyLimitOf settings
                    <= Conn.consecutiveUseCount current)
                /\ exists oldest : Conn.t,
                    In oldest avail
                    /\ (forall c', In c' avail -> usedNoLater oldest c')
                    /\ Auth.getProviderCredentials settings now provider
                         excludeConnectionId s
                       = (Selected (Creds.ofConn oldest),
                          Store.updateProviderConnection (Conn.id oldest)
                            (usePatch now 1) s))))
  /\ (forall t1 t2 t3 t4 t5 t6 : Z,
         t1 < t2 -> t2 < t3 -> t3 < t4 -> t4 < t5 -> t5 < t6 ->
         selections stickyTwo "cursor" [t1; t2; t3; t4; t5; t6] storeAB
         = [Some "A"; Some "A"; Some "B"; Some "B"; Some "A"; Some "A"]).
Proof.
  split; [|exact six_selections].
  intros settings now provider ex s avail Hstrat Hne.
  unfold Auth.getProviderCredentials, bind, getConnections, ret,
    updateConnection.
  subst avail.
  set (conns := Store.getProviderConnections _ s) in *.
  destruct conns as [|c0 rest]; [now contradiction Hne|].
  set (avail := filter (Auth.isAvailable now ex) (c0 :: rest)) in *.
  destruct avail as [|first more] eqn:Hav; [now contradiction Hne|].
  rewrite <- Hav in *.
  rewrite Hstrat. cbn [String.eqb Ascii.eqb Bool.eqb].
  destruct (roundRobin_rule now (Auth.stickyLimitOf settings) first avail Hne)
    as (current & Hin & Hrec & Hcase).
  exists current. split; [exact Hin|]. split; [exact Hrec|].
  destruct Hcase as [(Hused & Hlt & Hrr) | (Hwhy & oldest & Hoin & Hold & Hrr)];
    rewrite Hrr.
  - left. auto.
  - right. split; [exact Hwhy|]. exists oldest. auto.
Qed.

(** The rule and the six selections of C4, on the two-connection store. *)
Lemma sticky_round_robin_witness :
  (exists current : Conn.t,
      In current [freshConn "A" 1; freshConn "B" 2]
      /\ (Conn.lastUsedAt current = None
          \/ 2 <= Conn.consecutiveUseCount current)
      /\ exists oldest : Conn.t,
          Auth.getProviderCredentials stickyTwo 1000 "cursor" None storeAB
          = (Selected (Creds.ofConn oldest),
             Store.updateProviderConnection (Conn.id oldest)
               (usePatch 1000 1) storeAB))
  /\ selections stickyTwo "cursor" [1000; 2000; 3000; 4000; 5000; 6000]
                storeAB
     = [Some "A"; Some "A"; Some "B"; Some "B"; Some "A"; Some "A"].
Proof.
  split.
  - destruct (proj1 sticky_round_robin stickyTwo 1000 "cursor" None storeAB
                eq_refl ltac:(discriminate))
      as (current & Hin & _ & [(Hused & Hlt & _) | (Hwhy & oldest & _ & _ & Heq)]).
    + exfalso. destruct Hin as [<- | [<- | []]]; now apply Hused.
    + exists current. split; [exact Hin|]. split; [exact Hwhy|].
      exists oldest. exact Heq.
  - apply (proj2 sticky_round_robin); lia.
Defined.

(** C4 as the specification words it fails: the six selections of
    scenario S2 are not A, A, B, B, B, A; the fifth goes back to A, because
    B's first use already counts towards the limit. *)
Lemma sticky_scenario_as_stated_fails :
  selections stickyTwo "cursor" [1000; 2000; 3000; 4000; 5000; 6000] storeAB
  = [Some "A"; Some "A"; Some "B"; Some "B"; Some "A"; Some "A"]
  /\ selections stickyTwo "cursor" [1000; 2000; 3000; 4000; 5000; 6000]
                storeAB
     <> [Some "A"; Some "A"; Some "B"; Some "B"; Some "B"; Some "A"].
Proof.
  split; [vm_compute; reflexivity | vm_compute; discriminate].
Qed.

(** C9 on two snapshots: one that shows an error is cleared by one write,
    and one of a fresh connection causes none. *)
Lemma clearAccountError_effect_witness :
  snd (Auth.clearAccountError "A" (Creds.ofConn (freshConn "A" 1)) storeAB)
  = storeAB
  /\ Store.writes (snd (Auth.clearAccountError "A" coolingSnapshot
                          storeCooling))
     = [("A", Patch.Build (Some "active") (Some None) None (Some None)
                          (Some None) (Some O) None None)].
Proof.
  split.
  - refine (proj1 (clearAccountError_effect "A"
                     (Creds.ofConn (freshConn "A" 1)) storeAB) _).
    repeat split; [discriminate | now left].
  - refine (proj1 (proj2 (clearAccountError_effect "A" coolingSnapshot
                            storeCooling) _)).
    intros (H & _). now apply H.
Defined.

(** C9 as the specification words it fails: a snapshot whose
    [testStatus] is "expired" is not "active", yet nothing is written for
    it. *)
Lemma clearAccountError_skips_expired :
  Creds.testStatus expiredSnapshot <> "active"
  /\ snd (Auth.clearAccountError "A" expiredSnapshot storeExpired)
     = storeExpired
  /\ Store.writes (snd (Auth.clearAccountError "A" expiredSnapshot
                          storeExpired)) = [].
Proof.
  repeat split; [discriminate | ..]; reflexivity.
Qed.

(** ** Token refresh retry *)

Section RetryFacts.

Variable Token : Type.
Variable truthy : Token -> bool.
Variable refreshFn : nat -> Settled Token.

Lemma retryFrom_success (remaining attempt : nat) (token : Token) :
  refreshFn attempt = Resolved token ->
  truthy token = true ->
  TokenRefresh.retryFrom Token truthy refreshFn None (S remaining) attempt
  = (Normal (Some token), attemptEvents attempt).
Proof.
  intros Hfn Ht. cbn [TokenRefresh.retryFrom].
  unfold TokenRefresh.attemptBody, TokenRefresh.logCall.
  rewrite Hfn, Ht. destruct attempt; reflexivity.
Qed.

Lemma retryFrom_failure (remaining attempt : nat) :
  failed truthy (refreshFn attempt) ->
  TokenRefresh.retryFrom Token truthy refreshFn None (S remaining) attempt
  = (fst (TokenRefresh.retryFrom Token truthy refreshFn None remaining
            (S attempt)),
     attemptEvents attempt
     ++ snd (TokenRefresh.retryFrom Token truthy refreshFn None remaining
               (S attempt))).
Proof.
  intros Hfail. cbn [TokenRefresh.retryFrom].
  unfold TokenRefresh.attemptBody, TokenRefresh.onCatch,
    TokenRefresh.logCall.
  destruct (TokenRefresh.retryFrom Token truthy refreshFn None remaining
              (S attempt)) as [r evs].
  destruct (refreshFn attempt) as [result | error]; cbn in Hfail.
  - rewrite Hfail. destruct attempt; reflexivity.
  - destruct attempt; reflexivity.
Qed.

Lemma retryFrom_spec (remaining : nat) :
  forall attempt : nat,
  exists (n : nat) (result : option Token),
    TokenRefresh.retryFrom Token truthy refreshFn None remaining attempt
    = (Normal result, flat_map attemptEvents (seq attempt n))
    /\ (n <= remaining)%nat
    /\ (forall j, (j + 1 < n)%nat ->
                  failed truthy (refreshFn (attempt + j)))
    /\ match result with
       | Some token =>
           (0 < n)%nat
           /\ refreshFn (attempt + n - 1) = Resolved token
           /\ truthy token = true
       | None =>
           n = remaining
           /\ forall j, (j < remaining)%nat ->
                        failed truthy (refreshFn (attempt + j))
       end.
Proof.
  induction remaining as [|remaining IH]; intros attempt.
  - exists O, None. cbn.
    split; [reflexivity|]. split; [lia|]. split; [intros j Hj; lia|].
    split; [reflexivity | intros j Hj; lia].
  - assert (Hcases : (exists token, refreshFn attempt = Resolved token
                                    /\ truthy token = true)
                     \/ failed truthy (refreshFn attempt)).
    { destruct (refreshFn attempt) as [result | error]; cbn; [|auto].
      destruct (truthy result) eqn:Ht; eauto. }
    destruct Hcases as [(token & Hfn & Ht) | Hfail0].
    + exists 1%nat, (Some token).
      rewrite (retryFrom_success _ _ _ Hfn Ht). cbn [seq flat_map].
      rewrite app_nil_r.
      split; [reflexivity|]. split; [lia|]. split; [intros j Hj; lia|].
      split; [lia|].
      replace (attempt + 1 - 1)%nat with attempt by lia. auto.
    + destruct (IH (S attempt)) as (n & result & Heq & Hle & Hfail & Hres).
      exists (S n), result.
      rewrite (retryFrom_failure _ _ Hfail0), Heq. cbn [fst snd seq flat_map].
      split; [reflexivity|]. split; [lia|]. split.
      * intros [|j] Hj.
        -- now rewrite Nat.add_0_r.
        -- replace (attempt + S j)%nat with (S attempt + j)%nat by lia.
           apply Hfail. lia.
      * destruct result as [token|].
        -- destruct Hres as (Hpos & Hlast & Ht). split; [lia|].
           replace (attempt + S n - 1)%nat with (S attempt + n - 1)%nat
             by lia.
           auto.
        -- destruct Hres as [-> Hall]. split; [reflexivity|].
           intros [|j] Hj.
           ++ now rewrite Nat.add_0_r.
           ++ replace (attempt + S j)%nat with (S attempt + j)%nat by lia.
              apply Hall. lia.
Qed.

Lemma delays_attemptEvents (start n : nat) :
  TokenRefresh.delays (flat_map attemptEvents (seq (S start) n))
  = map (fun a => Z.of_nat a * 1000) (seq (S start) n).
Proof.
  revert start. induction n as [|n IH]; intros start; [reflexivity|].
  cbn [seq flat_map map]. unfold TokenRefresh.delays in *.
  rewrite flat_map_app. cbn [attemptEvents flat_map app].
  now rewrite IH.
Qed.

End RetryFacts.

(** C8 (amended).  [refreshWithRetry(fn, maxRetries)], called without a
    logger, calls [fn] at most [maxRetries] times (3 by default), waits
    [attempt * 1000] ms before attempt number [attempt] for every attempt
    but the first (so 1 s and 2 s between three attempts), stops at the
    first call that resolves to a truthy value and returns it, treats a
    falsy value and a thrown exception like [null], and returns [null]
    after [maxRetries] such calls.  It never throws. *)
Theorem refreshWithRetry_bounded :
  forall (Token : Type) (truthy : Token -> bool)
         (refreshFn : nat -> Settled Token) (maxRetries : nat),
  exists (n : nat) (result : option Token),
    TokenRefresh.refreshWithRetry Token truthy refreshFn None maxRetries
    = (Normal result, flat_map attemptEvents (seq 0 n))
    /\ (n <= maxRetries)%nat
    /\ TokenRefresh.delays (flat_map attemptEvents (seq 0 n))
       = map (fun a => Z.of_nat a * 1000) (seq 1 (n - 1))
    /\ (forall j, (j + 1 < n)%nat -> failed truthy (refreshFn j))
    /\ match result with
       | Some token =>
           (0 < n)%nat
           /\ refreshFn (n - 1)%nat = Resolved token
           /\ truthy token = true
       | None =>
           n = maxRetries
           /\ forall j, (j < maxRetries)%nat -> failed truthy (refreshFn j)
       end.
Proof.
  intros Token truthy refreshFn maxRetries.
  destruct (retryFrom_spec Token truthy refreshFn maxRetries 0)
    as (n & result & Heq & Hle & Hfail & Hres).
  exists n, result. cbn [Nat.add] in *.
  split; [exact Heq|]. split; [exact Hle|]. split; [|split].
  - destruct n as [|n]; [reflexivity|].
    replace (S n - 1)%nat with n by lia.
    cbn [seq flat_map attemptEvents app].
    apply delays_attemptEvents.
  - exact Hfail.
  - exact Hres.
Qed.

(** A refresh that throws on the first call and gives a token on the
    second: one wait of 1 s, two calls. *)
Lemma refreshWithRetry_bounded_witness :
  exists (n : nat) (result : option (option string)),
    TokenRefresh.refreshWithRetry (option string) truthyToken
      throwsThenToken None 3
    = (Normal result, flat_map attemptEvents (seq 0 n))
    /\ (n <= 3)%nat
    /\ TokenRefresh.delays (flat_map attemptEvents (seq 0 n))
       = map (fun a => Z.of_nat a * 1000) (seq 1 (n - 1))
    /\ (forall j, (j + 1 < n)%nat -> failed truthyToken (throwsThenToken j))
    /\ match result with
       | Some token =>
           (0 < n)%nat
           /\ throwsThenToken (n - 1)%nat = Resolved token
           /\ truthyToken token = true
       | None =>
           n = 3%nat
           /\ forall j, (j < 3)%nat -> failed truthyToken (throwsThenToken j)
       end.
Proof.
  exact (refreshWithRetry_bounded (option string) truthyToken
           throwsThenToken 3).
Defined.

(** C8 as the specification words it fails: three attempts that all fail
    are separated by two waits, 1 s and 2 s, and there is no wait of 3 s;
    a result that is not [null] but falsy, here the empty string, is not
    returned but retried; and with a logger that has a [warn] method, a
    refresh function that throws [null] makes the wrapper throw. *)
Lemma three_attempts_wait_twice :
  TokenRefresh.refreshWithRetry (option string) truthyToken alwaysNull None 3
  = (Normal None, [Call 0; Sleep 1000; Call 1; Sleep 2000; Call 2])
  /\ TokenRefresh.delays
       (snd (TokenRefresh.refreshWithRetry (option string) truthyToken
               alwaysNull None 3))
     <> [1000; 2000; 3000]
  /\ TokenRefresh.refreshWithRetry (option string) truthyToken
       emptyThenToken None 3
     = (Normal (Some (Some "token")), [Call 0; Sleep 1000; Call 1])
  /\ TokenRefresh.refreshWithRetry (option string) truthyToken throwsNull
       (Some warnOnly) 3
     = (Throw "TypeError: Cannot read properties of null", [Call 0]).
Proof.
  split; [reflexivity|].
  split; [vm_compute; discriminate|].
  split; reflexivity.
Qed.

(** ** 32-bit arithmetic *)

(** 32-bit operators on values that fit. *)
Lemma toInt32_small (x : Z) : 0 <= x < 2 ^ 31 -> JS.toInt32 x = x.
Proof.
  intros H. unfold JS.toInt32, JS.toUint32.
  rewrite Z.mod_small by lia.
  destruct (Z.ltb_spec x (2 ^ 31)); lia.
Qed.

Lemma lor_disjoint (hi lo k : Z) :
  0 <= k -> 0 <= lo < 2 ^ k -> Z.lor (hi * 2 ^ k) lo = hi * 2 ^ k + lo.
Proof.
  intros Hk Hlo.
  assert (Hland : Z.land (hi * 2 ^ k) lo = 0).
  { apply Z.bits_inj'. intros i Hi. rewrite Z.land_spec, Z.bits_0.
    destruct (Z.lt_ge_cases i k) as [Hlt | Hge].
    - rewrite Z.mul_pow2_bits_low by lia. reflexivity.
    - rewrite <- (Z.mod_small lo (2 ^ k)) by lia.
      rewrite Z.mod_pow2_bits_high by lia. apply andb_false_r. }
  pose proof (Zbitwise.Z.add_lor_land (hi * 2 ^ k) lo) as H.
  rewrite Hland in H. lia.
Qed.

Lemma band_255 (x : Z) : 0 <= x < 2 ^ 31 -> JS.band x 0xFF = x mod 256.
Proof.
  intros H. unfold JS.band. rewrite toInt32_small by lia.
  change (JS.toInt32 255) with (Z.ones 8).
  now rewrite Z.land_ones by lia.
Qed.

Lemma shr_small (x k : Z) :
  0 <= x < 2 ^ 31 -> 0 <= k < 32 -> JS.shr x k = x / 2 ^ k.
Proof.
  intros H Hk. unfold JS.shr. rewrite toInt32_small by lia.
  rewrite Z.mod_small by lia. now rewrite Z.shiftr_div_pow2 by lia.
Qed.

Lemma shl_small (x k : Z) :
  0 <= x -> 0 <= k < 32 -> x * 2 ^ k < 2 ^ 31 -> JS.shl x k = x * 2 ^ k.
Proof.
  intros H Hk Hb. unfold JS.shl.
  assert (x < 2 ^ 31).
  { assert (0 < 2 ^ k) by (apply Z.pow_pos_nonneg; lia). nia. }
  rewrite (toInt32_small x) by lia.
  rewrite Z.mod_small by lia. rewrite Z.shiftl_mul_pow2 by lia.
  apply toInt32_small. nia.
Qed.

(** ** Cursor checksum *)

(** What the shifts of [generateChecksum] produce: the counts 40 and 32 are
    taken modulo 32, so the first two bytes repeat the last two. *)
Lemma timestampBytes_wraps (t : Z) :
  CursorExecutor.timestampBytes t
  = [ JS.band (JS.shr t 8) 0xFF; JS.band (JS.shr t 0) 0xFF;
      JS.band (JS.shr t 24) 0xFF; JS.band (JS.shr t 16) 0xFF;
      JS.band (JS.shr t 8) 0xFF; JS.band t 0xFF ].
Proof. reflexivity. Qed.

(** For every timestamp below 2^31 that is not a multiple of 65536, the
    bytes the code enciphers are not the big-endian encoding of the
    timestamp. *)
Lemma timestampBytes_not_big_endian (t : Z) :
  0 <= t < 2 ^ 31 -> t mod 65536 <> 0 ->
  CursorExecutor.timestampBytes t <> Spec.bigEndian48 t.
Proof.
  intros Ht Hmod. rewrite timestampBytes_wraps.
  unfold Spec.bigEndian48. cbn [map].
  rewrite (shr_small t 8) by lia.
  assert (H8 : 0 <= t / 2 ^ 8 < 2 ^ 23)
    by (split; [apply Z.div_pos; lia | apply Z.div_lt_upper_bound; lia]).
  rewrite (shr_small t 0), Z.pow_0_r, Z.div_1_r by lia.
  rewrite !band_255 by lia.
  intros Heq. injection Heq as E1 E2 _ _ _.
  change (Z.pow_pos 2 8) with 256 in E1.
  change (Z.pow_pos 2 40) with 1099511627776 in E1.
  change (Z.pow_pos 2 32) with 4294967296 in E2.
  change (2 ^ 31) with 2147483648 in Ht.
  apply Hmod. clear Hmod H8.
  Z.to_euclidean_division_equations. lia.
Qed.

(** C7.  At the clock reading 1700000000000 (timestamp 1700000) the bytes
    [generateChecksum] enciphers are [F0 A0 00 19 F0 A0], not the
    big-endian encoding [00 00 00 19 F0 A0] of the timestamp, and the
    header it returns differs from the one the specification defines.  For
    a fixed clock reading the result is a function of [machineId]. *)
Theorem generateChecksum_not_big_endian :
  CursorExecutor.timestampBytes (1700000000000 / 1000000)
  = [240; 160; 0; 25; 240; 160]
  /\ Spec.bigEndian48 (1700000000000 / 1000000) = [0; 0; 0; 25; 240; 160]
  /\ CursorExecutor.generateChecksum 1700000000000 "machine-id"
     = "Vfb45Bi9machine-id"
  /\ Spec.checksum 1700000000000 "machine-id" = "paaotEjtmachine-id"
  /\ CursorExecutor.generateChecksum 1700000000000 "machine-id"
     <> Spec.checksum 1700000000000 "machine-id".
Proof.
  repeat split; try (vm_compute; reflexivity).
  vm_compute. discriminate.
Qed.

(** ** Tool-call reassembly in the executor *)

Lemma chunksOf_app (id : string) (l1 l2 : list ToolCall) :
  chunksOf id (l1 ++ l2) = String.append (chunksOf id l1) (chunksOf id l2).
Proof.
  induction l1 as [|tc l1 IH]; cbn; [reflexivity|].
  destruct (String.eqb (tc_id tc) id); [|exact IH].
  rewrite IH. clear IH.
  generalize (tc_arguments tc) as a. intros a.
  induction a as [|c a IHa]; cbn; [reflexivity | now rewrite IHa].
Qed.

Lemma append_empty_r (s : string) : String.append s "" = s.
Proof. induction s as [|c s IH]; cbn; [reflexivity | now rewrite IH]. Qed.

Lemma mapGet_app_new (id k : string) (tc : ToolCall)
    (m : list (string * ToolCall)) :
  CursorExecutor.mapGet id (m ++ [(k, tc)])
  = match CursorExecutor.mapGet id m with
    | Some e => Some e
    | None => if String.eqb k id then Some tc else None
    end.
Proof.
  unfold CursorExecutor.mapGet.
  induction m as [|[k' e'] m IH]; cbn.
  - now destruct (String.eqb k id).
  - destruct (String.eqb k' id); [reflexivity | exact IH].
Qed.

Lemma mapGet_mapAppend (id k chunk : string) (isLast : bool)
    (m : list (string * ToolCall)) :
  CursorExecutor.mapGet id (CursorExecutor.mapAppend k chunk isLast m)
  = match CursorExecutor.mapGet id m with
    | Some e =>
        if String.eqb k id then
          Some {| tc_id := tc_id e; tc_type := tc_type e;
                  tc_name := tc_name e;
                  tc_arguments := String.append (tc_arguments e) chunk;
                  tc_isLast := isLast |}
        else Some e
    | None => None
    end.
Proof.
  unfold CursorExecutor.mapGet.
  induction m as [|[k' e'] m IH]; cbn; [reflexivity|].
  destruct (String.eqb_spec k' k) as [-> | Hk]; cbn.
  - destruct (String.eqb_spec k id) as [-> | Hid]; cbn; [reflexivity|].
    now destruct (find _ m).
  - destruct (String.eqb_spec k' id) as [-> | Hid]; cbn.
    + destruct (String.eqb_spec k id) as [-> | Hkid];
        [congruence | reflexivity].
    + exact IH.
Qed.

Lemma reassemble_snoc (events : list ToolCall) (tc : ToolCall) :
  reassemble (events ++ [tc])
  = CursorExecutor.onToolCall tc (reassemble events).
Proof. unfold reassemble. now rewrite fold_left_app. Qed.


(** The entry kept for an id holds the chunks received for it so far. *)
Lemma reassemble_entry (events : list ToolCall) (id : string) :
  match CursorExecutor.mapGet id
          (CursorExecutor.toolCallsMap (reassemble events)) with
  | Some e =>
      tc_id e = id /\ tc_arguments e = chunksOf id events
      /\ exists tc, In tc events /\ tc_id tc = id
  | None => forall tc, In tc events -> tc_id tc <> id
  end.
Proof.
  induction events as [|tc events IH] using rev_ind.
  - cbn. intros tc [].
  - rewrite reassemble_snoc. set (acc := reassemble events) in *.
    unfold CursorExecutor.onToolCall. cbn [CursorExecutor.toolCallsMap].
    rewrite chunksOf_app. cbn [chunksOf].
    destruct (CursorExecutor.mapGet (tc_id tc)
                (CursorExecutor.toolCallsMap acc)) as [e0|] eqn:Hown.
    + rewrite mapGet_mapAppend.
      destruct (CursorExecutor.mapGet id (CursorExecutor.toolCallsMap acc))
        as [e|] eqn:Hid.
      * destruct IH as (He & Hargs & tc' & Hin & Htc').
        destruct (String.eqb (tc_id tc) id); cbn.
        -- rewrite append_empty_r, Hargs. repeat split; auto.
           exists tc'. split; [apply in_or_app; now left | exact Htc'].
        -- rewrite append_empty_r. repeat split; auto.
           exists tc'. split; [apply in_or_app; now left | exact Htc'].
      * intros tc' Hin. apply in_app_or in Hin as [Hin | [<- | []]].
        -- now apply IH.
        -- intros Heq. rewrite Heq, Hid in Hown. discriminate.
    + rewrite mapGet_app_new.
      destruct (CursorExecutor.mapGet id (CursorExecutor.toolCallsMap acc))
        as [e|] eqn:Hid.
      * destruct IH as (He & Hargs & tc' & Hin & Htc').
        destruct (String.eqb_spec (tc_id tc) id) as [Heq | Hne].
        -- rewrite Heq, Hid in Hown. discriminate.
        -- rewrite append_empty_r. repeat split; auto.
           exists tc'. split; [apply in_or_app; now left | exact Htc'].
      * destruct (String.eqb_spec (tc_id tc) id) as [Heq | Hne].
        -- split; [exact Heq|]. split.
           ++ assert (Hnone : chunksOf id events = "").
              { clear - IH. induction events as [|t l IHl]; [reflexivity|].
                cbn. destruct (String.eqb_spec (tc_id t) id) as [E|E].
                - exfalso. apply (IH t); [now left | exact E].
                - apply IHl. intros t' Ht'. apply IH. now right. }
              now rewrite Hnone, append_empty_r.
           ++ exists tc. split; [apply in_or_app; right; now left | exact Heq].
        -- intros tc' Hin. apply in_app_or in Hin as [Hin | [<- | []]].
           ++ now apply IH.
           ++ exact Hne.
Qed.

Lemma onToolCall_finals (tc : ToolCall) (acc : CursorExecutor.Acc) :
  CursorExecutor.toolCalls (CursorExecutor.onToolCall tc acc)
  = if tc_isLast tc then
      match CursorExecutor.mapGet (tc_id tc)
              (CursorExecutor.toolCallsMap
                 (CursorExecutor.onToolCall tc acc)) with
      | Some e => CursorExecutor.toolCalls acc ++ [CursorExecutor.finalOf e]
      | None => CursorExecutor.toolCalls acc
      end
    else CursorExecutor.toolCalls acc.
Proof. reflexivity. Qed.

Lemma onToolCall_keeps (tc : ToolCall) (acc : CursorExecutor.Acc)
    (f : FinalToolCall) :
  In f (CursorExecutor.toolCalls acc) ->
  In f (CursorExecutor.toolCalls (CursorExecutor.onToolCall tc acc)).
Proof.
  intros Hin. rewrite onToolCall_finals.
  destruct (tc_isLast tc); [|exact Hin].
  destruct (CursorExecutor.mapGet _ _); [|exact Hin].
  apply in_or_app. now left.
Qed.

Lemma reassemble_keeps (events more : list ToolCall) (f : FinalToolCall) :
  In f (CursorExecutor.toolCalls (reassemble events)) ->
  In f (CursorExecutor.toolCalls (reassemble (events ++ more))).
Proof.
  induction more as [|tc more IH] using rev_ind; intros Hin.
  - now rewrite app_nil_r.
  - rewrite app_assoc, reassemble_snoc.
    apply onToolCall_keeps. now apply IH.
Qed.

Lemma finaliseRemaining_keeps (m : list (string * ToolCall)) :
  forall (finals : list FinalToolCall) (f : FinalToolCall),
    In f finals -> In f (CursorExecutor.finaliseRemaining m finals).
Proof.
  induction m as [|[k e] m IH]; intros finals f Hin; cbn; [exact Hin|].
  destruct (existsb _ finals); apply IH; [exact Hin|].
  apply in_or_app. now left.
Qed.

(** An event flagged last puts the entry of its id, as it stands, into the
    array. *)
Lemma last_chunk_finalises (pre : list ToolCall) (tc : ToolCall) :
  tc_isLast tc = true ->
  exists f : FinalToolCall,
    In f (CursorExecutor.toolCalls (reassemble (pre ++ [tc])))
    /\ ft_id f = tc_id tc
    /\ ft_arguments f = chunksOf (tc_id tc) (pre ++ [tc]).
Proof.
  intros Hlast.
  pose proof (reassemble_entry (pre ++ [tc]) (tc_id tc)) as Hentry.
  rewrite reassemble_snoc in *. rewrite onToolCall_finals, Hlast.
  destruct (CursorExecutor.mapGet (tc_id tc) _) as [e|].
  - destruct Hentry as (Hid & Hargs & _).
    exists (CursorExecutor.finalOf e). split.
    + apply in_or_app. right. now left.
    + split; [exact Hid | exact Hargs].
  - exfalso. apply (Hentry tc); [apply in_or_app; right; now left|].
    reflexivity.
Qed.

(** Every entry of the array made before the end comes from an event
    flagged last. *)
Lemma finals_come_from_last (events : list ToolCall) (f : FinalToolCall) :
  In f (CursorExecutor.toolCalls (reassemble events)) ->
  exists tc, In tc events /\ tc_isLast tc = true /\ tc_id tc = ft_id f.
Proof.
  induction events as [|tc events IH] using rev_ind; [intros []|].
  pose proof (reassemble_entry (events ++ [tc]) (tc_id tc)) as Hentry.
  rewrite reassemble_snoc in *. rewrite onToolCall_finals.
  assert (Hold : In f (CursorExecutor.toolCalls (reassemble events)) ->
            exists tc0, In tc0 (events ++ [tc]) /\ tc_isLast tc0 = true
                        /\ tc_id tc0 = ft_id f).
  { intros Hin. destruct (IH Hin) as (tc0 & H0 & H1 & H2).
    exists tc0. split; [apply in_or_app; now left | auto]. }
  destruct (tc_isLast tc) eqn:Hlast; [|exact Hold].
  destruct (CursorExecutor.mapGet (tc_id tc) _) as [e|]; [|exact Hold].
  intros Hin. apply in_app_or in Hin as [Hin | [<- | []]]; [now apply Hold|].
  exists tc. split; [apply in_or_app; right; now left|].
  split; [exact Hlast|]. destruct Hentry as (Hid & _). now rewrite <- Hid.
Qed.

Lemma reassemble_keys (events : list ToolCall) :
  forall k e, In (k, e) (CursorExecutor.toolCallsMap (reassemble events)) ->
              tc_id e = k.
Proof.
  induction events as [|tc events IH] using rev_ind; [intros k e []|].
  rewrite reassemble_snoc.
  unfold CursorExecutor.onToolCall. cbn [CursorExecutor.toolCallsMap].
  assert (Happ : forall m : list (string * ToolCall),
             (forall k e, In (k, e) m -> tc_id e = k) ->
             forall k e,
               In (k, e) (CursorExecutor.mapAppend (tc_id tc)
                            (tc_arguments tc) (tc_isLast tc) m) ->
               tc_id e = k).
  { induction m as [|[k' e'] m IHm]; intros Hm k e; cbn; [intros []|].
    destruct (String.eqb k' (tc_id tc)).
    - intros [[= <- <-] | Hin]; cbn; apply Hm; [now left | now right].
    - intros [[= <- <-] | Hin]; [apply Hm; now left|].
      apply IHm; [|exact Hin]. intros k0 e0 H0. apply Hm. now right. }
  destruct (CursorExecutor.mapGet (tc_id tc) _).
  - now apply Happ.
  - intros k e Hin. apply in_app_or in Hin as [Hin | [[= <- <-] | []]];
      [now apply IH | reflexivity].
Qed.

(** The closing loop adds the entry of every id that is not in the array
    yet. *)
Lemma finaliseRemaining_adds (m : list (string * ToolCall)) :
  forall (finals : list FinalToolCall) (id : string) (e : ToolCall),
    (forall k e', In (k, e') m -> tc_id e' = k) ->
    CursorExecutor.mapGet id m = Some e ->
    (forall f, In f finals -> ft_id f <> id) ->
    In (CursorExecutor.finalOf e) (CursorExecutor.finaliseRemaining m finals).
Proof.
  induction m as [|[k e0] m IH]; intros finals id e Hkeys Hget Hnone;
    [discriminate|].
  unfold CursorExecutor.mapGet in Hget. cbn in Hget. cbn.
  destruct (String.eqb_spec k id) as [-> | Hne].
  - injection Hget as <-.
    assert (Hex : existsb (fun t => String.eqb (ft_id t) id) finals = false).
    { apply not_true_is_false. intros Hex. apply existsb_exists in Hex
        as (f & Hin & Hf). apply String.eqb_eq in Hf.
      now apply (Hnone f Hin). }
    rewrite Hex. apply finaliseRemaining_keeps.
    apply in_or_app. right. now left.
  - assert (Hk0 : tc_id e0 = k) by (apply Hkeys; now left).
    assert (Hkeys' : forall k' e', In (k', e') m -> tc_id e' = k')
      by (intros k' e' H'; apply Hkeys; now right).
    destruct (existsb _ finals); apply (IH _ id); auto.
    intros f Hin. apply in_app_or in Hin as [Hin | [<- | []]];
      [now apply Hnone|].
    cbn. congruence.
Qed.

Lemma chunksOf_absent (id : string) (l : list ToolCall) :
  (forall tc, In tc l -> tc_id tc <> id) -> chunksOf id l = "".
Proof.
  induction l as [|t l IH]; intros H; [reflexivity|]. cbn.
  destruct (String.eqb_spec (tc_id t) id) as [E | E].
  - exfalso. apply (H t); [now left | exact E].
  - apply IH. intros t' Ht'. apply H. now right.
Qed.

(** The reassembly block of the executor, given tool-call events: every id
    gets an entry whose arguments are its chunks joined in arrival
    order. *)
Lemma reassembly_concatenates (events : list ToolCall) (id : string) :
  lastFlagEndsId events ->
  (exists tc, In tc events /\ tc_id tc = id) ->
  exists f : FinalToolCall,
    In f (finalised events) /\ ft_id f = id
    /\ ft_arguments f = chunksOf id events.
Proof.
  intros Hwf (tc0 & Hin0 & Hid0).
  destruct (existsb (fun tc => String.eqb (tc_id tc) id && tc_isLast tc)
              events) eqn:Hex.
  - apply existsb_exists in Hex as (tc & Hin & Htc).
    apply andb_true_iff in Htc as [Hid Hlast]. apply String.eqb_eq in Hid.
    apply in_split in Hin as (pre & post & ->).
    destruct (last_chunk_finalises pre tc Hlast) as (f & Hf & Hfid & Hargs).
    exists f. split; [|split].
    + unfold finalised. apply finaliseRemaining_keeps.
      replace (pre ++ tc :: post) with ((pre ++ [tc]) ++ post)
        by (now rewrite <- app_assoc).
      now apply reassemble_keeps.
    + congruence.
    + rewrite Hargs, Hid.
      replace (pre ++ tc :: post) with ((pre ++ [tc]) ++ post)
        by (now rewrite <- app_assoc).
      rewrite (chunksOf_app id (pre ++ [tc]) post).
      rewrite (chunksOf_absent id post), append_empty_r; [reflexivity|].
      intros tc' Hin'. rewrite <- Hid. now apply (Hwf pre tc post).
  - pose proof (reassemble_entry events id) as Hentry.
    destruct (CursorExecutor.mapGet id _) as [e|] eqn:Hget.
    + destruct Hentry as (He & Hargs & _).
      exists (CursorExecutor.finalOf e). split; [|split; [exact He | exact Hargs]].
      unfold finalised.
      apply (finaliseRemaining_adds _ _ id e (reassemble_keys events) Hget).
      intros f Hf Hfid.
      destruct (finals_come_from_last events f Hf) as (tc & Hin & Hlast & Htc).
      assert (Hcontra : existsb (fun tc => String.eqb (tc_id tc) id
                                           && tc_isLast tc) events = true).
      { apply existsb_exists. exists tc. split; [exact Hin|].
        rewrite Hlast, andb_true_r. apply String.eqb_eq. congruence. }
      congruence.
    + exfalso. now apply (Hentry tc0 Hin0).
Qed.

(** ** Cursor response decoding *)

Section DecodeFacts.

Variable gunzipSync : Bytes -> option Bytes.
Variable J : Type.
Variable jsonParse : string -> option J.

(** C5.  On the response of scenario S5 (text "hello", two chunks of tool
    call T, text " world") the decoder returns no tool-call event for the
    frames that carry field 1, so the executor assembles the content
    "hello world" with an empty [tool_calls] and [finish_reason] "stop",
    where the finalised call T with the concatenated arguments is
    expected.  The reassembly block itself, were it handed the two events,
    would produce that call. *)
Theorem tool_call_frames_are_dropped :
  CursorDecode.extractTextFromResponse 64
    (toolCallMessage "T" "f" chunkOne false)
  = Some {| text := None; error := None |}
  /\ CursorExecutor.toolCallOf {| text := None; error := None |} = None
  /\ CursorExecutor.transformProtobufToJSON gunzipSync J jsonParse 64
       scenarioBuffer
     = Some (CursorExecutor.CompletionResponse J (Some "hello world") []
               "stop")
  /\ finalised scenarioEvents
     = [ {| ft_id := "T"; ft_type := "function"; ft_name := "f";
            ft_arguments := String.append chunkOne chunkTwo |} ].
Proof.
  repeat split; vm_compute; reflexivity.
Qed.

End DecodeFacts.

(** ** Cursor request framing *)

Lemma bor_disjoint (hi lo k : Z) :
  0 <= k -> 0 <= hi -> 0 <= lo < 2 ^ k -> hi * 2 ^ k + lo < 2 ^ 31 ->
  JS.bor (hi * 2 ^ k) lo = hi * 2 ^ k + lo.
Proof.
  intros Hk Hhi Hlo Hb. unfold JS.bor.
  assert (0 <= hi * 2 ^ k)
    by (apply Z.mul_nonneg_nonneg; [lia | apply Z.pow_nonneg; lia]).
  rewrite !toInt32_small by lia. now apply lor_disjoint.
Qed.

Lemma length_bytes_round_trip (n : Z) :
  0 <= n < 2 ^ 31 ->
  JS.bor
    (JS.bor
       (JS.bor (JS.shl (JS.band (JS.shr n 24) 0xFF) 24)
               (JS.shl (JS.band (JS.shr n 16) 0xFF) 16))
       (JS.shl (JS.band (JS.shr n 8) 0xFF) 8))
    (JS.band n 0xFF)
  = n.
Proof.
  intros Hn.
  rewrite !shr_small by lia.
  assert (H24 : 0 <= n / 2 ^ 24 < 128)
    by (split; [apply Z.div_pos; lia | apply Z.div_lt_upper_bound; lia]).
  assert (H16 : 0 <= n / 2 ^ 16 < 2 ^ 15)
    by (split; [apply Z.div_pos; lia | apply Z.div_lt_upper_bound; lia]).
  assert (H8 : 0 <= n / 2 ^ 8 < 2 ^ 23)
    by (split; [apply Z.div_pos; lia | apply Z.div_lt_upper_bound; lia]).
  rewrite !band_255 by lia.
  set (b3 := (n / 2 ^ 24) mod 256).
  set (b2 := (n / 2 ^ 16) mod 256).
  set (b1 := (n / 2 ^ 8) mod 256).
  set (b0 := n mod 256).
  assert (Hb3 : 0 <= b3 < 128) by (subst b3; rewrite Z.mod_small; lia).
  assert (Hb2 : 0 <= b2 < 256) by (subst b2; apply Z.mod_pos_bound; lia).
  assert (Hb1 : 0 <= b1 < 256) by (subst b1; apply Z.mod_pos_bound; lia).
  assert (Hb0 : 0 <= b0 < 256) by (subst b0; apply Z.mod_pos_bound; lia).
  rewrite !shl_small by lia.
  rewrite (bor_disjoint b3 (b2 * 2 ^ 16) 24) by lia.
  replace (b3 * 2 ^ 24 + b2 * 2 ^ 16) with ((b3 * 2 ^ 8 + b2) * 2 ^ 16) by lia.
  rewrite bor_disjoint by lia.
  replace ((b3 * 2 ^ 8 + b2) * 2 ^ 16 + b1 * 2 ^ 8)
    with (((b3 * 2 ^ 8 + b2) * 2 ^ 8 + b1) * 2 ^ 8) by lia.
  rewrite bor_disjoint by lia.
  subst b3 b2 b1 b0.
  Z.to_euclidean_division_equations. lia.
Qed.

Lemma length_bytes_in_range (n : Z) :
  0 <= n < 2 ^ 31 ->
  JS.band (JS.shr n 24) 0xFF = (n / 2 ^ 24) mod 256
  /\ JS.band (JS.shr n 16) 0xFF = (n / 2 ^ 16) mod 256
  /\ JS.band (JS.shr n 8) 0xFF = (n / 2 ^ 8) mod 256
  /\ JS.band n 0xFF = n mod 256.
Proof.
  intros Hn.
  assert (H24 : 0 <= n / 2 ^ 24 < 128)
    by (split; [apply Z.div_pos; lia | apply Z.div_lt_upper_bound; lia]).
  assert (H16 : 0 <= n / 2 ^ 16 < 2 ^ 15)
    by (split; [apply Z.div_pos; lia | apply Z.div_lt_upper_bound; lia]).
  assert (H8 : 0 <= n / 2 ^ 8 < 2 ^ 23)
    by (split; [apply Z.div_pos; lia | apply Z.div_lt_upper_bound; lia]).
  rewrite !shr_small by lia. rewrite !band_255 by lia. auto.
Qed.

Section FramingFacts.

Variable gzipSync : Bytes -> Bytes.
Variable gunzipSync : Bytes -> option Bytes.
Hypothesis gunzip_gzip : forall b, gunzipSync (gzipSync b) = Some b.

Lemma slice_after_header (header body : Bytes) :
  List.length header = 5%nat ->
  Buf.slice (header ++ body) 5 (5 + Buf.len body) = body.
Proof.
  intros Hh. unfold Buf.slice, Buf.clamp, Buf.len.
  rewrite length_app, Hh.
  assert (Hlen : 0 <= Z.of_nat (List.length body)) by lia.
  destruct (Z.ltb_spec 5 0); [lia|].
  destruct (Z.ltb_spec (5 + Z.of_nat (List.length body)) 0); [lia|].
  rewrite (Z.min_l 5) by lia. rewrite Z.min_l by lia.
  replace (5 + Z.of_nat (List.length body) - 5)
    with (Z.of_nat (List.length body)) by lia.
  rewrite Nat2Z.id. change (Z.to_nat 5) with 5%nat.
  rewrite <- Hh at 1. rewrite skipn_app, skipn_all, Nat.sub_diag.
  cbn [skipn app]. apply firstn_all.
Qed.

(** Wrapping a payload and parsing the frame gives the payload back. *)
Lemma wrap_parse (payload : Bytes) (compress : bool) :
  let finalPayload := if compress then gzipSync payload else payload in
  Buf.len finalPayload < 2 ^ 31 ->
  CursorProtobuf.parseConnectRPCFrame gunzipSync
    (CursorProtobuf.wrapConnectRPCFrame gzipSync payload compress)
  = Some {| CursorProtobuf.flags := if compress then 1 else 0;
            CursorProtobuf.length := Buf.len finalPayload;
            CursorProtobuf.payload := payload;
            CursorProtobuf.consumed := 5 + Buf.len finalPayload |}.
Proof.
  intros finalPayload Hsize.
  assert (Hpos : 0 <= Buf.len finalPayload) by (unfold Buf.len; lia).
  unfold CursorProtobuf.wrapConnectRPCFrame. fold finalPayload.
  set (L := Buf.len finalPayload) in *.
  set (header := [ if compress then 1 else 0;
                   JS.band (JS.shr L 24) 255; JS.band (JS.shr L 16) 255;
                   JS.band (JS.shr L 8) 255; JS.band L 255 ]).
  change ([ if compress then 1 else 0;
            JS.band (JS.shr L 24) 255; JS.band (JS.shr L 16) 255;
            JS.band (JS.shr L 8) 255; JS.band L 255 ] ++ finalPayload)
    with (header ++ finalPayload).
  unfold CursorProtobuf.parseConnectRPCFrame.
  assert (Hlen : Buf.len (header ++ finalPayload) = 5 + L).
  { unfold Buf.len, L, Buf.len. rewrite length_app. cbn [List.length header].
    lia. }
  rewrite Hlen.
  destruct (Z.ltb_spec (5 + L) 5); [lia|].
  change (Buf.get (header ++ finalPayload) 0)
    with (if compress then 1 else 0).
  change (Buf.get (header ++ finalPayload) 1) with (JS.band (JS.shr L 24) 255).
  change (Buf.get (header ++ finalPayload) 2) with (JS.band (JS.shr L 16) 255).
  change (Buf.get (header ++ finalPayload) 3) with (JS.band (JS.shr L 8) 255).
  change (Buf.get (header ++ finalPayload) 4) with (JS.band L 255).
  rewrite (length_bytes_round_trip L) by lia.
  destruct (Z.ltb_spec (5 + L) (5 + L)); [lia|].
  subst L. rewrite (slice_after_header header finalPayload eq_refl).
  subst finalPayload.
  destruct compress; cbn [Z.eqb Pos.eqb].
  - now rewrite gunzip_gzip.
  - reflexivity.
Qed.

End FramingFacts.

(** C6.  For every message list and model name (and a payload shorter than
    2^31 bytes, the range of the 32-bit length arithmetic),
    [generateCursorBody] returns one frame: a flags byte that is 0x01 when
    the list has at least 3 messages and 0x00 otherwise, the payload length
    in four bytes big-endian, and the payload, which is the gzip of the
    bytes of [buildChatRequest] in the first case and those bytes
    themselves in the second.  [parseConnectRPCFrame] applied to that frame
    gives back the flags, the length and the bytes of [buildChatRequest],
    and consumes the whole frame. *)
Theorem cursor_frame_round_trip :
  forall (gzipSync : Bytes -> Bytes) (gunzipSync : Bytes -> option Bytes)
         (env : Env) (messages : list Message) (modelName : string),
    (forall b, gunzipSync (gzipSync b) = Some b) ->
    let protobuf := CursorProtobuf.buildChatRequest env messages modelName in
    let compressed := (3 <=? List.length messages)%nat in
    let finalPayload := if compressed then gzipSync protobuf else protobuf in
    let body :=
      CursorProtobuf.generateCursorBody gzipSync env messages modelName in
    Buf.len finalPayload < 2 ^ 31 ->
    body
    = [ if compressed then 1 else 0;
        (Buf.len finalPayload / 2 ^ 24) mod 256;
        (Buf.len finalPayload / 2 ^ 16) mod 256;
        (Buf.len finalPayload / 2 ^ 8) mod 256;
        Buf.len finalPayload mod 256 ] ++ finalPayload
    /\ CursorProtobuf.parseConnectRPCFrame gunzipSync body
       = Some {| CursorProtobuf.flags := if compressed then 1 else 0;
                 CursorProtobuf.length := Buf.len finalPayload;
                 CursorProtobuf.payload := protobuf;
                 CursorProtobuf.consumed := Buf.len body |}.
Proof.
  intros gzipSync gunzipSync env messages modelName Hzlib
         protobuf compressed finalPayload body Hsize.
  assert (Hc : (3 <=? Z.of_nat (List.length messages)) = compressed).
  { subst compressed.
    destruct (Z.leb_spec 3 (Z.of_nat (List.length messages)));
      destruct (Nat.leb_spec 3 (List.length messages)); lia || reflexivity. }
  assert (Hpos : 0 <= Buf.len finalPayload) by (unfold Buf.len; lia).
  assert (Hbody : body
                  = CursorProtobuf.wrapConnectRPCFrame gzipSync protobuf
                      compressed).
  { subst body. unfold CursorProtobuf.generateCursorBody.
    fold protobuf. now rewrite Hc. }
  destruct (length_bytes_in_range (Buf.len finalPayload)
              ltac:(lia)) as (E3 & E2 & E1 & E0).
  assert (Hshape : body
                   = [ if compressed then 1 else 0;
                       (Buf.len finalPayload / 2 ^ 24) mod 256;
                       (Buf.len finalPayload / 2 ^ 16) mod 256;
                       (Buf.len finalPayload / 2 ^ 8) mod 256;
                       Buf.len finalPayload mod 256 ] ++ finalPayload).
  { rewrite Hbody. unfold CursorProtobuf.wrapConnectRPCFrame.
    fold finalPayload. rewrite E3, E2, E1, E0.
    now destruct compressed. }
  split; [exact Hshape|].
  assert (Hlen : Buf.len body = 5 + Buf.len finalPayload).
  { rewrite Hshape. unfold Buf.len. rewrite length_app.
    cbn [List.length]. lia. }
  rewrite Hlen, Hbody.
  now apply wrap_parse.
Qed.

(** The round trip of C6 on two messages (raw frame) and on four messages
    (compressed frame). *)
Lemma cursor_frame_round_trip_witness :
  CursorProtobuf.parseConnectRPCFrame toyGunzip
    (CursorProtobuf.generateCursorBody toyGzip sampleEnv twoMessages
                                       "gpt-4o")
  = Some {| CursorProtobuf.flags := 0;
            CursorProtobuf.length :=
              Buf.len (CursorProtobuf.buildChatRequest sampleEnv twoMessages
                                                       "gpt-4o");
            CursorProtobuf.payload :=
              CursorProtobuf.buildChatRequest sampleEnv twoMessages "gpt-4o";
            CursorProtobuf.consumed :=
              Buf.len (CursorProtobuf.generateCursorBody toyGzip sampleEnv
                         twoMessages "gpt-4o") |}
  /\ CursorProtobuf.parseConnectRPCFrame toyGunzip
       (CursorProtobuf.generateCursorBody toyGzip sampleEnv fourMessages
                                          "gpt-4o")
     = Some {| CursorProtobuf.flags := 1;
               CursorProtobuf.length :=
                 Buf.len (toyGzip (CursorProtobuf.buildChatRequest sampleEnv
                                     fourMessages "gpt-4o"));
               CursorProtobuf.payload :=
                 CursorProtobuf.buildChatRequest sampleEnv fourMessages
                                                 "gpt-4o";
               CursorProtobuf.consumed :=
                 Buf.len (CursorProtobuf.generateCursorBody toyGzip sampleEnv
                            fourMessages "gpt-4o") |}.
Proof.
  split.
  - refine (proj2 (cursor_frame_round_trip toyGzip toyGunzip sampleEnv
                     twoMessages "gpt-4o" (fun b => eq_refl) _)).
    vm_compute. reflexivity.
  - refine (proj2 (cursor_frame_round_trip toyGzip toyGunzip sampleEnv
                     fourMessages "gpt-4o" (fun b => eq_refl) _)).
    vm_compute. reflexivity.
Defined.

(** ** Varint encoding *)

Lemma ushr7_bound (v b : Z) :
  7 <= b <= 32 -> 0 <= v < 2 ^ b -> 0 <= JS.ushr v 7 < 2 ^ (b - 7).
Proof.
  intros Hb Hv. unfold JS.ushr, JS.toUint32.
  assert (Hpow : 2 ^ b <= 2 ^ 32) by (apply Z.pow_le_mono_r; lia).
  rewrite Z.mod_small by lia.
  change (7 mod 32) with 7. rewrite Z.shiftr_div_pow2 by lia.
  replace (2 ^ b) with (2 ^ 7 * 2 ^ (b - 7)) in Hv
    by (rewrite <- Z.pow_add_r by lia; f_equal; lia).
  split; [apply Z.div_pos; lia | apply Z.div_lt_upper_bound; lia].
Qed.

Lemma ushr7_first (v : Z) : 0 <= JS.ushr v 7 < 2 ^ 25.
Proof.
  unfold JS.ushr. change (7 mod 32) with 7.
  rewrite Z.shiftr_div_pow2 by lia.
  pose proof (Z.mod_pos_bound v (2 ^ 32) ltac:(lia)) as Hm.
  unfold JS.toUint32.
  split; [apply Z.div_pos; lia | apply Z.div_lt_upper_bound; lia].
Qed.

(** The loop of [encodeVarint] ends within five turns whatever the value:
    more fuel changes nothing. *)
Lemma encodeVarint_fuel (k : nat) (v : Z) :
  CursorProtobuf.encodeVarintLoop (5 + k) v = CursorProtobuf.encodeVarint v.
Proof.
  unfold CursorProtobuf.encodeVarint.
  change (5 + k)%nat with (S (S (S (S (S k))))).
  pose proof (ushr7_first v) as H1.
  pose proof (ushr7_bound (JS.ushr v 7) 25 ltac:(lia) H1) as H2.
  pose proof (ushr7_bound _ 18 ltac:(lia) H2) as H3.
  pose proof (ushr7_bound _ 11 ltac:(lia) H3) as H4.
  cbn [CursorProtobuf.encodeVarintLoop].
  destruct (128 <=? v); [|reflexivity]. f_equal.
  destruct (128 <=? JS.ushr v 7); [|reflexivity]. f_equal.
  destruct (128 <=? JS.ushr (JS.ushr v 7) 7); [|reflexivity]. f_equal.
  destruct (128 <=? JS.ushr (JS.ushr (JS.ushr v 7) 7) 7); [|reflexivity].
  f_equal.
  destruct (Z.leb_spec 128 (JS.ushr (JS.ushr (JS.ushr (JS.ushr v 7) 7) 7) 7));
    [|reflexivity].
  change (2 ^ (11 - 7)) with 16 in H4. lia.
Qed.

(** ** Varint round trip *)

Lemma toInt32_mod (v : Z) : JS.toInt32 v mod 2 ^ 32 = v mod 2 ^ 32.
Proof.
  unfold JS.toInt32, JS.toUint32.
  pose proof (Z.mod_pos_bound v (2 ^ 32) ltac:(lia)).
  destruct (v mod 2 ^ 32 <? 2 ^ 31).
  - apply Z.mod_small. lia.
  - replace (v mod 2 ^ 32 - 2 ^ 32) with (v mod 2 ^ 32 + (-1) * 2 ^ 32) by lia.
    rewrite Z.mod_add by lia. apply Z.mod_small. lia.
Qed.

Lemma toInt32_range (v : Z) : - 2 ^ 31 <= JS.toInt32 v < 2 ^ 31.
Proof.
  unfold JS.toInt32, JS.toUint32.
  pose proof (Z.mod_pos_bound v (2 ^ 32) ltac:(lia)).
  destruct (Z.ltb_spec (v mod 2 ^ 32) (2 ^ 31)); lia.
Qed.

Lemma toInt32_mod_pow2 (v k : Z) :
  0 <= k <= 32 -> JS.toInt32 v mod 2 ^ k = v mod 2 ^ k.
Proof.
  intros Hk.
  assert (E : 2 ^ 32 = 2 ^ k * 2 ^ (32 - k))
    by (rewrite <- Z.pow_add_r by lia; f_equal; lia).
  assert (Hp : 0 < 2 ^ k) by (apply Z.pow_pos_nonneg; lia).
  assert (Hq : 0 < 2 ^ (32 - k)) by (apply Z.pow_pos_nonneg; lia).
  rewrite <- (Z.mod_mod_divide (JS.toInt32 v) (2 ^ 32) (2 ^ k)).
  2:{ exists (2 ^ (32 - k)). lia. }
  rewrite toInt32_mod.
  apply Z.mod_mod_divide. exists (2 ^ (32 - k)). lia.
Qed.

(** [v & 0x7F] keeps the low seven bits of any number. *)
Lemma band_127 (v : Z) : JS.band v 0x7F = v mod 128.
Proof.
  unfold JS.band. change (JS.toInt32 127) with (Z.ones 7).
  rewrite Z.land_ones by lia. apply (toInt32_mod_pow2 v 7). lia.
Qed.

Lemma ushr_7 (v : Z) : 0 <= v < 2 ^ 32 -> JS.ushr v 7 = v / 128.
Proof.
  intros H. unfold JS.ushr, JS.toUint32. rewrite Z.mod_small by lia.
  change (7 mod 32) with 7. now rewrite Z.shiftr_div_pow2 by lia.
Qed.

(** A fact checked on every byte holds of every byte. *)
Lemma byte_cases (P : Z -> bool) :
  forallb P (map Z.of_nat (seq 0 256)) = true ->
  forall b, 0 <= b < 256 -> P b = true.
Proof.
  intros H b Hb. rewrite forallb_forall in H. apply H.
  apply in_map_iff. exists (Z.to_nat b). split; [lia|].
  apply in_seq. lia.
Qed.

Lemma continuation_byte (x : Z) :
  0 <= x < 128 ->
  JS.bor x 0x80 = x + 128
  /\ JS.band (x + 128) 0x7F = x
  /\ JS.band (x + 128) 0x80 <> 0
  /\ JS.band x 0x80 = 0.
Proof.
  intros Hx.
  pose proof (byte_cases
    (fun b => (128 <=? b)
              || ((JS.bor b 0x80 =? b + 128)
                  && (JS.band (b + 128) 0x7F =? b)
                  && negb (JS.band (b + 128) 0x80 =? 0)
                  && (JS.band b 0x80 =? 0)))
    ltac:(vm_compute; reflexivity) x ltac:(lia)) as H.
  cbv beta in H.
  destruct (Z.leb_spec 128 x); [lia|]. cbn [orb] in H.
  repeat (apply andb_true_iff in H as [H ?]).
  repeat match goal with
         | H : (_ =? _) = true |- _ => apply Z.eqb_eq in H
         | H : negb (_ =? _) = true |- _ =>
             apply negb_true_iff, Z.eqb_neq in H
         end.
  auto.
Qed.

(** One turn of the decoding loop adds seven bits above the ones read. *)
Lemma decode_step (r x shift : Z) :
  0 <= shift < 32 -> 0 <= r < 2 ^ shift -> 0 <= x < 128 ->
  r + x * 2 ^ shift < 2 ^ 32 ->
  JS.bor r (JS.shl x shift) = JS.toInt32 (r + x * 2 ^ shift).
Proof.
  intros Hs Hr Hx Hb.
  assert (Hp : 0 < 2 ^ shift) by (apply Z.pow_pos_nonneg; lia).
  assert (Hle : 2 ^ shift <= 2 ^ 31) by (apply Z.pow_le_mono_r; lia).
  unfold JS.bor, JS.shl.
  rewrite (toInt32_small x) by lia.
  rewrite Z.mod_small by lia. rewrite Z.shiftl_mul_pow2 by lia.
  rewrite (toInt32_small r) by lia.
  assert (Hidem : JS.toInt32 (JS.toInt32 (x * 2 ^ shift))
                  = JS.toInt32 (x * 2 ^ shift)).
  { pose proof (toInt32_range (x * 2 ^ shift)).
    unfold JS.toInt32 at 1. unfold JS.toUint32.
    rewrite toInt32_mod. reflexivity. }
  rewrite Hidem.
  assert (Hx0 : 0 <= x * 2 ^ shift) by nia.
  unfold JS.toInt32, JS.toUint32.
  rewrite (Z.mod_small (x * 2 ^ shift)) by lia.
  rewrite (Z.mod_small (r + x * 2 ^ shift)) by lia.
  assert (E32 : 2 ^ 32 = 2 ^ (32 - shift) * 2 ^ shift)
    by (rewrite <- Z.pow_add_r by lia; f_equal; lia).
  destruct (Z.ltb_spec (x * 2 ^ shift) (2 ^ 31));
    destruct (Z.ltb_spec (r + x * 2 ^ shift) (2 ^ 31)).
  - rewrite Z.lor_comm. rewrite lor_disjoint by lia. lia.
  - exfalso.
    assert (E31 : 2 ^ 31 = 2 ^ (31 - shift) * 2 ^ shift)
      by (rewrite <- Z.pow_add_r by lia; f_equal; lia).
    assert (x < 2 ^ (31 - shift)) by nia.
    nia.
  - lia.
  - rewrite Z.lor_comm.
    replace (x * 2 ^ shift - 2 ^ 32) with ((x - 2 ^ (32 - shift)) * 2 ^ shift)
      by lia.
    rewrite lor_disjoint by lia. lia.
Qed.

Lemma band_127_small (x : Z) : 0 <= x < 128 -> JS.band x 0x7F = x.
Proof. intros H. rewrite band_127. apply Z.mod_small. lia. Qed.

Lemma decodeVarintFrom_encode (fuel : nat) :
  forall v r shift pos rest,
    0 <= v < 2 ^ (7 * Z.of_nat (S fuel)) ->
    0 <= shift -> 0 <= r < 2 ^ shift ->
    (shift = 0 \/ 1 <= v) ->
    r + v * 2 ^ shift < 2 ^ 32 ->
    CursorDecode.decodeVarintFrom
      (CursorProtobuf.encodeVarintLoop fuel v ++ rest) r shift pos
    = (JS.toInt32 (r + v * 2 ^ shift),
       pos + Buf.len (CursorProtobuf.encodeVarintLoop fuel v)).
Proof.
  assert (Hlast : forall v r shift pos rest,
    0 <= v < 128 -> 0 <= shift -> 0 <= r < 2 ^ shift ->
    (shift = 0 \/ 1 <= v) -> r + v * 2 ^ shift < 2 ^ 32 ->
    CursorDecode.decodeVarintFrom ([JS.band v 0x7F] ++ rest) r shift pos
    = (JS.toInt32 (r + v * 2 ^ shift), pos + Buf.len [JS.band v 0x7F])).
  { intros v r shift pos rest Hv Hs Hr Hz Hb.
    assert (Hs32 : shift < 32).
    { destruct Hz as [-> | Hz]; [lia|].
      destruct (Z.lt_ge_cases shift 32) as [|Hge]; [assumption|].
      assert (2 ^ 32 <= 2 ^ shift) by (apply Z.pow_le_mono_r; lia). nia. }
    rewrite band_127_small by lia.
    cbn [app CursorDecode.decodeVarintFrom].
    destruct (continuation_byte v Hv) as (_ & _ & _ & E0).
    rewrite E0. cbn [Z.eqb].
    rewrite band_127_small by lia.
    rewrite decode_step by lia. reflexivity. }
  induction fuel as [|fuel IH]; intros v r shift pos rest Hv Hs Hr Hz Hb.
  - cbn [CursorProtobuf.encodeVarintLoop].
    apply Hlast; assumption.
  - cbn [CursorProtobuf.encodeVarintLoop].
    destruct (Z.leb_spec 128 v) as [Hbig | Hsmall].
    2:{ apply Hlast; try assumption. lia. }
    assert (Hp : 0 < 2 ^ shift) by (apply Z.pow_pos_nonneg; lia).
    assert (Hv32 : v < 2 ^ 32) by nia.
    assert (Hm : 0 <= v mod 128 < 128) by (apply Z.mod_pos_bound; lia).
    assert (Hs32 : shift + 7 < 32).
    { destruct (Z.lt_ge_cases (shift + 7) 32) as [|Hge]; [assumption|].
      assert (2 ^ 32 <= 2 ^ (shift + 7)) by (apply Z.pow_le_mono_r; lia).
      rewrite Z.pow_add_r in * by lia. nia. }
    rewrite band_127, ushr_7 by lia.
    destruct (continuation_byte (v mod 128) Hm) as (E1 & E2 & E3 & _).
    rewrite E1.
    cbn [app CursorDecode.decodeVarintFrom].
    rewrite E2. apply Z.eqb_neq in E3. rewrite E3.
    assert (Hsplit : v = 128 * (v / 128) + v mod 128)
      by (apply Z.div_mod; lia).
    assert (Hq : 1 <= v / 128) by (apply Z.div_le_lower_bound; lia).
    assert (Epow : 2 ^ (shift + 7) = 2 ^ shift * 128)
      by (rewrite Z.pow_add_r by lia; reflexivity).
    rewrite decode_step by (lia || nia).
    assert (Hr' : r + v mod 128 * 2 ^ shift < 2 ^ (shift + 7)) by nia.
    assert (Hle : 2 ^ (shift + 7) <= 2 ^ 31)
      by (apply Z.pow_le_mono_r; lia).
    rewrite toInt32_small by nia.
    assert (Hq' : v / 128 < 2 ^ (7 * Z.of_nat (S fuel))).
    { apply Z.div_lt_upper_bound; [lia|].
      replace (7 * Z.of_nat (S (S fuel)))
        with (7 + 7 * Z.of_nat (S fuel)) in Hv by lia.
      rewrite Z.pow_add_r in Hv by lia. change (2 ^ 7) with 128 in Hv. lia. }
    rewrite IH by (lia || nia).
    replace (r + v mod 128 * 2 ^ shift + v / 128 * 2 ^ (shift + 7))
      with (r + v * 2 ^ shift) by nia.
    f_equal. unfold Buf.len. cbn [List.length]. lia.
Qed.

Lemma skipn_app_exact (pre rest : Bytes) :
  skipn (Z.to_nat (Buf.len pre)) (pre ++ rest) = rest.
Proof.
  unfold Buf.len. rewrite Nat2Z.id.
  rewrite skipn_app, skipn_all, Nat.sub_diag. reflexivity.
Qed.

Lemma decodeVarint_encodeVarint (v : Z) (pre rest : Bytes) :
  0 <= v < 2 ^ 32 ->
  CursorDecode.decodeVarint
    (pre ++ CursorProtobuf.encodeVarint v ++ rest) (Buf.len pre)
  = (JS.toInt32 v,
     Buf.len pre + Buf.len (CursorProtobuf.encodeVarint v)).
Proof.
  intros Hv. unfold CursorDecode.decodeVarint.
  assert (0 <= Buf.len pre) by (unfold Buf.len; lia).
  destruct (Z.ltb_spec (Buf.len pre) 0); [lia|].
  rewrite skipn_app_exact.
  unfold CursorProtobuf.encodeVarint.
  rewrite decodeVarintFrom_encode by (cbn; lia).
  f_equal. f_equal. lia.
Qed.

(** ** Fields and messages *)

Lemma len_app (a b : Bytes) : Buf.len (a ++ b) = Buf.len a + Buf.len b.
Proof. unfold Buf.len. rewrite length_app. lia. Qed.

Lemma len_nonneg (a : Bytes) : 0 <= Buf.len a.
Proof. unfold Buf.len. lia. Qed.

Lemma encodeVarint_nonempty (v : Z) :
  1 <= Buf.len (CursorProtobuf.encodeVarint v).
Proof.
  unfold CursorProtobuf.encodeVarint, Buf.len.
  cbn [CursorProtobuf.encodeVarintLoop].
  destruct (128 <=? v); cbn [List.length]; lia.
Qed.

Lemma decodeVarint_at (buffer pre rest : Bytes) (v : Z) :
  buffer = pre ++ CursorProtobuf.encodeVarint v ++ rest ->
  0 <= v < 2 ^ 31 ->
  CursorDecode.decodeVarint buffer (Buf.len pre)
  = (v, Buf.len (pre ++ CursorProtobuf.encodeVarint v)).
Proof.
  intros -> Hv. rewrite decodeVarint_encodeVarint by lia.
  rewrite toInt32_small by lia. now rewrite len_app.
Qed.

Lemma slice_middle (pre b rest : Bytes) :
  Buf.slice (pre ++ b ++ rest) (Buf.len pre) (Buf.len pre + Buf.len b) = b.
Proof.
  unfold Buf.slice, Buf.clamp.
  rewrite !len_app.
  pose proof (len_nonneg pre). pose proof (len_nonneg b).
  pose proof (len_nonneg rest).
  destruct (Z.ltb_spec (Buf.len pre) 0); [lia|].
  destruct (Z.ltb_spec (Buf.len pre + Buf.len b) 0); [lia|].
  rewrite !Z.min_l by lia.
  rewrite skipn_app_exact.
  replace (Buf.len pre + Buf.len b - Buf.len pre) with (Buf.len b) by lia.
  unfold Buf.len. rewrite Nat2Z.id.
  rewrite firstn_app, firstn_all, Nat.sub_diag. cbn [firstn].
  apply app_nil_r.
Qed.

Lemma tag_parts (k wt : Z) :
  0 <= k < 2 ^ 28 -> 0 <= wt < 8 ->
  let tag := JS.bor (JS.shl k 3) wt in
  0 <= tag < 2 ^ 31 /\ JS.shr tag 3 = k /\ JS.band tag 0x07 = wt.
Proof.
  intros Hk Hw tag. subst tag.
  change (2 ^ 28) with 268435456 in Hk.
  rewrite shl_small by (change (2 ^ 3) with 8; change (2 ^ 31) with 2147483648; lia).
  rewrite bor_disjoint by (change (2 ^ 3) with 8; change (2 ^ 31) with 2147483648; lia).
  change (2 ^ 3) with 8. change (2 ^ 31) with 2147483648.
  split; [lia|]. split.
  - rewrite shr_small by lia. change (2 ^ 3) with 8.
    rewrite Z.div_add_l by lia. rewrite Z.div_small by lia. lia.
  - unfold JS.band. rewrite toInt32_small by lia.
    change (JS.toInt32 7) with (Z.ones 3). rewrite Z.land_ones by lia.
    change (2 ^ 3) with 8. rewrite Z.add_comm, Z.mod_add by lia.
    apply Z.mod_small. lia.
Qed.

Lemma encodeWire_nonempty (f : WireField) : 1 <= Buf.len (encodeWire f).
Proof.
  destruct f as [k n | k b]; cbn [encodeWire];
    unfold CursorProtobuf.encodeField; cbn [Z.eqb Pos.eqb];
    rewrite len_app;
    pose proof (encodeVarint_nonempty (JS.bor (JS.shl k 3) 0));
    pose proof (encodeVarint_nonempty (JS.bor (JS.shl k 3) 2));
    match goal with |- context [Buf.len ?x + Buf.len ?y] =>
      pose proof (len_nonneg y) end; lia.
Qed.

(** Decoding at the start of an encoded field gives the field back and
    stops at its end. *)
Lemma decodeField_encodeWire (f : WireField) (pre rest : Bytes) :
  wireInRange f ->
  CursorDecode.decodeField (pre ++ encodeWire f ++ rest) (Buf.len pre)
  = (Some (fst (decodedWire f)), fst (snd (decodedWire f)),
     snd (snd (decodedWire f)), Buf.len (pre ++ encodeWire f)).
Proof.
  intros Hf. unfold CursorDecode.decodeField.
  pose proof (encodeWire_nonempty f) as Hne.
  pose proof (len_nonneg rest).
  destruct (Z.leb_spec (Buf.len (pre ++ encodeWire f ++ rest)) (Buf.len pre))
    as [Hle|_].
  { rewrite !len_app in Hle. lia. }
  destruct f as [k n | k b]; cbn [wireInRange] in Hf; destruct Hf as [Hk Hv];
    cbn [encodeWire decodedWire fst snd] in *;
    unfold CursorProtobuf.encodeField in *; cbn [Z.eqb Pos.eqb] in *.
  - destruct (tag_parts k 0 Hk ltac:(lia)) as (Ht & Ef & Ew).
    set (tag := JS.bor (JS.shl k 3) 0) in *.
    rewrite (decodeVarint_at _ pre
               (CursorProtobuf.encodeVarint n ++ rest) tag)
      by (rewrite <- ?app_assoc; auto).
    rewrite Ef, Ew. cbn [Z.eqb Pos.eqb].
    rewrite (decodeVarint_at _ (pre ++ CursorProtobuf.encodeVarint tag)
               rest n) by (rewrite <- ?app_assoc; auto).
    now rewrite <- !app_assoc.
  - destruct (tag_parts k 2 Hk ltac:(lia)) as (Ht & Ef & Ew).
    set (tag := JS.bor (JS.shl k 3) 2) in *.
    pose proof (len_nonneg b).
    rewrite (decodeVarint_at _ pre
               (CursorProtobuf.encodeVarint (Buf.len b) ++ b ++ rest) tag)
      by (rewrite <- ?app_assoc; auto).
    rewrite Ef, Ew. cbn [Z.eqb Pos.eqb].
    rewrite (decodeVarint_at _ (pre ++ CursorProtobuf.encodeVarint tag)
               (b ++ rest) (Buf.len b)) by (rewrite <- ?app_assoc; auto; lia).
    set (p := (pre ++ CursorProtobuf.encodeVarint tag)
              ++ CursorProtobuf.encodeVarint (Buf.len b)).
    replace (pre ++ (CursorProtobuf.encodeVarint tag
                     ++ CursorProtobuf.encodeVarint (Buf.len b) ++ b) ++ rest)
      with (p ++ b ++ rest) by (subst p; now rewrite <- !app_assoc).
    rewrite slice_middle.
    replace (pre ++ CursorProtobuf.encodeVarint tag
                 ++ CursorProtobuf.encodeVarint (Buf.len b) ++ b)
      with (p ++ b) by (subst p; now rewrite <- !app_assoc).
    cbn [Pos.eqb]. now rewrite len_app.
Qed.

Lemma decodeMessageLoop_encoded (fs : list WireField) :
  forall (k : nat) (pre : Bytes) (acc : Fields),
    Forall wireInRange fs ->
    CursorDecode.decodeMessageLoop (S (List.length fs) + k)
      (pre ++ CursorProtobuf.concatArrays (map encodeWire fs))
      (Buf.len pre) acc
    = Some (acc ++ map decodedWire fs).
Proof.
  induction fs as [|f fs IH]; intros k pre acc Hall.
  - cbn. rewrite app_nil_r, Z.ltb_irrefl. now rewrite app_nil_r.
  - inversion Hall as [|? ? Hf Hrest]; subst.
    cbn [List.length map CursorProtobuf.concatArrays List.concat].
    change (S (S (List.length fs)) + k)%nat
      with (S (S (List.length fs) + k))%nat.
    cbn [CursorDecode.decodeMessageLoop].
    pose proof (encodeWire_nonempty f). 
    pose proof (len_nonneg (List.concat (map encodeWire fs))).
    destruct (Z.ltb_spec (Buf.len pre)
                (Buf.len (pre ++ encodeWire f
                              ++ List.concat (map encodeWire fs))))
      as [_|Hge].
    2:{ rewrite !len_app in Hge. lia. }
    rewrite decodeField_encodeWire by assumption.
    rewrite app_assoc.
    change (List.concat (map encodeWire fs))
      with (CursorProtobuf.concatArrays (map encodeWire fs)).
    rewrite IH by assumption.
    rewrite <- app_assoc. cbn [app].
    now destruct (decodedWire f) as [a [b c]].
Qed.

Lemma decodeMessage_encoded (fs : list WireField) (k : nat) :
  Forall wireInRange fs ->
  CursorDecode.decodeMessage (S (List.length fs) + k)
    (CursorProtobuf.concatArrays (map encodeWire fs))
  = Some (map decodedWire fs).
Proof.
  intros H. unfold CursorDecode.decodeMessage.
  exact (decodeMessageLoop_encoded fs k [] [] H).
Qed.

(** ** A length prefix that points backwards *)

Lemma decodeVarintFrom_cons (b : Z) (tl : Bytes) (r s p : Z) :
  CursorDecode.decodeVarintFrom (b :: tl) r s p
  = if JS.band b 0x80 =? 0
    then (JS.bor r (JS.shl (JS.band b 0x7F) s), p + 1)
    else CursorDecode.decodeVarintFrom tl
           (JS.bor r (JS.shl (JS.band b 0x7F) s)) (s + 7) (p + 1).
Proof. reflexivity. Qed.

(** Reads one byte of a varint whose value is known. *)
Ltac varint_byte :=
  match goal with
  | |- context [CursorDecode.decodeVarintFrom (?b :: ?tl) ?r ?s ?p] =>
      rewrite (decodeVarintFrom_cons b tl r s p);
      let c := eval vm_compute in (JS.band b 0x80 =? 0) in
      change (JS.band b 0x80 =? 0) with c;
      let r' := eval vm_compute in (JS.bor r (JS.shl (JS.band b 0x7F) s)) in
      change (JS.bor r (JS.shl (JS.band b 0x7F) s)) with r';
      let s' := eval vm_compute in (s + 7) in
      change (s + 7) with s';
      let p' := eval vm_compute in (p + 1) in
      change (p + 1) with p';
      cbv iota
  end.

Lemma backwardField_decodes (rest : Bytes) :
  CursorDecode.decodeField (backwardField ++ rest) 0
  = (Some 1, 2, DBytes [], 0).
Proof.
  unfold CursorDecode.decodeField.
  pose proof (len_nonneg rest).
  destruct (Z.leb_spec (Buf.len (backwardField ++ rest)) 0) as [Hle|_].
  { rewrite len_app in Hle. change (Buf.len backwardField) with 6 in Hle.
    lia. }
  unfold CursorDecode.decodeVarint at 1.
  change (0 <? 0) with false. cbv iota.
  change (skipn (Z.to_nat 0) (backwardField ++ rest))
    with (backwardField ++ rest).
  unfold backwardField. cbn [app].
  varint_byte.
  change (JS.shr 10 3) with 1. change (JS.band 10 7) with 2.
  cbn [Z.eqb Pos.eqb].
  unfold CursorDecode.decodeVarint.
  change (1 <? 0) with false. cbv iota.
  change (Z.to_nat 1) with 1%nat. cbn [skipn].
  do 5 varint_byte.
  change (6 + -6) with 0.
  f_equal. f_equal.
  unfold Buf.slice, Buf.clamp.
  change (6 <? 0) with false. change (0 <? 0) with false. cbv iota.
  match goal with |- context [Z.to_nat ?e] =>
    replace (Z.to_nat e) with 0%nat end.
  - reflexivity.
  - match goal with |- context [Buf.len ?l] =>
      pose proof (len_nonneg l) end. lia.
Qed.

Lemma decodeMessageLoop_backward (fuel : nat) :
  forall (rest : Bytes) (fields : Fields),
    CursorDecode.decodeMessageLoop fuel (backwardField ++ rest) 0 fields
    = None.
Proof.
  induction fuel as [|fuel IH]; intros rest fields; [reflexivity|].
  cbn [CursorDecode.decodeMessageLoop].
  pose proof (len_nonneg rest).
  destruct (Z.ltb_spec 0 (Buf.len (backwardField ++ rest))) as [_|Hge].
  2:{ rewrite len_app in Hge. change (Buf.len backwardField) with 6 in Hge.
      lia. }
  rewrite backwardField_decodes. apply IH.
Qed.

(** ** Cursor executor: frames of text *)

Lemma get_app_at (pre l : Bytes) (i : Z) :
  Buf.len pre <= i -> Buf.get (pre ++ l) i = Buf.get l (i - Buf.len pre).
Proof.
  intros Hi. unfold Buf.get, Buf.len in *.
  rewrite app_nth2 by lia. f_equal. lia.
Qed.

Lemma stringOf_bytesOf (s : string) : Buf.stringOf (Buf.bytesOf s) = s.
Proof.
  unfold Buf.stringOf, Buf.bytesOf. rewrite map_map.
  rewrite <- (string_of_list_ascii_of_string s) at 2. f_equal.
  induction (list_ascii_of_string s) as [|c l IH]; [reflexivity|].
  cbn [map]. rewrite Nat2Z.id, ascii_nat_embedding. now f_equal.
Qed.

Lemma bytesOf_ascii (s : string) :
  isAscii s = true -> Forall (fun b => 0 <= b <= 127) (Buf.bytesOf s).
Proof.
  unfold isAscii, Buf.bytesOf.
  induction (list_ascii_of_string s) as [|c l IH]; cbn [forallb map];
    intros H; [constructor|].
  apply andb_prop in H as [Hc Hl]. constructor; [|now apply IH].
  apply Nat.ltb_lt in Hc. lia.
Qed.

(** The encoder leaves ASCII bytes as they are. *)
Lemma scalarValues_ascii (bytes : Bytes) :
  Forall (fun b => 0 <= b <= 127) bytes -> Buf.scalarValues bytes = bytes.
Proof.
  induction 1 as [|b rest Hb Hrest IH]; [reflexivity|].
  cbn [Buf.scalarValues]. rewrite IH.
  assert (E : (b =? 0xED) = false) by (apply Z.eqb_neq; lia).
  rewrite E. cbn [andb].
  destruct rest as [|b2 [|b3 rest']]; reflexivity.
Qed.

(** So does the decoder. *)
Lemma decodeFrom_ascii (bytes : Bytes) :
  Forall (fun b => 0 <= b <= 127) bytes ->
  Buf.decodeFrom Buf.initial bytes = bytes.
Proof.
  induction 1 as [|b rest Hb Hrest IH]; [reflexivity|].
  cbn [Buf.decodeFrom Buf.initial Buf.needed]. unfold Buf.lead.
  assert (E : (b <=? 0x7F) = true) by (apply Z.leb_le; lia).
  rewrite E. cbn [app]. fold Buf.initial. now rewrite IH.
Qed.

Lemma decode_ascii (bytes : Bytes) :
  Forall (fun b => 0 <= b <= 127) bytes ->
  Buf.decode bytes = Buf.stringOf bytes.
Proof.
  intros H. unfold Buf.decode.
  destruct bytes as [|b1 [|b2 [|b3 rest]]];
    try (now rewrite decodeFrom_ascii).
  assert (E : (b1 =? 0xEF) = false).
  { inversion H; subst. apply Z.eqb_neq. lia. }
  rewrite E. cbn [andb]. now rewrite decodeFrom_ascii.
Qed.

(** A text of ASCII characters is read as it was written. *)
Lemma asRead_ascii (t : string) : isAscii t = true -> asRead t = t.
Proof.
  intros H. apply bytesOf_ascii in H. unfold asRead, Buf.ofString.
  rewrite scalarValues_ascii by exact H.
  rewrite decode_ascii by exact H. apply stringOf_bytesOf.
Qed.

Lemma extract_error_none (fuel : nat) (payload : Bytes) (r : DecodeResult) :
  CursorDecode.extractTextFromResponse fuel payload = Some r ->
  error r = None.
Proof.
  unfold CursorDecode.extractTextFromResponse.
  destruct (CursorDecode.decodeMessage fuel payload); [|discriminate].
  destruct (CursorDecode.firstResponse fuel _) as [[t|]|];
    intros [= <-]; reflexivity.
Qed.

Lemma encodeWire_bytes_len (k : Z) (b : Bytes) :
  Buf.len b <= Buf.len (encodeWire (WBytes k b)).
Proof.
  cbn [encodeWire]. unfold CursorProtobuf.encodeField.
  cbn [Z.eqb Pos.eqb]. rewrite !len_app.
  pose proof (len_nonneg
    (CursorProtobuf.encodeVarint (JS.bor (JS.shl k 3) 2))).
  pose proof (len_nonneg (CursorProtobuf.encodeVarint (Buf.len b))).
  lia.
Qed.

(** A text delta is read back from the message that carries it. *)
Lemma extract_deltaMessage (fuel : nat) (delta : Bytes) :
  Buf.len (deltaMessage delta) < 2 ^ 31 ->
  CursorDecode.extractTextFromResponse (2 + fuel) (deltaMessage delta)
  = Some {| text := if JS.truthy_string (Buf.decode delta)
                    then Some (Buf.decode delta) else None;
            error := None |}.
Proof.
  intros Hlen.
  set (inner := CursorProtobuf.encodeField 1 2 (VBytes delta)).
  assert (Einner : inner = encodeWire (WBytes 1 delta))
    by reflexivity.
  assert (Eouter : deltaMessage delta = encodeWire (WBytes 2 inner))
    by reflexivity.
  assert (Hparts : Buf.len inner < 2 ^ 31
                   /\ Buf.len delta < 2 ^ 31).
  { pose proof (encodeWire_bytes_len 2 inner) as H1.
    pose proof (encodeWire_bytes_len 1 delta) as H2.
    rewrite <- Eouter in H1. rewrite <- Einner in H2. lia. }
  destruct Hparts as [Hin Hstr].
  unfold CursorDecode.extractTextFromResponse.
  pose proof (decodeMessage_encoded [WBytes 2 inner] fuel) as Hout.
  cbn [List.length map CursorProtobuf.concatArrays List.concat] in Hout.
  rewrite app_nil_r in Hout. rewrite <- Eouter in Hout.
  change (2 + fuel)%nat with (2 + fuel)%nat.
  rewrite Hout.
  2:{ constructor; [|constructor]. cbn [wireInRange]. lia. }
  cbn [decodedWire CursorDecode.entries filter map fst snd Z.eqb Pos.eqb
       CursorDecode.firstResponse].
  pose proof (decodeMessage_encoded [WBytes 1 delta] fuel) as Hnest.
  cbn [List.length map CursorProtobuf.concatArrays List.concat] in Hnest.
  rewrite app_nil_r in Hnest. rewrite <- Einner in Hnest.
  rewrite Hnest.
  2:{ constructor; [|constructor]. cbn [wireInRange]. lia. }
  cbn [decodedWire CursorDecode.entries filter map fst snd Z.eqb Pos.eqb
       CursorDecode.firstText].
  destruct (JS.truthy_string (Buf.decode delta)); reflexivity.
Qed.

(** ** Cursor wire codec: what is written is read back *)

(** X1.  [decodeVarint] reads back what [encodeVarint] wrote, wherever the
    bytes stand in a buffer, and stops right after them: for a value below
    2^32 it returns the value as a signed 32-bit number (the value itself
    below 2^31, the value minus 2^32 from there on) and the offset of the
    first byte after the varint. *)
Theorem varint_round_trip (v : Z) (pre rest : Bytes) :
  0 <= v < 2 ^ 32 ->
  CursorDecode.decodeVarint
    (pre ++ CursorProtobuf.encodeVarint v ++ rest) (Buf.len pre)
  = (JS.toInt32 v,
     Buf.len pre + Buf.len (CursorProtobuf.encodeVarint v)).
Proof.
  intros Hv. unfold CursorDecode.decodeVarint.
  pose proof (len_nonneg pre).
  destruct (Z.ltb_spec (Buf.len pre) 0); [lia|].
  rewrite skipn_app_exact.
  unfold CursorProtobuf.encodeVarint.
  rewrite decodeVarintFrom_encode by (cbn; lia).
  f_equal. f_equal. lia.
Qed.

(** The varint of 300 between two other bytes, and the varint of 2^31,
    which reads back as -2^31. *)
Lemma varint_round_trip_witness :
  CursorDecode.decodeVarint
    ([7] ++ CursorProtobuf.encodeVarint 300 ++ [9]) (Buf.len [7])
  = (JS.toInt32 300, Buf.len [7] + Buf.len (CursorProtobuf.encodeVarint 300))
  /\ CursorDecode.decodeVarint
       ([] ++ CursorProtobuf.encodeVarint (2 ^ 31) ++ []) (Buf.len [])
     = (JS.toInt32 (2 ^ 31),
        Buf.len [] + Buf.len (CursorProtobuf.encodeVarint (2 ^ 31))).
Proof.
  split.
  - apply (varint_round_trip 300 [7] [9]). lia.
  - apply (varint_round_trip (2 ^ 31) [] []). lia.
Defined.

(** X2.  [decodeField] reads back a field written by [encodeField], at
    any position of a buffer: for a field number below 2^28 it returns the
    field number, the wire type, the value (the bytes for wire type 2 with
    fewer than 2^31 bytes, the number for wire type 0 and a number below
    2^31) and the offset of the first byte after the field. *)
Theorem field_round_trip (fieldNum : Z) (pre rest : Bytes) :
  0 <= fieldNum < 2 ^ 28 ->
  (forall b : Bytes,
      Buf.len b < 2 ^ 31 ->
      CursorDecode.decodeField
        (pre ++ CursorProtobuf.encodeField fieldNum 2 (VBytes b) ++ rest)
        (Buf.len pre)
      = (Some fieldNum, 2, DBytes b,
         Buf.len (pre ++ CursorProtobuf.encodeField fieldNum 2 (VBytes b))))
  /\ (forall n : Z,
         0 <= n < 2 ^ 31 ->
         CursorDecode.decodeField
           (pre ++ CursorProtobuf.encodeField fieldNum 0 (VNum n) ++ rest)
           (Buf.len pre)
         = (Some fieldNum, 0, DVarint n,
            Buf.len (pre ++ CursorProtobuf.encodeField fieldNum 0 (VNum n)))).
Proof.
  intros Hk. split.
  - intros b Hb.
    exact (decodeField_encodeWire (WBytes fieldNum b) pre rest
             (conj Hk Hb)).
  - intros n Hn.
    exact (decodeField_encodeWire (WVarint fieldNum n) pre rest
             (conj Hk Hn)).
Qed.

(** Field 13 holding three bytes, and field 2 holding 150, after one
    other byte. *)
Lemma field_round_trip_witness :
  CursorDecode.decodeField
    ([0] ++ CursorProtobuf.encodeField 13 2 (VBytes [1; 2; 3]) ++ [4])
    (Buf.len [0])
  = (Some 13, 2, DBytes [1; 2; 3],
     Buf.len ([0] ++ CursorProtobuf.encodeField 13 2 (VBytes [1; 2; 3]))).
Proof.
  refine (proj1 (field_round_trip 13 [0] [4] _) [1; 2; 3] _).
  - lia.
  - vm_compute. reflexivity.
Defined.

(** X3.  [decodeMessage] reads back a message made of fields written by
    [encodeField]: the entries come out in the order written, each with
    its field number, wire type and value, and the loop ends after one
    turn per field (field numbers below 2^28, numbers and byte counts
    below 2^31). *)
Theorem message_round_trip (fs : list WireField) (k : nat) :
  Forall wireInRange fs ->
  CursorDecode.decodeMessage (S (List.length fs) + k)
    (CursorProtobuf.concatArrays (map encodeWire fs))
  = Some (map decodedWire fs).
Proof.
  intros H. unfold CursorDecode.decodeMessage.
  exact (decodeMessageLoop_encoded fs k [] [] H).
Qed.

(** A message of a string field and a number field. *)
Lemma message_round_trip_witness :
  CursorDecode.decodeMessage 3
    (CursorProtobuf.concatArrays
       (map encodeWire [WBytes 1 [104; 105]; WVarint 2 1]))
  = Some (map decodedWire [WBytes 1 [104; 105]; WVarint 2 1]).
Proof.
  apply (message_round_trip [WBytes 1 [104; 105]; WVarint 2 1] 0).
  repeat constructor; vm_compute; congruence.
Defined.

Lemma scalarValues_step (b1 b2 b3 : Z) (rest : Bytes) :
  Buf.scalarValues (b1 :: b2 :: b3 :: rest)
  = if (b1 =? 0xED) && (0xA0 <=? b2)
    then Buf.replacement ++ Buf.scalarValues rest
    else b1 :: Buf.scalarValues (b2 :: b3 :: rest).
Proof. reflexivity. Qed.

(** Replacing a lone surrogate by U+FFFD keeps the number of bytes. *)
Lemma scalarValues_length (n : nat) :
  forall bytes : Bytes,
    (List.length bytes <= n)%nat ->
    List.length (Buf.scalarValues bytes) = List.length bytes.
Proof.
  induction n as [|n IH]; intros bytes Hn.
  - destruct bytes; [reflexivity | cbn in Hn; lia].
  - destruct bytes as [|b1 [|b2 [|b3 rest]]]; try reflexivity.
    rewrite scalarValues_step.
    destruct ((b1 =? 0xED) && (0xA0 <=? b2)).
    + rewrite length_app, IH by (cbn [List.length] in Hn; lia).
      reflexivity.
    + change (List.length (b1 :: Buf.scalarValues (b2 :: b3 :: rest)))
        with (S (List.length (Buf.scalarValues (b2 :: b3 :: rest)))).
      rewrite IH by (cbn [List.length] in *; lia). reflexivity.
Qed.

Lemma ofString_len (s : string) :
  Buf.len (Buf.ofString s) = Z.of_nat (String.length s).
Proof.
  unfold Buf.len, Buf.ofString, Buf.bytesOf.
  rewrite (scalarValues_length _ _ (le_n _)), length_map. f_equal.
  induction s as [|c s IH]; [reflexivity|].
  cbn [list_ascii_of_string List.length String.length]. now rewrite IH.
Qed.

(** X4.  What [encodeMessage] writes, [decodeMessage] reads back: field 1
    holds the bytes [TextEncoder] gives for the content, field 2 the role,
    field 13 the bytes of the message id and, when a chat mode is given,
    field 47 holds it (strings shorter than 2^31 bytes, role and mode
    below 2^31). *)
Theorem encodeMessage_round_trip
    (content messageId : string) (role : Z) (chatModeEnum : option Z)
    (k : nat) :
  Z.of_nat (String.length content) < 2 ^ 31 ->
  Z.of_nat (String.length messageId) < 2 ^ 31 ->
  0 <= role < 2 ^ 31 ->
  (forall m, chatModeEnum = Some m -> 0 <= m < 2 ^ 31) ->
  CursorDecode.decodeMessage (5 + k)
    (CursorProtobuf.encodeMessage content role messageId chatModeEnum)
  = Some ([ (1, (2, DBytes (Buf.ofString content)));
            (2, (0, DVarint role));
            (13, (2, DBytes (Buf.ofString messageId))) ]
          ++ match chatModeEnum with
             | Some m => [(47, (0, DVarint m))]
             | None => []
             end).
Proof.
  intros Hc Hid Hrole Hmode.
  rewrite <- ofString_len in Hc, Hid.
  destruct chatModeEnum as [m|].
  - specialize (Hmode m eq_refl).
    apply (decodeMessage_encoded
             [ WBytes 1 (Buf.ofString content); WVarint 2 role;
               WBytes 13 (Buf.ofString messageId); WVarint 47 m ] k).
    repeat constructor; cbn [wireInRange]; lia.
  - apply (decodeMessage_encoded
             [ WBytes 1 (Buf.ofString content); WVarint 2 role;
               WBytes 13 (Buf.ofString messageId) ] (S k)).
    repeat constructor; cbn [wireInRange]; lia.
Qed.

(** A user message in chat mode 1. *)
Lemma encodeMessage_round_trip_witness :
  CursorDecode.decodeMessage 5
    (CursorProtobuf.encodeMessage "hi" 1 "id-1" (Some 1))
  = Some [ (1, (2, DBytes [104; 105]));
           (2, (0, DVarint 1));
           (13, (2, DBytes [105; 100; 45; 49]));
           (47, (0, DVarint 1)) ].
Proof.
  apply (encodeMessage_round_trip "hi" "id-1" 1 (Some 1) 0).
  - vm_compute. reflexivity.
  - vm_compute. reflexivity.
  - lia.
  - intros m [= <-]. lia.
Defined.

(** X5.  [decodeMessage] does not return on a buffer that begins with a
    wire-type-2 field whose length prefix is FA FF FF FF 0F: the prefix
    decodes to -6 in 32-bit arithmetic, the new position is the start of
    the field again, and the loop decodes the same field for ever,
    whatever follows it. *)
Theorem decodeMessage_never_returns (fuel : nat) (rest : Bytes) :
  CursorDecode.decodeField (backwardField ++ rest) 0
  = (Some 1, 2, DBytes [], 0)
  /\ CursorDecode.decodeMessage fuel (backwardField ++ rest) = None.
Proof.
  split; [apply backwardField_decodes|].
  apply decodeMessageLoop_backward.
Qed.

(** ** Cursor framing: streams of frames *)

Section FrameFacts.

Variable gzipSync : Bytes -> Bytes.
Variable gunzipSync : Bytes -> option Bytes.

(** The five header bytes [wrapConnectRPCFrame] writes. *)
Lemma wrap_header (payload : Bytes) (compress : bool) :
  let finalPayload := if compress then gzipSync payload else payload in
  let L := Buf.len finalPayload in
  CursorProtobuf.wrapConnectRPCFrame gzipSync payload compress
  = [ if compress then 1 else 0;
      JS.band (JS.shr L 24) 255; JS.band (JS.shr L 16) 255;
      JS.band (JS.shr L 8) 255; JS.band L 255 ] ++ finalPayload.
Proof. destruct compress; reflexivity. Qed.

Lemma wrap_len (payload : Bytes) (compress : bool) :
  Buf.len (CursorProtobuf.wrapConnectRPCFrame gzipSync payload compress)
  = 5 + Buf.len (if compress then gzipSync payload else payload).
Proof.
  rewrite wrap_header. rewrite len_app. reflexivity.
Qed.

(** Parsing a buffer that starts with a five-byte header holding the
    length [L] below 2^31. *)
Lemma parse_header (f L : Z) (body : Bytes) :
  0 <= L < 2 ^ 31 ->
  CursorProtobuf.parseConnectRPCFrame gunzipSync
    ([ f; JS.band (JS.shr L 24) 255; JS.band (JS.shr L 16) 255;
       JS.band (JS.shr L 8) 255; JS.band L 255 ] ++ body)
  = if Buf.len body <? L then None
    else
      let payload := firstn (Z.to_nat L) body in
      Some {| CursorProtobuf.flags := f;
              CursorProtobuf.length := L;
              CursorProtobuf.payload :=
                if f =? 1 then
                  match gunzipSync payload with
                  | Some p => p
                  | None => payload
                  end
                else payload;
              CursorProtobuf.consumed := 5 + L |}.
Proof.
  intros HL.
  set (header := [ f; JS.band (JS.shr L 24) 255; JS.band (JS.shr L 16) 255;
                   JS.band (JS.shr L 8) 255; JS.band L 255 ]).
  unfold CursorProtobuf.parseConnectRPCFrame.
  pose proof (len_nonneg body) as Hb.
  assert (Hlen : Buf.len (header ++ body) = 5 + Buf.len body)
    by (rewrite len_app; reflexivity).
  rewrite Hlen.
  destruct (Z.ltb_spec (5 + Buf.len body) 5); [lia|].
  change (Buf.get (header ++ body) 0) with f.
  change (Buf.get (header ++ body) 1) with (JS.band (JS.shr L 24) 255).
  change (Buf.get (header ++ body) 2) with (JS.band (JS.shr L 16) 255).
  change (Buf.get (header ++ body) 3) with (JS.band (JS.shr L 8) 255).
  change (Buf.get (header ++ body) 4) with (JS.band L 255).
  rewrite (length_bytes_round_trip L) by lia.
  destruct (Z.ltb_spec (5 + Buf.len body) (5 + L));
    destruct (Z.ltb_spec (Buf.len body) L); try lia; [reflexivity|].
  cbv zeta.
  assert (Hs : Buf.slice (header ++ body) 5 (5 + L)
               = firstn (Z.to_nat L) body).
  { unfold Buf.slice, Buf.clamp. rewrite Hlen.
    destruct (Z.ltb_spec 5 0); [lia|].
    destruct (Z.ltb_spec (5 + L) 0); [lia|].
    rewrite !Z.min_l by lia.
    replace (5 + L - 5) with L by lia.
    change (Z.to_nat 5) with 5%nat. reflexivity. }
  rewrite Hs. reflexivity.
Qed.

Lemma firstn_len (b : Bytes) : firstn (Z.to_nat (Buf.len b)) b = b.
Proof. unfold Buf.len. rewrite Nat2Z.id. apply firstn_all. Qed.

Lemma firstn_len_app (b rest : Bytes) :
  firstn (Z.to_nat (Buf.len b)) (b ++ rest) = b.
Proof.
  unfold Buf.len. rewrite Nat2Z.id.
  rewrite firstn_app, firstn_all, Nat.sub_diag. cbn [firstn].
  apply app_nil_r.
Qed.

(** X6.  [parseConnectRPCFrame] applied to a frame written by
    [wrapConnectRPCFrame] and followed by any further bytes returns that
    frame alone: its flags, its length, its payload (for a compressed
    frame what [gunzipSync] gives, or the compressed bytes themselves when
    [gunzipSync] throws) and, as [consumed], the offset at which the
    further bytes begin. *)
Theorem frame_parses_before_rest (payload rest : Bytes) (compress : bool) :
  let finalPayload := if compress then gzipSync payload else payload in
  let frame :=
    CursorProtobuf.wrapConnectRPCFrame gzipSync payload compress in
  Buf.len finalPayload < 2 ^ 31 ->
  CursorProtobuf.parseConnectRPCFrame gunzipSync (frame ++ rest)
  = Some {| CursorProtobuf.flags := if compress then 1 else 0;
            CursorProtobuf.length := Buf.len finalPayload;
            CursorProtobuf.payload :=
              if compress then
                match gunzipSync finalPayload with
                | Some p => p
                | None => finalPayload
                end
              else payload;
            CursorProtobuf.consumed := Buf.len frame |}.
Proof.
  intros finalPayload frame Hsize. subst frame.
  pose proof (len_nonneg finalPayload) as Hpos.
  pose proof (len_nonneg rest) as Hrest.
  rewrite wrap_len, wrap_header. fold finalPayload.
  rewrite <- app_assoc.
  change (([?[a]; ?[b]; ?[c]; ?[d]; ?[e]] ++ finalPayload) ++ rest)
    with ([?a; ?b; ?c; ?d; ?e] ++ finalPayload ++ rest).
  rewrite parse_header by lia.
  destruct (Z.ltb_spec (Buf.len (finalPayload ++ rest)) (Buf.len finalPayload))
    as [Hlt|_].
  { rewrite len_app in Hlt. lia. }
  cbv zeta. rewrite firstn_len_app.
  destruct compress; reflexivity.
Qed.

(** X7.  No proper prefix of a frame written by [wrapConnectRPCFrame]
    parses as a frame: [parseConnectRPCFrame] returns [null] on the first
    [n] bytes of the frame for every [n] below its length, so a reader
    that has received part of a frame is told to wait for more. *)
Theorem frame_prefix_is_incomplete (payload : Bytes) (compress : bool) (n : nat) :
  let frame := CursorProtobuf.wrapConnectRPCFrame gzipSync payload compress in
  Buf.len frame < 5 + 2 ^ 31 ->
  (n < List.length frame)%nat ->
  CursorProtobuf.parseConnectRPCFrame gunzipSync (firstn n frame) = None.
Proof.
  intros frame Hsize Hn. subst frame.
  rewrite wrap_len in Hsize.
  assert (Hn' : Z.of_nat n
                < Buf.len (CursorProtobuf.wrapConnectRPCFrame gzipSync
                             payload compress))
    by (unfold Buf.len; lia).
  rewrite wrap_len in Hn'. rewrite wrap_header.
  set (finalPayload := if compress then gzipSync payload else payload) in *.
  pose proof (len_nonneg finalPayload) as Hpos.
  destruct (Nat.lt_ge_cases n 5) as [Hshort | Hlong].
  - unfold CursorProtobuf.parseConnectRPCFrame.
    match goal with |- context [Buf.len ?b <? 5] =>
      assert (Hl : Buf.len b < 5) end.
    { unfold Buf.len. rewrite length_firstn. lia. }
    apply Z.ltb_lt in Hl. now rewrite Hl.
  - rewrite firstn_app. cbn [List.length].
    rewrite (firstn_all2 (n:=n)) by (cbn [List.length]; lia).
    rewrite parse_header by lia.
    match goal with |- context [Buf.len ?b <? ?L] =>
      assert (Hl : Buf.len b < L) end.
    { unfold Buf.len at 1. rewrite length_firstn. lia. }
    apply Z.ltb_lt in Hl. now rewrite Hl.
Qed.

End FrameFacts.

Lemma rawFrame_header (p : Bytes) :
  rawFrame p
  = [ 0; JS.band (JS.shr (Buf.len p) 24) 255;
      JS.band (JS.shr (Buf.len p) 16) 255;
      JS.band (JS.shr (Buf.len p) 8) 255; JS.band (Buf.len p) 255 ] ++ p.
Proof. reflexivity. Qed.

Lemma rawFrame_len (p : Bytes) : Buf.len (rawFrame p) = 5 + Buf.len p.
Proof. rewrite rawFrame_header, len_app. reflexivity. Qed.

Lemma readUInt32BE_length (L : Z) (body : Bytes) :
  0 <= L < 2 ^ 31 ->
  CursorExecutor.readUInt32BE
    ([ 0; JS.band (JS.shr L 24) 255; JS.band (JS.shr L 16) 255;
       JS.band (JS.shr L 8) 255; JS.band L 255 ] ++ body) 1
  = L.
Proof.
  intros HL. unfold CursorExecutor.readUInt32BE.
  change (Buf.get (?[h] ++ body) 1) with (JS.band (JS.shr L 24) 255).
  change (Buf.get (?[h] ++ body) (1 + 1)) with (JS.band (JS.shr L 16) 255).
  change (Buf.get (?[h] ++ body) (1 + 2)) with (JS.band (JS.shr L 8) 255).
  change (Buf.get (?[h] ++ body) (1 + 3)) with (JS.band L 255).
  destruct (length_bytes_in_range L HL) as (-> & -> & -> & ->).
  change (2 ^ 31) with 2147483648 in HL.
  change (2 ^ 24) with 16777216. change (2 ^ 16) with 65536.
  change (2 ^ 8) with 256.
  Z.to_euclidean_division_equations. lia.
Qed.

Lemma readUInt32BE_at (pre l : Bytes) (k : Z) :
  0 <= k ->
  CursorExecutor.readUInt32BE (pre ++ l) (Buf.len pre + k)
  = CursorExecutor.readUInt32BE l k.
Proof.
  intros Hk. unfold CursorExecutor.readUInt32BE.
  rewrite !get_app_at by lia.
  replace (Buf.len pre + k - Buf.len pre) with k by lia.
  replace (Buf.len pre + k + 1 - Buf.len pre) with (k + 1) by lia.
  replace (Buf.len pre + k + 2 - Buf.len pre) with (k + 2) by lia.
  replace (Buf.len pre + k + 3 - Buf.len pre) with (k + 3) by lia.
  reflexivity.
Qed.

Section ExecFacts.

Variable gunzipSync : Bytes -> option Bytes.
Variable J : Type.
Variable jsonParse : string -> option J.

(** One turn of the frame loop over an uncompressed frame whose payload
    is not JSON text. *)
Lemma frame_step (dfuel turns : nat) (pre p rest : Bytes)
    (acc : CursorExecutor.Acc) :
  Buf.len p < 2 ^ 31 ->
  Buf.get p 0 <> 0x7b ->
  JS.startsWith (Buf.toString p) "{" = false ->
  CursorExecutor.frameLoop gunzipSync J jsonParse dfuel (S turns)
    (pre ++ rawFrame p ++ rest) (Buf.len pre) acc
  = match CursorDecode.extractTextFromResponse dfuel p with
    | None => None
    | Some result =>
        CursorExecutor.frameLoop gunzipSync J jsonParse dfuel turns
          (pre ++ rawFrame p ++ rest) (Buf.len (pre ++ rawFrame p))
          (CursorExecutor.onResult result acc)
    end.
Proof.
  intros Hlen Hfirst Htext.
  pose proof (len_nonneg pre) as Hpre. pose proof (len_nonneg p) as Hp.
  pose proof (len_nonneg rest) as Hrest.
  cbn [CursorExecutor.frameLoop].
  assert (Hbuf : Buf.len (pre ++ rawFrame p ++ rest)
                 = Buf.len pre + 5 + Buf.len p + Buf.len rest).
  { rewrite !len_app, rawFrame_len. lia. }
  rewrite Hbuf.
  destruct (Z.leb_spec (Buf.len pre + 5 + Buf.len p + Buf.len rest)
              (Buf.len pre)); [lia|].
  destruct (Z.ltb_spec (Buf.len pre + 5 + Buf.len p + Buf.len rest)
              (Buf.len pre + 5)); [lia|].
  rewrite (readUInt32BE_at pre (rawFrame p ++ rest) 1) by lia.
  assert (Hread : CursorExecutor.readUInt32BE (rawFrame p ++ rest) 1
                  = Buf.len p).
  { rewrite rawFrame_header. rewrite <- app_assoc.
    apply readUInt32BE_length. lia. }
  rewrite Hread.
  destruct (Z.ltb_spec (Buf.len pre + 5 + Buf.len p + Buf.len rest)
              (Buf.len pre + 5 + Buf.len p)); [lia|].
  rewrite (get_app_at pre) by lia.
  replace (Buf.len pre - Buf.len pre) with 0 by lia.
  change (Buf.get (rawFrame p ++ rest) 0) with 0.
  assert (Hslice : Buf.slice (pre ++ rawFrame p ++ rest) (Buf.len pre + 5)
                     (Buf.len pre + 5 + Buf.len p) = p).
  { rewrite rawFrame_header.
    set (h := [0; JS.band (JS.shr (Buf.len p) 24) 255;
               JS.band (JS.shr (Buf.len p) 16) 255;
               JS.band (JS.shr (Buf.len p) 8) 255;
               JS.band (Buf.len p) 255]).
    replace (pre ++ (h ++ p) ++ rest) with ((pre ++ h) ++ p ++ rest)
      by now rewrite <- !app_assoc.
    replace (Buf.len pre + 5) with (Buf.len (pre ++ h))
      by (rewrite len_app; reflexivity).
    apply slice_middle. }
  rewrite Hslice.
  assert (Hraw : CursorExecutor.decompressPayload gunzipSync p 0 = p).
  { unfold CursorExecutor.decompressPayload.
    apply Z.eqb_neq in Hfirst. rewrite Hfirst.
    rewrite andb_false_r. reflexivity. }
  rewrite Hraw, Htext. cbn [andb].
  destruct (CursorDecode.extractTextFromResponse dfuel p) as [result|] eqn:He;
    [|reflexivity].
  rewrite (extract_error_none _ _ _ He).
  rewrite len_app, rawFrame_len.
  replace (Buf.len pre + (5 + Buf.len p)) with (Buf.len pre + 5 + Buf.len p)
    by lia.
  reflexivity.
Qed.

End ExecFacts.

Lemma deltaMessage_head (delta : Bytes) :
  exists tl, deltaMessage delta = 18 :: tl.
Proof.
  unfold deltaMessage, CursorProtobuf.encodeField. cbn [Z.eqb Pos.eqb].
  change (CursorProtobuf.encodeVarint (JS.bor (JS.shl 2 3) 2)) with [18].
  eexists. reflexivity.
Qed.

Lemma deltaMessage_not_json (delta : Bytes) :
  Buf.get (deltaMessage delta) 0 <> 0x7b
  /\ JS.startsWith (Buf.toString (deltaMessage delta)) "{" = false.
Proof.
  destruct (deltaMessage_head delta) as [tl ->]. split.
  - cbn. discriminate.
  - reflexivity.
Qed.

(** What a text delta adds to the accumulators. *)
Lemma onResult_text (t : string) (acc : CursorExecutor.Acc) :
  CursorExecutor.onResult
    {| text := if JS.truthy_string t then Some t else None; error := None |}
    acc
  = {| CursorExecutor.totalContent :=
         String.append (CursorExecutor.totalContent acc) t;
       CursorExecutor.toolCalls := CursorExecutor.toolCalls acc;
       CursorExecutor.toolCallsMap := CursorExecutor.toolCallsMap acc |}.
Proof.
  unfold CursorExecutor.onResult, CursorExecutor.toolCallOf.
  destruct t as [|c t]; cbn [JS.truthy_string text]; [|reflexivity].
  rewrite append_empty_r. now destruct acc.
Qed.

Section ExecTextFacts.

Variable gunzipSync : Bytes -> option Bytes.
Variable J : Type.
Variable jsonParse : string -> option J.

Lemma frameLoop_textFrames (ts : list Bytes) :
  forall (dfuel turns : nat) (pre tail : Bytes) (content : string),
    (List.length ts < turns)%nat ->
    Forall (fun delta => Buf.len (deltaMessage delta) < 2 ^ 31) ts ->
    Buf.len tail < 5 ->
    CursorExecutor.frameLoop gunzipSync J jsonParse (2 + dfuel) turns
      (pre ++ textFrames ts ++ tail) (Buf.len pre)
      {| CursorExecutor.totalContent := content;
         CursorExecutor.toolCalls := [];
         CursorExecutor.toolCallsMap := [] |}
    = Some (CursorExecutor.finish J
              {| CursorExecutor.totalContent :=
                   fold_left String.append (map Buf.decode ts) content;
                 CursorExecutor.toolCalls := [];
                 CursorExecutor.toolCallsMap := [] |}).
Proof.
  induction ts as [|t ts IH];
    intros dfuel turns pre tail content Hturns Hall Htail.
  - cbn [textFrames map List.concat app fold_left].
    destruct turns as [|turns]; [cbn in Hturns; lia|].
    cbn [CursorExecutor.frameLoop]. rewrite len_app.
    pose proof (len_nonneg tail).
    destruct (Z.leb_spec (Buf.len pre + Buf.len tail) (Buf.len pre));
      [reflexivity|].
    destruct (Z.ltb_spec (Buf.len pre + Buf.len tail) (Buf.len pre + 5));
      [reflexivity | lia].
  - inversion Hall as [|? ? Ht Hrest]; subst.
    destruct turns as [|turns]; [cbn in Hturns; lia|].
    cbn [List.length] in Hturns.
    change (textFrames (t :: ts))
      with (rawFrame (deltaMessage t) ++ textFrames ts).
    rewrite <- app_assoc.
    destruct (deltaMessage_not_json t) as [Hfirst Htext].
    rewrite frame_step by assumption.
    rewrite extract_deltaMessage by assumption.
    rewrite onResult_text. cbn [CursorExecutor.totalContent
      CursorExecutor.toolCalls CursorExecutor.toolCallsMap].
    rewrite app_assoc.
    rewrite IH by (assumption || lia).
    reflexivity.
Qed.

Lemma frameLoop_no_tools (dfuel turns : nat) (buffer : Bytes) :
  forall (offset : Z) (content : string) (r : CursorExecutor.Response J),
    CursorExecutor.frameLoop gunzipSync J jsonParse dfuel turns buffer offset
      {| CursorExecutor.totalContent := content;
         CursorExecutor.toolCalls := [];
         CursorExecutor.toolCallsMap := [] |}
    = Some r ->
    (exists (parsed : J) (text : string),
        r = CursorExecutor.ErrorResponse J parsed
        /\ JS.startsWith text "{" = true
        /\ JS.includes text CursorExecutor.quotedError = true
        /\ jsonParse text = Some parsed)
    \/ (exists content',
          r = CursorExecutor.CompletionResponse J content' [] "stop").
Proof.
  induction turns as [|turns IH]; intros offset content r.
  - cbn. intros [= <-]. right. eexists. reflexivity.
  - cbn [CursorExecutor.frameLoop].
    assert (Hfin : forall r0,
      Some (CursorExecutor.finish J
              {| CursorExecutor.totalContent := content;
                 CursorExecutor.toolCalls := [];
                 CursorExecutor.toolCallsMap := [] |}) = Some r0 ->
      (exists (parsed : J) (text : string),
          r0 = CursorExecutor.ErrorResponse J parsed
          /\ JS.startsWith text "{" = true
          /\ JS.includes text CursorExecutor.quotedError = true
          /\ jsonParse text = Some parsed)
      \/ (exists content',
            r0 = CursorExecutor.CompletionResponse J content' [] "stop")).
    { intros r0 [= <-]. right. eexists. reflexivity. }
    destruct (Buf.len buffer <=? offset); [apply Hfin|].
    destruct (Buf.len buffer <? offset + 5); [apply Hfin|].
    destruct (Buf.len buffer <? _); [apply Hfin|].
    match goal with
    | |- context [if ?c then jsonParse ?t else None] =>
        destruct c eqn:Hc;
        [destruct (jsonParse t) as [parsed|] eqn:Hp;
         [intros [= <-]; left; exists parsed, t;
          apply andb_prop in Hc as [Hs Hi]; auto |]
        |]
    end.
    all: destruct (CursorDecode.extractTextFromResponse dfuel _)
           as [result|] eqn:He; [|discriminate];
         rewrite (extract_error_none _ _ _ He);
         unfold CursorExecutor.onResult, CursorExecutor.toolCallOf;
         destruct (text result) as [t'|];
         [destruct (JS.truthy_string t')|]; apply IH.
Qed.

Lemma frameLoop_backward (dfuel turns : nat) (rest : Bytes)
    (acc : CursorExecutor.Acc) :
  CursorExecutor.frameLoop gunzipSync J jsonParse dfuel (S turns)
    (rawFrame backwardField ++ rest) 0 acc
  = None.
Proof.
  pose proof (frame_step gunzipSync J jsonParse dfuel turns []
                backwardField rest acc) as H.
  cbn [app] in H. change (Buf.len []) with 0 in H.
  rewrite H.
  - unfold CursorDecode.extractTextFromResponse, CursorDecode.decodeMessage.
    rewrite <- (app_nil_r backwardField).
    now rewrite decodeMessageLoop_backward.
  - vm_compute. reflexivity.
  - vm_compute. discriminate.
  - reflexivity.
Qed.

End ExecTextFacts.

(** ** Cursor framing on sample frames, and the executor's answer *)

(** A compressed frame followed by two bytes, with a decompressor that
    fails on every input: the compressed bytes come back. *)
Lemma frame_parses_before_rest_witness :
  CursorProtobuf.parseConnectRPCFrame (fun _ => None)
    (CursorProtobuf.wrapConnectRPCFrame toyGzip [1; 2; 3] true ++ [9; 9])
  = Some {| CursorProtobuf.flags := 1;
            CursorProtobuf.length := Buf.len (toyGzip [1; 2; 3]);
            CursorProtobuf.payload := toyGzip [1; 2; 3];
            CursorProtobuf.consumed :=
              Buf.len (CursorProtobuf.wrapConnectRPCFrame toyGzip [1; 2; 3]
                         true) |}.
Proof.
  apply (frame_parses_before_rest toyGzip (fun _ => None) [1; 2; 3] [9; 9]
           true).
  vm_compute. reflexivity.
Defined.

(** The first seven bytes of a frame of eight. *)
Lemma frame_prefix_is_incomplete_witness :
  CursorProtobuf.parseConnectRPCFrame toyGunzip
    (firstn 7 (CursorProtobuf.wrapConnectRPCFrame toyGzip [1; 2; 3] false))
  = None.
Proof.
  apply (frame_prefix_is_incomplete toyGzip toyGunzip [1; 2; 3] false 7).
  - vm_compute. reflexivity.
  - vm_compute. lia.
Defined.

(** X8.  For a response buffer made of uncompressed frames that each
    carry the bytes of one text delta, followed by fewer than five stray
    bytes, [transformProtobufToJSON] returns a completion whose content is
    the deltas, each as [TextDecoder] reads it (a byte order mark at its
    start left out, bytes that are not UTF-8 replaced by U+FFFD), appended
    in arrival order ([null] when that is the empty string), with no tool
    calls and [finish_reason] "stop"; [JSON.parse] and [gunzipSync] are
    not consulted. *)
Theorem text_frames_concatenate
    (gunzipSync : Bytes -> option Bytes) (J : Type)
    (jsonParse : string -> option J) (dfuel : nat) (deltas : list Bytes)
    (tail : Bytes) :
  Forall (fun delta => Buf.len (deltaMessage delta) < 2 ^ 31) deltas ->
  Buf.len tail < 5 ->
  CursorExecutor.transformProtobufToJSON gunzipSync J jsonParse (2 + dfuel)
    (textFrames deltas ++ tail)
  = Some (CursorExecutor.CompletionResponse J
            (if JS.truthy_string (joined (map Buf.decode deltas))
             then Some (joined (map Buf.decode deltas))
             else None)
            [] "stop").
Proof.
  intros Hall Htail. unfold CursorExecutor.transformProtobufToJSON.
  pose proof (frameLoop_textFrames gunzipSync J jsonParse deltas dfuel
                (S (List.length (textFrames deltas ++ tail))) [] tail "")
    as H.
  cbn [app] in H. change (Buf.len []) with 0 in H.
  rewrite H; [reflexivity | | assumption | assumption].
  assert (Hlen : forall l : list Bytes,
            (List.length l <= List.length (textFrames l))%nat).
  { induction l as [|t l IH]; [cbn; lia|].
    change (textFrames (t :: l))
      with (rawFrame (deltaMessage t) ++ textFrames l).
    rewrite length_app. cbn [List.length].
    pose proof (rawFrame_len (deltaMessage t)) as Hr.
    pose proof (len_nonneg (deltaMessage t)).
    unfold Buf.len in Hr. lia. }
  specialize (Hlen deltas). rewrite length_app. lia.
Qed.

(** Four deltas and two stray bytes: the text "hel", an empty delta, "l"
    after a byte order mark, and "o" followed by the byte FF, which is
    not UTF-8.  The content is "hello" and U+FFFD. *)
Lemma text_frames_concatenate_witness :
  CursorExecutor.transformProtobufToJSON toyGunzip string (fun _ => None) 2
    (textFrames [Buf.ofString "hel"; []; [0xEF; 0xBB; 0xBF; 0x6C];
                 [0x6F; 0xFF]]
     ++ [0; 0])
  = Some (CursorExecutor.CompletionResponse string
            (Some (String.append "hello" (Buf.stringOf [0xEF; 0xBF; 0xBD])))
            [] "stop").
Proof.
  apply (text_frames_concatenate toyGunzip string (fun _ => None) 0
           [Buf.ofString "hel"; []; [0xEF; 0xBB; 0xBF; 0x6C]; [0x6F; 0xFF]]
           [0; 0]).
  - repeat constructor.
  - vm_compute. reflexivity.
Defined.


(** X10.  [transformProtobufToJSON] does not return on a response whose
    first frame is an uncompressed frame holding the field with the
    length prefix FA FF FF FF 0F: the frame is handed to
    [extractTextFromResponse], whose message decoder never ends on it,
    whatever frames follow. *)
Theorem backward_frame_hangs_executor
    (gunzipSync : Bytes -> option Bytes) (J : Type)
    (jsonParse : string -> option J) (dfuel : nat) (rest : Bytes) :
  CursorExecutor.transformProtobufToJSON gunzipSync J jsonParse dfuel
    (rawFrame backwardField ++ rest)
  = None.
Proof.
  unfold CursorExecutor.transformProtobufToJSON.
  apply frameLoop_backward.
Qed.

(** ** Cursor executor: streaming and non-streaming answers *)

Lemma append_assoc_s (a b c : string) :
  String.append (String.append a b) c = String.append a (String.append b c).
Proof.
  induction a as [|ch a IH]; [reflexivity|].
  cbn [String.append]. now rewrite IH.
Qed.

Lemma contentOf_snoc (chunks : list SseChunk) (t : string) :
  contentOf (chunks ++ [Chunk (DeltaContent t) None])
  = String.append (contentOf chunks) t.
Proof.
  induction chunks as [|c chunks IH].
  - cbn. apply append_empty_r.
  - cbn [app contentOf].
    destruct c as [[f | f | i id nm args |] fr |]; rewrite IH;
      try reflexivity; now rewrite append_assoc_s.
Qed.

Section StreamFacts.

Variable gunzipSync : Bytes -> option Bytes.
Variable J : Type.
Variable jsonParse : string -> option J.

Lemma onResult_inStep (result : DecodeResult) (a : CursorExecutor.Acc)
    (b : CursorSse.Acc) :
  inStep a b ->
  inStep (CursorExecutor.onResult result a) (CursorSse.onResult result b).
Proof.
  intros (Ha1 & Ha2 & Hb & Ht & Hc).
  unfold CursorExecutor.onResult, CursorSse.onResult,
    CursorExecutor.toolCallOf.
  destruct (text result) as [t|]; [|repeat split; assumption].
  destruct (JS.truthy_string t); [|repeat split; assumption].
  unfold inStep.
  cbn [CursorExecutor.toolCalls CursorExecutor.toolCallsMap
       CursorExecutor.totalContent CursorSse.toolCalls
       CursorSse.totalContent CursorSse.chunks].
  split; [assumption|]. split; [assumption|]. split; [assumption|].
  split; [now rewrite Ht|].
  right. rewrite Hb.
  destruct Hc as [[Hnil Hempty] | (first & rest & Hch & Hrest & Hcontent)].
  - rewrite Hnil, Hempty. exists t, []. cbn [app].
    split; [reflexivity|]. split; [constructor|].
    cbn. apply append_empty_r.
  - rewrite Hch. exists first, (rest ++ [Chunk (DeltaContent t) None]).
    split; [reflexivity|]. split.
    + apply Forall_app. split; [assumption|].
      constructor; [|constructor]. exists t. reflexivity.
    + rewrite <- Hcontent, Hch.
      change (Chunk (DeltaRole first) None
              :: rest ++ [Chunk (DeltaContent t) None])
        with ((Chunk (DeltaRole first) None :: rest)
              ++ [Chunk (DeltaContent t) None]).
      apply contentOf_snoc.
Qed.

Lemma finish_agree (a : CursorExecutor.Acc) (b : CursorSse.Acc) :
  inStep a b ->
  renderingsAgree (Some (CursorExecutor.finish J a))
                  (Some (CursorSse.finish J b)).
Proof.
  intros (Ha1 & Ha2 & Hb & Ht & Hc).
  unfold CursorExecutor.finish, CursorSse.finish, renderingsAgree.
  rewrite Ha1, Ha2, Hb. cbn [CursorExecutor.finaliseRemaining].
  split; [reflexivity|].
  assert (Hcontent :
            match (if JS.truthy_string (CursorExecutor.totalContent a)
                   then Some (CursorExecutor.totalContent a) else None) with
            | Some s => s
            | None => ""
            end = CursorExecutor.totalContent a).
  { destruct (CursorExecutor.totalContent a); reflexivity. }
  rewrite Hcontent.
  destruct Hc as [[Hnil Hempty] | (first & rest & Hch & Hrest & Hcont)].
  - rewrite Hnil, Hempty. exists "", []. cbn [app].
    split; [reflexivity|]. split; [constructor | reflexivity].
  - rewrite Hch in *. exists first, rest.
    split; [reflexivity|]. split; assumption.
Qed.

Lemma frameLoops_agree (dfuel turns : nat) (buffer : Bytes) :
  forall (offset : Z) (a : CursorExecutor.Acc) (b : CursorSse.Acc),
    inStep a b ->
    renderingsAgree
      (CursorExecutor.frameLoop gunzipSync J jsonParse dfuel turns buffer
         offset a)
      (CursorSse.frameLoop gunzipSync J jsonParse dfuel turns buffer
         offset b).
Proof.
  induction turns as [|turns IH]; intros offset a b Hab.
  - apply finish_agree, Hab.
  - cbn [CursorExecutor.frameLoop CursorSse.frameLoop].
    destruct (Buf.len buffer <=? offset); [apply finish_agree, Hab|].
    destruct (Buf.len buffer <? offset + 5); [apply finish_agree, Hab|].
    destruct (Buf.len buffer <? _); [apply finish_agree, Hab|].
    match goal with
    | |- context [if ?c then jsonParse ?t else None] =>
        destruct (if c then jsonParse t else None) as [parsed|]
    end; [reflexivity|].
    destruct (CursorDecode.extractTextFromResponse dfuel _)
      as [result|] eqn:He; [|exact I].
    rewrite (extract_error_none _ _ _ He).
    apply IH. now apply onResult_inStep.
Qed.

End StreamFacts.

(** X25.  [transformProtobufToSSE] and [transformProtobufToJSON] say the
    same about every response buffer.  When one returns the error
    response for a JSON error frame, so does the other, for the same
    error; when one keeps decoding for ever, so does the other; and
    otherwise the stream consists of one chunk that opens the message
    with the role, chunks of text only, the closing chunk and
    [data: [DONE]], where the texts of the chunks, joined, are the content
    of the completion (the empty text for [null]) and the closing chunk
    carries the completion's [finish_reason]. *)
Theorem streaming_agrees_with_completion
    (gunzipSync : Bytes -> option Bytes) (J : Type)
    (jsonParse : string -> option J) (dfuel : nat) (buffer : Bytes) :
  renderingsAgree
    (CursorExecutor.transformProtobufToJSON gunzipSync J jsonParse dfuel
       buffer)
    (CursorSse.transformProtobufToSSE gunzipSync J jsonParse dfuel buffer).
Proof.
  unfold CursorExecutor.transformProtobufToJSON,
    CursorSse.transformProtobufToSSE.
  apply frameLoops_agree.
  unfold inStep.
  cbn [CursorExecutor.toolCalls CursorExecutor.toolCallsMap
       CursorExecutor.totalContent CursorSse.toolCalls
       CursorSse.totalContent CursorSse.chunks].
  repeat (split; [reflexivity|]).
  left. split; reflexivity.
Qed.

(** ** Cursor checksum: shape of the header value *)

(** A fact checked on every number below [n] holds of every such number. *)
Lemma range_cases (n : nat) (P : Z -> bool) :
  forallb P (map Z.of_nat (seq 0 n)) = true ->
  forall b, 0 <= b < Z.of_nat n -> P b = true.
Proof.
  intros H b Hb. rewrite forallb_forall in H. apply H.
  apply in_map_iff. exists (Z.to_nat b). split; [lia|].
  apply in_seq. lia.
Qed.

Lemma band_255_range (x : Z) : 0 <= JS.band x 0xFF < 256.
Proof.
  unfold JS.band. change (JS.toInt32 255) with (Z.ones 8).
  rewrite Z.land_ones by lia. apply Z.mod_pos_bound. lia.
Qed.

Lemma byte_parts (a : Z) :
  0 <= a < 256 ->
  0 <= JS.shr a 2 < 64 /\ 0 <= JS.band a 3 < 4 /\ 0 <= JS.shr a 4 < 16
  /\ 0 <= JS.band a 15 < 16 /\ 0 <= JS.shr a 6 < 4
  /\ 0 <= JS.band a 63 < 64.
Proof.
  intros Ha.
  pose proof (range_cases 256
    (fun a => (0 <=? JS.shr a 2) && (JS.shr a 2 <? 64)
              && (0 <=? JS.band a 3) && (JS.band a 3 <? 4)
              && (0 <=? JS.shr a 4) && (JS.shr a 4 <? 16)
              && (0 <=? JS.band a 15) && (JS.band a 15 <? 16)
              && (0 <=? JS.shr a 6) && (JS.shr a 6 <? 4)
              && (0 <=? JS.band a 63) && (JS.band a 63 <? 64))
    ltac:(vm_compute; reflexivity) a Ha) as H.
  cbv beta in H.
  repeat (apply andb_true_iff in H as [H ?]).
  repeat match goal with
         | H : (_ <=? _) = true |- _ => apply Z.leb_le in H
         | H : (_ <? _) = true |- _ => apply Z.ltb_lt in H
         end.
  lia.
Qed.

Lemma alphabetAt_sextet (i : Z) :
  0 <= i < 64 -> isAlphabetChar (CursorExecutor.alphabetAt i) = true.
Proof.
  apply (range_cases 64
           (fun i => isAlphabetChar (CursorExecutor.alphabetAt i))).
  vm_compute. reflexivity.
Qed.

Lemma sextet_join (hi lo k : Z) :
  (k = 4 /\ 0 <= hi < 4 /\ 0 <= lo < 16)
  \/ (k = 2 /\ 0 <= hi < 16 /\ 0 <= lo < 4) ->
  0 <= JS.bor (JS.shl hi k) lo < 64.
Proof.
  intros [(-> & Hhi & Hlo) | (-> & Hhi & Hlo)].
  - rewrite shl_small by lia.
    rewrite bor_disjoint by lia. lia.
  - rewrite shl_small by lia.
    rewrite bor_disjoint by lia. lia.
Qed.

Lemma alphabetChar_inv (s : string) :
  isAlphabetChar s = true ->
  exists c, s = String c EmptyString /\ overAlphabet (String c EmptyString) = true.
Proof.
  destruct s as [|c [|c' s]]; cbn [isAlphabetChar]; try discriminate.
  intros H. exists c. split; [reflexivity|].
  unfold overAlphabet. cbn [list_ascii_of_string forallb]. now rewrite H.
Qed.

Lemma overAlphabet_app (s1 s2 : string) :
  overAlphabet (String.append s1 s2)
  = overAlphabet s1 && overAlphabet s2.
Proof.
  unfold overAlphabet. induction s1 as [|c s1 IH]; [reflexivity|].
  cbn [String.append list_ascii_of_string forallb]. rewrite IH.
  now rewrite andb_assoc.
Qed.

Lemma length_append (s1 s2 : string) :
  String.length (String.append s1 s2)
  = (String.length s1 + String.length s2)%nat.
Proof.
  induction s1 as [|c s1 IH]; [reflexivity|].
  cbn [String.append String.length]. now rewrite IH.
Qed.

Lemma encodeTriples_six (a b c d e f : Z) :
  0 <= a < 256 -> 0 <= b < 256 -> 0 <= c < 256 ->
  0 <= d < 256 -> 0 <= e < 256 -> 0 <= f < 256 ->
  let encoded := CursorExecutor.encodeTriples 6 [a; b; c; d; e; f] in
  String.length encoded = 8%nat /\ overAlphabet encoded = true.
Proof.
  intros Ha Hb Hc Hd He Hf.
  cbn [CursorExecutor.encodeTriples]. cbv zeta.
  destruct (byte_parts a Ha) as (A1 & A2 & A3 & A4 & A5 & A6).
  destruct (byte_parts b Hb) as (B1 & B2 & B3 & B4 & B5 & B6).
  destruct (byte_parts c Hc) as (C1 & C2 & C3 & C4 & C5 & C6).
  destruct (byte_parts d Hd) as (D1 & D2 & D3 & D4 & D5 & D6).
  destruct (byte_parts e He) as (E1 & E2 & E3 & E4 & E5 & E6).
  destruct (byte_parts f Hf) as (F1 & F2 & F3 & F4 & F5 & F6).
  repeat match goal with
  | |- context [CursorExecutor.alphabetAt ?i] =>
      let c := fresh "ch" in
      let Hc := fresh "Hch" in
      let Ho := fresh "Hover" in
      destruct (alphabetChar_inv (CursorExecutor.alphabetAt i)) as (c & Hc & Ho);
      [ apply alphabetAt_sextet;
        first [ assumption
              | apply sextet_join; left;
                split; [reflexivity | split; assumption]
              | apply sextet_join; right;
                split; [reflexivity | split; assumption] ]
      | rewrite Hc; clear Hc ]
  end.
  cbn [String.append String.length].
  split; [reflexivity|].
  unfold overAlphabet in *. cbn [list_ascii_of_string forallb] in *.
  repeat match goal with
         | H : _ && true = true |- _ =>
             rewrite andb_true_r in H; rewrite H; clear H
         end.
  reflexivity.
Qed.

(** X11.  Whatever the clock reading and the machine id,
    [generateChecksum] returns eight characters of the alphabet
    [A-Za-z0-9-_] followed by the machine id: the cipher keeps every byte
    in 0..255, so no index leaves the alphabet and no [undefined] is
    appended. *)
Theorem checksum_has_eight_symbols (now : Z) (machineId : string) :
  exists encoded,
    CursorExecutor.generateChecksum now machineId
    = String.append encoded machineId
    /\ String.length encoded = 8%nat
    /\ overAlphabet encoded = true.
Proof.
  unfold CursorExecutor.generateChecksum, CursorExecutor.timestampBytes.
  cbn [CursorExecutor.cipher List.length]. cbv zeta.
  eexists. split; [reflexivity|].
  apply encodeTriples_six; apply band_255_range.
Qed.

(** ** Earliest end of cooldown *)

Lemma earliestStep_skips (now : Z) (acc : option Z) (c : Conn.t) :
  Auth.isRateLimited now c = false ->
  Cooldowns.earliestStep now acc c = acc.
Proof.
  unfold Auth.isRateLimited, Cooldowns.earliestStep.
  destruct (Conn.rateLimitedUntil c) as [u|]; [|reflexivity].
  intros H. apply Z.ltb_ge in H. apply Z.leb_le in H. now rewrite H.
Qed.

Lemma earliest_fold_filter (now : Z) (l : list Conn.t) :
  forall acc,
    fold_left (Cooldowns.earliestStep now) l acc
    = fold_left (Cooldowns.earliestStep now)
        (filter (Auth.isRateLimited now) l) acc.
Proof.
  induction l as [|c l IH]; intros acc; [reflexivity|].
  cbn [fold_left filter].
  destruct (Auth.isRateLimited now c) eqn:Hc.
  - cbn [fold_left]. apply IH.
  - rewrite earliestStep_skips by assumption. apply IH.
Qed.

Lemma getEarliest_filter (now : Z) (l : list Conn.t) :
  Cooldowns.getEarliestRateLimitedUntil now l
  = Cooldowns.getEarliestRateLimitedUntil now
      (filter (Auth.isRateLimited now) l).
Proof.
  unfold Cooldowns.getEarliestRateLimitedUntil.
  now rewrite earliest_fold_filter.
Qed.

Lemma filter_rate_limited_In (now : Z) (l : list Conn.t) (c : Conn.t) :
  In c (filter (Auth.isRateLimited now) l)
  <-> In c l /\ exists u, Conn.rateLimitedUntil c = Some u /\ now < u.
Proof.
  rewrite filter_In. unfold Auth.isRateLimited.
  destruct (Conn.rateLimitedUntil c) as [u|].
  - rewrite Z.ltb_lt. split.
    + intros [H1 H2]. split; [assumption|]. exists u. auto.
    + intros [H1 (u' & [= <-] & H2)]. auto.
  - split; [intros [_ H]; discriminate | intros [_ (u & H & _)]; discriminate].
Qed.

Lemma getEarliest_characterised (now : Z) (l : list Conn.t) :
  0 <= now ->
  match Cooldowns.getEarliestRateLimitedUntil now l with
  | Some e =>
      now < e
      /\ (exists c, In c l /\ Conn.rateLimitedUntil c = Some e)
      /\ (forall c u, In c l -> Conn.rateLimitedUntil c = Some u ->
                      now < u -> e <= u)
  | None =>
      forall c u, In c l -> Conn.rateLimitedUntil c = Some u -> u <= now
  end.
Proof.
  intros Hnow. rewrite getEarliest_filter.
  set (cooling := filter (Auth.isRateLimited now) l).
  assert (Hall : forall c, In c cooling -> Auth.isRateLimited now c = true).
  { intros c Hc. subst cooling. apply filter_In in Hc. tauto. }
  destruct cooling as [|c0 rest] eqn:Hcool.
  - cbn. intros c u Hin Hu.
    destruct (Z.le_gt_cases u now) as [|Hlt]; [assumption|].
    assert (Hc : In c cooling).
    { subst cooling. apply filter_rate_limited_In. split; [assumption|].
      exists u. auto. }
    rewrite Hcool in Hc. destruct Hc.
  - destruct (getEarliest_all_limited now (c0 :: rest) Hnow
                ltac:(discriminate) Hall)
      as (e & -> & Hlt & (c & Hc & Hcu) & Hmin).
    rewrite <- Hcool in Hc, Hmin. subst cooling.
    split; [assumption|]. split.
    + exists c. apply filter_rate_limited_In in Hc. tauto.
    + intros c' u Hin Hu Hfut. apply (Hmin c'); [|assumption].
      apply filter_rate_limited_In. split; [assumption|]. exists u. auto.
Qed.

(** ** Selection *)

Lemma selected_available (settings : Settings) (now : Z) (provider : string)
    (ex : option string) (s : Store.t) (creds : Creds.t) :
  fst (Auth.getProviderCredentials settings now provider ex s)
  = Selected creds ->
  exists c,
    In c (filter (Auth.isAvailable now ex)
            (Store.getProviderConnections
               {| Store.f_provider := Some provider;
                  Store.f_isActive := Some true |} s))
    /\ creds = Creds.ofConn c.
Proof.
  unfold Auth.getProviderCredentials, bind, getConnections, ret,
    updateConnection.
  set (conns := Store.getProviderConnections
                  {| Store.f_provider := Some provider;
                     Store.f_isActive := Some true |} s).
  destruct conns as [|c0 rest] eqn:Hconns.
  - destruct (Store.getProviderConnections
                {| Store.f_provider := Some provider;
                   Store.f_isActive := None |} s) as [|c1 others];
      [no_selection|].
    destruct (Cooldowns.getEarliestRateLimitedUntil now (c1 :: others));
      no_selection.
  - set (avail := filter (Auth.isAvailable now ex) (c0 :: rest)).
    destruct avail as [|first more] eqn:Hav.
    + destruct (Cooldowns.getEarliestRateLimitedUntil now _); no_selection.
    + assert (Hfirst : In first avail) by (rewrite Hav; now left).
      rewrite <- Hav.
      destruct (String.eqb (Auth.strategyOf settings) "round-robin").
      * pose proof (roundRobin_In now (Auth.stickyLimitOf settings)
                      first avail Hfirst) as Hrr.
        destruct (Auth.roundRobin now (Auth.stickyLimitOf settings)
                    first avail) as [connection patch].
        cbn [fst] in *. intros [= <-]. exists connection. auto.
      * cbn [fst]. intros [= <-]. exists first. auto.
Qed.

Section MarkThenSelect.

Variable cfg : Config.

Lemma marked_not_available
    (now t : Z) (id : string) (status : Z) (errorText : ErrorText)
    (mprovider : option string) (f : Store.Filter) (ex : option string)
    (s : Store.t) (c : Conn.t) (marked : Auth.MarkResult) :
  let run :=
    Auth.markAccountUnavailable cfg now id status errorText mprovider s in
  fst run = Normal marked ->
  t < now + Auth.mr_cooldownMs marked ->
  In c (filter (Auth.isAvailable t ex)
          (Store.getProviderConnections f (snd run))) ->
  Conn.id c <> id.
Proof.
  cbv zeta. rewrite markAccountUnavailable_eq. cbv zeta.
  destruct (AccountFallback.checkFallbackError cfg status errorText _)
    as [r | thrown]; [|discriminate].
  cbn [fst snd]. intros [= <-]. cbn [Auth.mr_cooldownMs].
  intros Ht Hc Hid.
  apply filter_In in Hc as [Hin Hav].
  rewrite getProviderConnections_update in Hin.
  apply in_map_iff in Hin as (c0 & <- & _).
  unfold patched in *.
  destruct (String.eqb_spec (Conn.id c0) id) as [E|E].
  - unfold Auth.isAvailable, Cooldowns.isAccountUnavailable in Hav.
    cbn in Hav.
    destruct (Auth.isExcluded ex _); [discriminate|].
    apply Z.ltb_lt in Ht. rewrite Ht in Hav. discriminate.
  - contradiction.
Qed.

End MarkThenSelect.

(** ** What a selection writes *)

Lemma roundRobin_patch (now stickyLimit : Z) (first : Conn.t)
    (avail : list Conn.t) :
  exists count,
    snd (Auth.roundRobin now stickyLimit first avail) = usePatch now count
    /\ (count = 1 \/ count <= stickyLimit).
Proof.
  unfold Auth.roundRobin.
  set (current := hd first (sort Auth.cmpRecency avail)).
  destruct (Conn.lastUsedAt current).
  - destruct (Z.ltb_spec (Conn.consecutiveUseCount current) stickyLimit).
    + exists (Conn.consecutiveUseCount current + 1). split; [reflexivity|].
      right. lia.
    + exists 1. split; [reflexivity | now left].
  - exists 1. split; [reflexivity | now left].
Qed.

Lemma selection_writes (settings : Settings) (now : Z) (provider : string)
    (ex : option string) (s : Store.t) :
  let run := Auth.getProviderCredentials settings now provider ex s in
  match fst run with
  | Selected creds =>
      if String.eqb (Auth.strategyOf settings) "round-robin" then
        exists count,
          snd run
          = Store.updateProviderConnection (Creds.connectionId creds)
              (usePatch now count) s
          /\ (count = 1 \/ count <= Auth.stickyLimitOf settings)
      else snd run = s
  | _ => snd run = s
  end.
Proof.
  cbv zeta.
  unfold Auth.getProviderCredentials, bind, getConnections, ret,
    updateConnection.
  set (conns := Store.getProviderConnections
                  {| Store.f_provider := Some provider;
                     Store.f_isActive := Some true |} s).
  destruct conns as [|c0 rest] eqn:Hconns.
  - destruct (Store.getProviderConnections
                {| Store.f_provider := Some provider;
                   Store.f_isActive := None |} s) as [|c1 others];
      [reflexivity|].
    destruct (Cooldowns.getEarliestRateLimitedUntil now (c1 :: others));
      reflexivity.
  - set (avail := filter (Auth.isAvailable now ex) (c0 :: rest)).
    destruct avail as [|first more] eqn:Hav.
    + destruct (Cooldowns.getEarliestRateLimitedUntil now _); reflexivity.
    + rewrite <- Hav.
      destruct (String.eqb (Auth.strategyOf settings) "round-robin");
        [|reflexivity].
      destruct (roundRobin_patch now (Auth.stickyLimitOf settings) first avail)
        as (count & Hp & Hc).
      destruct (Auth.roundRobin now (Auth.stickyLimitOf settings)
                  first avail) as [connection patch].
      cbn [fst snd] in *. subst patch. exists count. auto.
Qed.

(** ** Sorted lists *)

Section SortedFacts.
Context {A : Type} (cmp : A -> A -> Z).

Hypothesis cmp_total : forall a b, cmp a b <= 0 \/ cmp b a <= 0.
Hypothesis cmp_trans :
  forall a b c, cmp a b <= 0 -> cmp b c <= 0 -> cmp a c <= 0.

Let le (a b : A) : Prop := cmp a b <= 0.

Lemma insertSorted_sorted (x : A) (l : list A) :
  Sorted.StronglySorted le l -> Sorted.StronglySorted le (insertSorted cmp x l).
Proof.
  induction 1 as [|y l Hs IH Hy]; cbn.
  - constructor; [constructor | constructor].
  - destruct (Z.leb_spec (cmp x y) 0) as [Hxy | Hyx].
    + constructor; [constructor; assumption|].
      constructor; [exact Hxy|].
      rewrite Forall_forall in *. intros z Hz.
      apply (cmp_trans x y z Hxy). now apply Hy.
    + constructor; [exact IH|].
      rewrite Forall_forall in *. intros z Hz.
      apply insertSorted_In in Hz as [E | Hz]; [|now apply Hy].
      subst z. destruct (cmp_total y x); [assumption | unfold le; lia].
Qed.

Lemma sort_sorted (l : list A) : Sorted.StronglySorted le (sort cmp l).
Proof.
  induction l as [|x l IH]; cbn; [constructor|].
  now apply insertSorted_sorted.
Qed.

Lemma filter_sorted (p : A -> bool) (l : list A) :
  Sorted.StronglySorted le l -> Sorted.StronglySorted le (filter p l).
Proof.
  induction 1 as [|y l Hs IH Hy]; cbn; [constructor|].
  destruct (p y); [|exact IH].
  constructor; [exact IH|].
  rewrite Forall_forall in *. intros z Hz.
  apply filter_In in Hz as [Hz _]. now apply Hy.
Qed.

Lemma sorted_head_least (h : A) (l : list A) :
  Sorted.StronglySorted le (h :: l) -> forall x, In x (h :: l) -> le h x.
Proof.
  intros Hs x [<- | Hx].
  - destruct (cmp_total h h); assumption.
  - inversion Hs as [|? ? _ Hall]; subst.
    rewrite Forall_forall in Hall. now apply Hall.
Qed.

End SortedFacts.

(** X15.  Under the default strategy (anything but "round-robin")
    [getProviderCredentials] returns the available connection of least
    priority number, and writes nothing. *)
Theorem fill_first_takes_least_priority (settings : Settings) (now : Z) (provider : string)
    (ex : option string) (s : Store.t) (creds : Creds.t) :
  String.eqb (Auth.strategyOf settings) "round-robin" = false ->
  fst (Auth.getProviderCredentials settings now provider ex s)
  = Selected creds ->
  let avail :=
    filter (Auth.isAvailable now ex)
      (Store.getProviderConnections
         {| Store.f_provider := Some provider;
            Store.f_isActive := Some true |} s) in
  exists c,
    In c avail /\ creds = Creds.ofConn c
    /\ (forall c', In c' avail -> Conn.priority c <= Conn.priority c')
    /\ snd (Auth.getProviderCredentials settings now provider ex s) = s.
Proof.
  intros Hstrat. cbv zeta.
  unfold Auth.getProviderCredentials, bind, getConnections, ret,
    updateConnection.
  set (conns := Store.getProviderConnections
                  {| Store.f_provider := Some provider;
                     Store.f_isActive := Some true |} s).
  assert (Hsorted :
            Sorted.StronglySorted
              (fun a b => Conn.priority a - Conn.priority b <= 0)
              (filter (Auth.isAvailable now ex) conns)).
  { apply filter_sorted. subst conns. unfold Store.getProviderConnections.
    apply (sort_sorted (fun a b => Conn.priority a - Conn.priority b));
      intros; lia. }
  destruct conns as [|c0 rest] eqn:Hconns.
  - destruct (Store.getProviderConnections
                {| Store.f_provider := Some provider;
                   Store.f_isActive := None |} s) as [|c1 others];
      [no_selection|].
    destruct (Cooldowns.getEarliestRateLimitedUntil now (c1 :: others));
      no_selection.
  - set (avail := filter (Auth.isAvailable now ex) (c0 :: rest)) in *.
    destruct avail as [|first more] eqn:Hav.
    + destruct (Cooldowns.getEarliestRateLimitedUntil now _); no_selection.
    + rewrite Hstrat. cbn [fst snd]. intros [= <-].
      exists first. split; [now left|]. split; [reflexivity|].
      split; [|reflexivity].
      intros c' Hc'.
      pose proof (sorted_head_least
                    (fun a b => Conn.priority a - Conn.priority b)
                    ltac:(intros; lia) first more Hsorted c' Hc').
      cbv beta in *. lia.
Qed.

(** ** When no credentials are returned *)

(** X16.  [getProviderCredentials] returns [null] exactly when no active
    connection of the provider is available and none of the connections
    it consults for a retry time (the active ones, or all connections of
    the provider when none is active) has a [rateLimitedUntil] after the
    clock reading.  With active connections this happens only when the
    single connection not in cooldown is the excluded one. *)
Theorem null_credentials_iff (settings : Settings) (now : Z) (provider : string)
    (ex : option string) (s : Store.t) :
  0 <= now ->
  let active :=
    Store.getProviderConnections
      {| Store.f_provider := Some provider;
         Store.f_isActive := Some true |} s in
  let consulted :=
    match active with
    | [] => Store.getProviderConnections
              {| Store.f_provider := Some provider;
                 Store.f_isActive := None |} s
    | _ :: _ => active
    end in
  fst (Auth.getProviderCredentials settings now provider ex s)
  = NoCredentials
  <-> filter (Auth.isAvailable now ex) active = []
      /\ (forall c u, In c consulted -> Conn.rateLimitedUntil c = Some u ->
                      u <= now).
Proof.
  intros Hnow. cbv zeta.
  unfold Auth.getProviderCredentials, bind, getConnections, ret,
    updateConnection.
  set (active := Store.getProviderConnections
                   {| Store.f_provider := Some provider;
                      Store.f_isActive := Some true |} s).
  assert (Hearliest : forall l,
    Cooldowns.getEarliestRateLimitedUntil now l = None
    <-> (forall c u, In c l -> Conn.rateLimitedUntil c = Some u -> u <= now)).
  { intros l. pose proof (getEarliest_characterised now l Hnow) as H.
    destruct (Cooldowns.getEarliestRateLimitedUntil now l) as [e|].
    - destruct H as (Hlt & (c & Hc & Hu) & _). split; [discriminate|].
      intros Hall. specialize (Hall c e Hc Hu). lia.
    - tauto. }
  destruct active as [|c0 rest] eqn:Hactive.
  - cbn [filter].
    destruct (Store.getProviderConnections
                {| Store.f_provider := Some provider;
                   Store.f_isActive := None |} s) as [|c1 others] eqn:Hall.
    + cbn [fst]. split; [|reflexivity]. intros _. split; [reflexivity|].
      intros c u [].
    + specialize (Hearliest (c1 :: others)).
      destruct (Cooldowns.getEarliestRateLimitedUntil now (c1 :: others));
        cbn [fst].
      * split; [discriminate|]. intros [_ H].
        apply Hearliest in H. discriminate.
      * split; [|reflexivity]. intros _. split; [reflexivity|].
        now apply Hearliest.
  - set (avail := filter (Auth.isAvailable now ex) (c0 :: rest)).
    destruct avail as [|first more] eqn:Hav.
    + specialize (Hearliest (c0 :: rest)).
      destruct (Cooldowns.getEarliestRateLimitedUntil now (c0 :: rest));
        cbn [fst].
      * split; [discriminate|]. intros [_ H].
        apply Hearliest in H. discriminate.
      * split; [|reflexivity]. intros _. split; [reflexivity|].
        now apply Hearliest.
    + split; [|intros [H _]; discriminate].
      destruct (String.eqb (Auth.strategyOf settings) "round-robin").
      * destruct (Auth.roundRobin _ _ _ _). cbn [fst]. discriminate.
      * cbn [fst]. discriminate.
Qed.

(** ** Dispatch loop: progress of a turn *)

Lemma available_mayServe (now T : Z) (ex : option string) (c : Conn.t) :
  now <= T -> Auth.isAvailable now ex c = true -> mayServe T c = true.
Proof.
  unfold Auth.isAvailable, Cooldowns.isAccountUnavailable, mayServe.
  intros HT. destruct (Auth.isExcluded ex c); [discriminate|].
  destruct (Conn.rateLimitedUntil c) as [u|]; [|reflexivity].
  destruct (Z.ltb_spec now u); [discriminate|]. intros _.
  apply Z.leb_le. lia.
Qed.

Lemma candidates_update_same (T : Z) (provider id : string) (p : Patch.t)
    (s : Store.t) :
  Patch.rateLimitedUntil p = None ->
  candidates T provider (Store.updateProviderConnection id p s)
  = candidates T provider s.
Proof.
  intros Hp. unfold candidates. rewrite getProviderConnections_update.
  induction (Store.getProviderConnections _ s) as [|c l IH];
    [reflexivity|].
  cbn [map filter].
  assert (E : mayServe T (patched id p c) = mayServe T c).
  { unfold patched, mayServe. destruct (String.eqb (Conn.id c) id);
      [|reflexivity].
    destruct c; cbn. now rewrite Hp. }
  rewrite E. destruct (mayServe T c); cbn [List.length]; now rewrite IH.
Qed.

Lemma candidates_update_less (T : Z) (provider id : string) (p : Patch.t)
    (s : Store.t) (u : Z) (c : Conn.t) :
  Patch.rateLimitedUntil p = Some (Some u) -> T < u ->
  In c (Store.getProviderConnections
          {| Store.f_provider := Some provider;
             Store.f_isActive := Some true |} s) ->
  Conn.id c = id -> mayServe T c = true ->
  (candidates T provider (Store.updateProviderConnection id p s)
   < candidates T provider s)%nat.
Proof.
  intros Hp Hu Hin Hid Hserve. unfold candidates.
  rewrite getProviderConnections_update.
  revert Hin.
  induction (Store.getProviderConnections _ s) as [|c0 l IH];
    [intros []|].
  assert (Hle : forall l0,
    (List.length (filter (mayServe T) (map (patched id p) l0))
     <= List.length (filter (mayServe T) l0))%nat).
  { induction l0 as [|d l0 IHl]; [cbn; lia|].
    cbn [map filter]. unfold patched at 1.
    destruct (String.eqb (Conn.id d) id).
    - assert (E : mayServe T (Patch.apply p d) = false).
      { unfold mayServe. destruct d; cbn. rewrite Hp. cbn.
        apply Z.leb_gt. lia. }
      rewrite E. destruct (mayServe T d); cbn [List.length]; lia.
    - destruct (mayServe T d); cbn [List.length]; lia. }
  intros [-> | Hin].
  - cbn [map filter]. unfold patched at 1.
    rewrite Hid, String.eqb_refl.
    assert (E : mayServe T (Patch.apply p c) = false).
    { unfold mayServe. destruct c; cbn. rewrite Hp. cbn.
      apply Z.leb_gt. lia. }
    rewrite E, Hserve. cbn [List.length]. specialize (Hle l). lia.
  - specialize (IH Hin). cbn [map filter]. unfold patched at 1.
    destruct (String.eqb (Conn.id c0) id).
    + assert (E : mayServe T (Patch.apply p c0) = false).
      { unfold mayServe. destruct c0; cbn. rewrite Hp. cbn.
        apply Z.leb_gt. lia. }
      rewrite E. destruct (mayServe T c0); cbn [List.length]; lia.
    + destruct (mayServe T c0); cbn [List.length]; lia.
Qed.

Section LoopTermination.

Variable cfg : Config.
Variable settings : Settings.
Variable provider : string.
Variable clock : nat -> Z.
Variable handleChatCore : nat -> Creds.t -> ChatResult.

(** Every clock reading of the run is at most [T], and every cooldown set
    during the run ends after [T]. *)
Variable T : Z.
Hypothesis clock_bound : forall n, clock n <= T.
Hypothesis cooldown_outlasts :
  forall n status errorText level r,
    AccountFallback.checkFallbackError cfg status errorText level
    = Normal r ->
    T < clock n + cooldownMs r.

Lemma turn_progress (n : nat) (st : Chat.LoopState) (s : Store.t) :
  match Chat.turn cfg settings provider clock handleChatCore n st s with
  | (inl _, _) => True
  | (inr _, s') =>
      (candidates T provider s' < candidates T provider s)%nat
  end.
Proof.
  unfold Chat.turn, bind, ret.
  pose proof (selected_available settings (clock n) provider
                (Chat.excludeConnectionId st) s) as Hsel.
  pose proof (selection_writes settings (clock n) provider
                (Chat.excludeConnectionId st) s) as Hw.
  cbv zeta in Hw.
  destruct (Auth.getProviderCredentials settings (clock n) provider
              (Chat.excludeConnectionId st) s) as [sel s1].
  cbn [fst snd] in *.
  destruct sel as [|e le lc|creds].
  - destruct (Chat.excludeConnectionId st) as [ex|]; [|exact I].
    destruct (JS.truthy_string ex); exact I.
  - exact I.
  - destruct (Hsel creds eq_refl) as (c & Hc & ->).
    apply filter_In in Hc as [Hin Hav].
    assert (Hs1 : candidates T provider s1 = candidates T provider s
                  /\ In c (Store.getProviderConnections
                             {| Store.f_provider := Some provider;
                                Store.f_isActive := Some true |} s)).
    { split; [|assumption].
      destruct (String.eqb (Auth.strategyOf settings) "round-robin").
      - destruct Hw as (count & -> & _).
        now apply candidates_update_same.
      - now rewrite Hw. }
    destruct Hs1 as [Hcand _].
    destruct (handleChatCore n (Creds.ofConn c))
      as [response | status error response].
    + unfold Auth.clearAccountError, ret, updateConnection.
      destruct (negb (Auth.hasError (Creds.ofConn c))); exact I.
    + rewrite markAccountUnavailable_eq. cbv zeta.
      destruct (AccountFallback.checkFallbackError cfg status error _)
        as [r | thrown] eqn:Hcheck; [|exact I].
      cbn [Auth.mr_shouldFallback].
      rewrite <- Hcand.
      assert (Hin1 : exists c1,
                In c1 (Store.getProviderConnections
                         {| Store.f_provider := Some provider;
                            Store.f_isActive := Some true |} s1)
                /\ Conn.id c1 = Conn.id c /\ mayServe T c1 = true).
      { pose proof (available_mayServe (clock n) T _ c (clock_bound n) Hav)
          as Hserve.
        destruct (String.eqb (Auth.strategyOf settings) "round-robin").
        - destruct Hw as (count & -> & _).
          exists (patched (Creds.connectionId (Creds.ofConn c))
                    (usePatch (clock n) count) c).
          rewrite getProviderConnections_update. split; [|split].
          + now apply in_map.
          + apply patched_id.
          + unfold patched. destruct (String.eqb _ _); [|assumption].
            destruct c; exact Hserve.
        - rewrite Hw. exists c. auto. }
      destruct Hin1 as (c1 & Hc1 & Hid1 & Hserve1).
      eapply candidates_update_less with (c := c1);
        [reflexivity | exact (cooldown_outlasts n _ _ _ _ Hcheck)
        | exact Hc1 | exact Hid1 | exact Hserve1].
Qed.

Lemma accountLoop_ends (fuel : nat) :
  forall (n : nat) (st : Chat.LoopState) (s : Store.t),
    (candidates T provider s < fuel)%nat ->
    exists e s',
      Chat.accountLoop cfg settings provider clock handleChatCore fuel n st s
      = (Some e, s').
Proof.
  induction fuel as [|fuel IH]; intros n st s Hfuel; [lia|].
  cbn [Chat.accountLoop]. unfold bind at 1.
  pose proof (turn_progress n st s) as Hturn.
  destruct (Chat.turn cfg settings provider clock handleChatCore n st s)
    as [[e | st'] s'].
  - exists e, s'. reflexivity.
  - apply IH. lia.
Qed.

End LoopTermination.

(** ** Dispatch loop: two connections tried in turn *)

Section PingPong.

Variable cfg : Config.
Variable clock : nat -> Z.

Let d : Z := Cooldown.transient (COOLDOWN_MS cfg).

Hypothesis cooldown_nonneg : 0 <= d.
Hypothesis slow : forall n, clock n + d <= clock (S n).

Lemma quiet_not_unavailable (t : Z) (c : Conn.t) :
  quietAt t c ->
  Cooldowns.isAccountUnavailable t (Conn.rateLimitedUntil c) = false.
Proof.
  unfold quietAt, Cooldowns.isAccountUnavailable.
  destruct (Conn.rateLimitedUntil c) as [u|]; [|reflexivity].
  intros H. apply Z.ltb_ge. now apply H.
Qed.

Lemma turn_goes_round (n : nat) (st : Chat.LoopState) (s : Store.t) :
  twoQuiet (clock n) s ->
  exists st' s',
    Chat.turn cfg fillFirst "cursor" clock alwaysFails n st s
    = (inr st', s')
    /\ twoQuiet (clock (S n)) s'.
Proof.
  intros (a & b & Hs & Hida & Hidb & Hpa & Hpb & Haa & Hab & Hra & Hrb
          & Hqa & Hqb).
  pose proof (slow n) as Hslow. fold d in Hslow.
  assert (Hsorted :
            Store.getProviderConnections
              {| Store.f_provider := Some "cursor";
                 Store.f_isActive := Some true |} s = [a; b]).
  { unfold Store.getProviderConnections, Store.matches. rewrite Hs.
    cbn [filter Store.f_provider Store.f_isActive].
    rewrite Hpa, Hpb, Haa, Hab. cbn [String.eqb Ascii.eqb Bool.eqb andb].
    cbn [sort insertSorted]. rewrite Hra, Hrb. reflexivity. }
  assert (Hpick : exists c other,
            fst (Auth.getProviderCredentials fillFirst (clock n) "cursor"
                   (Chat.excludeConnectionId st) s)
            = Selected (Creds.ofConn c)
            /\ snd (Auth.getProviderCredentials fillFirst (clock n) "cursor"
                      (Chat.excludeConnectionId st) s) = s
            /\ ((c = a /\ other = b) \/ (c = b /\ other = a))).
  { unfold Auth.getProviderCredentials, bind, getConnections, ret.
    rewrite Hsorted. cbn [filter].
    unfold Auth.isAvailable.
    rewrite (quiet_not_unavailable _ _ Hqa), (quiet_not_unavailable _ _ Hqb).
    destruct (Auth.isExcluded (Chat.excludeConnectionId st) a) eqn:Ea.
    - assert (Eb : Auth.isExcluded (Chat.excludeConnectionId st) b = false).
      { unfold Auth.isExcluded in *.
        destruct (Chat.excludeConnectionId st) as [e|]; [|reflexivity].
        apply andb_true_iff in Ea as [_ Ea].
        rewrite Hida in Ea. apply String.eqb_eq in Ea. subst e.
        rewrite Hidb. reflexivity. }
      rewrite Eb. exists b, a. cbn. auto.
    - exists a, b.
      destruct (Auth.isExcluded (Chat.excludeConnectionId st) b); cbn; auto. }
  destruct Hpick as (c & other & Hsel & Hstore & Hwhich).
  unfold Chat.turn, bind, ret.
  destruct (Auth.getProviderCredentials fillFirst (clock n) "cursor"
              (Chat.excludeConnectionId st) s) as [sel s1].
  cbn [fst snd] in Hsel, Hstore. subst sel s1.
  unfold alwaysFails at 1.
  rewrite markAccountUnavailable_eq. cbv zeta.
  assert (Hcd : forall l,
            AccountFallback.checkFallbackError cfg 503 ErrAbsent l
            = Normal (AccountFallback.fallback d)) by reflexivity.
  rewrite Hcd.
  cbn [Auth.mr_shouldFallback cooldownMs newBackoffLevel
       AccountFallback.fallback].
  eexists. eexists. split; [reflexivity|].
  unfold twoQuiet, Store.updateProviderConnection.
  cbn [Store.connections]. rewrite Hs. cbn [map Creds.connectionId Creds.ofConn].
  assert (Hmono : clock n <= clock (S n)) by lia.
  destruct Hwhich as [[-> ->] | [-> ->]].
  - rewrite Hida, Hidb. cbn [String.eqb Ascii.eqb Bool.eqb].
    eexists. eexists. split; [reflexivity|].
    destruct a, b; cbn in *.
    repeat (split; [assumption || reflexivity|]).
    split.
    + intros u [= <-]. lia.
    + intros u Hu. specialize (Hqb u Hu). lia.
  - rewrite Hida, Hidb. cbn [String.eqb Ascii.eqb Bool.eqb].
    eexists. eexists. split; [reflexivity|].
    destruct a, b; cbn in *.
    repeat (split; [assumption || reflexivity|]).
    split.
    + intros u Hu. specialize (Hqa u Hu). lia.
    + intros u [= <-]. lia.
Qed.

Lemma accountLoop_goes_round (fuel : nat) :
  forall (n : nat) (st : Chat.LoopState) (s : Store.t),
    twoQuiet (clock n) s ->
    fst (Chat.accountLoop cfg fillFirst "cursor" clock alwaysFails
           fuel n st s) = None.
Proof.
  induction fuel as [|fuel IH]; intros n st s Hs; [reflexivity|].
  cbn [Chat.accountLoop]. unfold bind at 1.
  destruct (turn_goes_round n st s Hs) as (st' & s' & -> & Hs').
  now apply IH.
Qed.

End PingPong.

(** ** Message conversion, and the failure after a success *)

Section ConvertFacts.

Variable stringify : MessageContent -> string.

Lemma convertMessages_app (before after : list ChatMessage) :
  Convert.convertMessages stringify (before ++ after)
  = Convert.convertMessages stringify before
    ++ Convert.convertMessages stringify after.
Proof.
  induction before as [|msg rest IH]; [reflexivity|].
  cbn [app Convert.convertMessages]. rewrite IH.
  destruct (String.eqb (cm_role msg) "system"); [reflexivity|].
  destruct (String.eqb (cm_role msg) "user" || String.eqb (cm_role msg) "assistant");
    [|reflexivity].
  cbv zeta. destruct (JS.truthy_string _); reflexivity.
Qed.

Lemma convertMessages_roles (messages : list ChatMessage) :
  (forall m, In m (Convert.convertMessages stringify messages) ->
             (role m = "user" \/ role m = "assistant")
             /\ JS.truthy_string (content m) = true)
  /\ (List.length (Convert.convertMessages stringify messages)
      <= List.length messages)%nat.
Proof.
  induction messages as [|msg rest [IHin IHlen]]; [split; [intros m []|]; cbn; lia|].
  cbn [Convert.convertMessages].
  destruct (String.eqb_spec (cm_role msg) "system") as [Hsys | Hsys].
  - split; [|cbn [List.length]; lia].
    intros m [<- | Hm]; [|now apply IHin].
    cbn [role content]. split; [now left | reflexivity].
  - destruct (String.eqb_spec (cm_role msg) "user") as [Hu | Hu].
    + cbn [orb]. cbv zeta.
      destruct (JS.truthy_string _) eqn:Ht.
      * split; [|cbn [List.length]; lia].
        intros m [<- | Hm]; [|now apply IHin].
        cbn [role content]. split; [now left | exact Ht].
      * split; [exact IHin | cbn [List.length]; lia].
    + cbn [orb]. cbv zeta.
      destruct (String.eqb_spec (cm_role msg) "assistant") as [Ha | Ha].
      * destruct (JS.truthy_string _) eqn:Ht.
        -- split; [|cbn [List.length]; lia].
           intros m [<- | Hm]; [|now apply IHin].
           cbn [role content]. split; [now right | exact Ht].
        -- split; [exact IHin | cbn [List.length]; lia].
      * split; [exact IHin | cbn [List.length]; lia].
Qed.

(** X22.  [convertMessages] converts each message on its own and keeps
    their order.  A system message becomes a user message whose content
    is the line "[System Instructions]" followed by the original content
    (by what a template literal makes of it when it is not a string).  A
    user or assistant message is kept, with its role and with its text
    (the string, or the text parts of an array joined) as content, when
    that text is not empty, and dropped when it is; a message of any
    other role is dropped.  So the Cursor encoder gets only messages of
    role "user" or "assistant" with a non-empty content, and never more
    messages than were given. *)
Theorem convertMessages_keeps_chat_roles (messages : list ChatMessage) :
  (forall before after : list ChatMessage,
      Convert.convertMessages stringify (before ++ after)
      = Convert.convertMessages stringify before
        ++ Convert.convertMessages stringify after)
  /\ (forall c : MessageContent,
        Convert.convertMessages stringify
          [{| cm_role := "system"; cm_content := c |}]
        = [{| role := "user";
              content :=
                String.append "[System Instructions]"
                  (String.append Convert.newline
                     match c with
                     | ContentString s => s
                     | other => stringify other
                     end) |}])
  /\ (forall (r : string) (c : MessageContent),
        r = "user" \/ r = "assistant" ->
        let text :=
          match c with
          | ContentString s => s
          | ContentArray parts => Convert.textOf parts
          | ContentOther => ""
          end in
        Convert.convertMessages stringify [{| cm_role := r; cm_content := c |}]
        = match text with
          | EmptyString => []
          | _ => [{| role := r; content := text |}]
          end)
  /\ (forall msg : ChatMessage,
        cm_role msg <> "system" -> cm_role msg <> "user" ->
        cm_role msg <> "assistant" ->
        Convert.convertMessages stringify [msg] = [])
  /\ (forall m, In m (Convert.convertMessages stringify messages) ->
                (role m = "user" \/ role m = "assistant")
                /\ JS.truthy_string (content m) = true)
  /\ (List.length (Convert.convertMessages stringify messages)
      <= List.length messages)%nat.
Proof.
  split; [exact convertMessages_app|].
  split; [intros c; destruct c; reflexivity|].
  split.
  { intros r c [-> | ->]; cbv zeta; cbn [Convert.convertMessages cm_role
      cm_content String.eqb Ascii.eqb Bool.eqb orb];
      destruct c as [s | parts |]; try reflexivity.
    - now destruct s.
    - now destruct (Convert.textOf parts).
    - now destruct s.
    - now destruct (Convert.textOf parts). }
  split.
  { intros msg Hs Hu Ha. cbn [Convert.convertMessages].
    apply String.eqb_neq in Hs, Hu, Ha. now rewrite Hs, Hu, Ha. }
  apply convertMessages_roles.
Qed.

End ConvertFacts.

(** The sample conversation: the system message comes out as a user
    message, "hi" is kept, the tool message and the empty assistant
    message are dropped, and the text parts of the last message are
    joined. *)
Lemma convertMessages_keeps_chat_roles_witness :
  Convert.convertMessages objectObject sampleConversation
  = [ {| role := "user";
         content :=
           String.append "[System Instructions]"
             (String.append Convert.newline "Be brief.") |};
      {| role := "user"; content := "hi" |};
      {| role := "assistant"; content := "ab" |} ].
Proof.
  destruct (convertMessages_keeps_chat_roles objectObject sampleConversation)
    as (Happ & Hsystem & Htext & Hother & _).
  change sampleConversation
    with ([ {| cm_role := "system"; cm_content := ContentString "Be brief." |} ]
          ++ [ {| cm_role := "user"; cm_content := ContentString "hi" |} ]
          ++ [ {| cm_role := "tool"; cm_content := ContentString "42" |} ]
          ++ [ {| cm_role := "assistant"; cm_content := ContentString "" |} ]
          ++ [ {| cm_role := "assistant";
                  cm_content :=
                    ContentArray [TextPart "a"; OtherPart; TextPart "b"] |} ]).
  rewrite !Happ, Hsystem.
  rewrite (Htext "user" (ContentString "hi") (or_introl eq_refl)).
  rewrite (Hother {| cm_role := "tool"; cm_content := ContentString "42" |})
    by (cbn; discriminate).
  rewrite (Htext "assistant" (ContentString "") (or_intror eq_refl)).
  rewrite (Htext "assistant"
             (ContentArray [TextPart "a"; OtherPart; TextPart "b"])
             (or_intror eq_refl)).
  reflexivity.
Defined.

Section SuccessFacts.

Variable cfg : Config.

(** X17.  A success resets the backoff: when [clearAccountError] has
    cleared a connection that showed an error, the stored backoff level is
    0 and the next failure reported by [markAccountUnavailable] gets the
    cooldown of a first failure, whatever the level was before (or the
    exception the classifier throws for it). *)
Theorem failure_after_success_is_first
    (now : Z) (id : string) (status : Z) (errorText : ErrorText)
    (provider : option string) (snapshot : Creds.t) (s : Store.t)
    (n : nat) :
  Auth.hasError snapshot = true ->
  storedLevel provider id s = Some n ->
  let s1 := snd (Auth.clearAccountError id snapshot s) in
  storedLevel provider id s1 = Some O
  /\ fst (Auth.markAccountUnavailable cfg now id status errorText provider s1)
     = match AccountFallback.checkFallbackError cfg status errorText O with
       | Normal r =>
           Normal {| Auth.mr_shouldFallback := true;
                     Auth.mr_cooldownMs := cooldownMs r |}
       | Throw thrown => Throw thrown
       end.
Proof.
  intros Herr Hn. cbv zeta.
  unfold Auth.clearAccountError. rewrite Herr. cbn [negb].
  unfold updateConnection. cbn [snd].
  assert (H0 : storedLevel provider id
                 (Store.updateProviderConnection id Auth.clearPatch s)
               = Some O).
  { unfold storedLevel in *.
    rewrite getProviderConnections_update, find_map_patched.
    destruct (Store.find id _) as [c|] eqn:Hf; [|discriminate].
    cbn [option_map]. unfold patched.
    assert (Hid : String.eqb (Conn.id c) id = true).
    { unfold Store.find in Hf. apply find_some in Hf. tauto. }
    rewrite Hid. reflexivity. }
  split; [exact H0|].
  rewrite markAccountUnavailable_eq. cbv zeta. rewrite H0.
  now destruct (AccountFallback.checkFallbackError cfg status errorText O).
Qed.

End SuccessFacts.

(** ** Cooldowns and selection *)

(** X12.  [getEarliestRateLimitedUntil] returns the least
    [rateLimitedUntil] that lies after the clock reading, taken over all
    the accounts given, and [null] exactly when no account has one after
    the clock reading; instants at or before the clock reading are
    ignored. *)
Theorem earliest_cooldown_is_least_future (now : Z) (accounts : list Conn.t) :
  0 <= now ->
  match Cooldowns.getEarliestRateLimitedUntil now accounts with
  | Some e =>
      now < e
      /\ (exists c, In c accounts /\ Conn.rateLimitedUntil c = Some e)
      /\ (forall c u, In c accounts -> Conn.rateLimitedUntil c = Some u ->
                      now < u -> e <= u)
  | None =>
      forall c u, In c accounts -> Conn.rateLimitedUntil c = Some u ->
                  u <= now
  end.
Proof. exact (getEarliest_characterised now accounts). Qed.

(** The two cooling connections at time 40000: the cooldown of "A" is
    over, the one of "B" is reported. *)
Lemma earliest_cooldown_is_least_future_witness :
  match Cooldowns.getEarliestRateLimitedUntil 40000
          (Store.connections storeCooling) with
  | Some e =>
      40000 < e
      /\ (exists c, In c (Store.connections storeCooling)
                    /\ Conn.rateLimitedUntil c = Some e)
      /\ (forall c u, In c (Store.connections storeCooling) ->
                      Conn.rateLimitedUntil c = Some u ->
                      40000 < u -> e <= u)
  | None =>
      forall c u, In c (Store.connections storeCooling) ->
                  Conn.rateLimitedUntil c = Some u -> u <= 40000
  end.
Proof.
  apply (earliest_cooldown_is_least_future 40000
           (Store.connections storeCooling)).
  lia.
Defined.

(** X13.  A connection that [markAccountUnavailable] has just put in
    cooldown is not handed out while the cooldown lasts: when the call
    returns, then at every time before [now + cooldownMs], whatever the
    strategy and the excluded id, [getProviderCredentials] on the store
    left by the call returns no connection with that id. *)
Theorem marked_connection_not_selected
    (cfg : Config) (settings : Settings) (now t : Z) (id : string)
    (status : Z) (errorText : ErrorText) (mprovider : option string)
    (provider : string) (ex : option string) (s : Store.t)
    (marked : Auth.MarkResult) (creds : Creds.t) :
  let run :=
    Auth.markAccountUnavailable cfg now id status errorText mprovider s in
  fst run = Normal marked ->
  t < now + Auth.mr_cooldownMs marked ->
  fst (Auth.getProviderCredentials settings t provider ex (snd run))
  = Selected creds ->
  Creds.connectionId creds <> id.
Proof.
  cbv zeta. intros Hrun Ht Hsel.
  apply selected_available in Hsel as (c & Hc & ->).
  exact (marked_not_available cfg now t id status errorText mprovider _ ex s
           c marked Hrun Ht Hc).
Qed.

(** "A" fails with status 429 at time 1000 and is cooled for one second;
    the selection made at time 1500 returns "B". *)
Lemma marked_connection_not_selected_witness :
  Creds.connectionId (Creds.ofConn (freshConn "B" 2)) <> "A".
Proof.
  apply (marked_connection_not_selected sampleConfig fillFirst 1000 1500 "A"
           429 ErrAbsent (Some "cursor") "cursor" None storeAB
           {| Auth.mr_shouldFallback := true; Auth.mr_cooldownMs := 1000 |}
           (Creds.ofConn (freshConn "B" 2))).
  - vm_compute. reflexivity.
  - vm_compute. reflexivity.
  - vm_compute. reflexivity.
Defined.

(** X14.  A selection writes at most one thing to the store.  Under
    round-robin it patches the connection it returns with [lastUsedAt] set
    to the clock reading and a [consecutiveUseCount] that is 1 or at most
    the sticky limit, and nothing else; under every other strategy, and
    whenever it returns no connection, it leaves the store as it was. *)
Theorem selection_writes_usage_only
    (settings : Settings) (now : Z) (provider : string)
    (ex : option string) (s : Store.t) :
  let run := Auth.getProviderCredentials settings now provider ex s in
  match fst run with
  | Selected creds =>
      if String.eqb (Auth.strategyOf settings) "round-robin" then
        exists count,
          snd run
          = Store.updateProviderConnection (Creds.connectionId creds)
              (usePatch now count) s
          /\ (count = 1 \/ count <= Auth.stickyLimitOf settings)
      else snd run = s
  | _ => snd run = s
  end.
Proof. exact (selection_writes settings now provider ex s). Qed.

(** With "A" excluded the selection over "A" and "B" returns "B". *)
Lemma fill_first_takes_least_priority_witness :
  exists c,
    In c (filter (Auth.isAvailable 1000 (Some "A"))
            (Store.getProviderConnections
               {| Store.f_provider := Some "cursor";
                  Store.f_isActive := Some true |} storeAB))
    /\ Creds.ofConn (freshConn "B" 2) = Creds.ofConn c
    /\ (forall c',
           In c' (filter (Auth.isAvailable 1000 (Some "A"))
                    (Store.getProviderConnections
                       {| Store.f_provider := Some "cursor";
                          Store.f_isActive := Some true |} storeAB)) ->
           Conn.priority c <= Conn.priority c')
    /\ snd (Auth.getProviderCredentials fillFirst 1000 "cursor" (Some "A")
              storeAB) = storeAB.
Proof.
  apply (fill_first_takes_least_priority fillFirst 1000 "cursor" (Some "A")
           storeAB (Creds.ofConn (freshConn "B" 2))).
  - reflexivity.
  - vm_compute. reflexivity.
Defined.

(** A store with the single connection "A", which is excluded. *)
Lemma null_credentials_iff_witness :
  fst (Auth.getProviderCredentials fillFirst 1000 "cursor" (Some "A")
         (Store.Build [freshConn "A" 1] []))
  = NoCredentials
  <-> filter (Auth.isAvailable 1000 (Some "A"))
        (Store.getProviderConnections
           {| Store.f_provider := Some "cursor";
              Store.f_isActive := Some true |}
           (Store.Build [freshConn "A" 1] [])) = []
      /\ (forall c u,
             In c match Store.getProviderConnections
                          {| Store.f_provider := Some "cursor";
                             Store.f_isActive := Some true |}
                          (Store.Build [freshConn "A" 1] []) with
                  | [] => Store.getProviderConnections
                            {| Store.f_provider := Some "cursor";
                               Store.f_isActive := None |}
                            (Store.Build [freshConn "A" 1] [])
                  | _ :: _ =>
                      Store.getProviderConnections
                        {| Store.f_provider := Some "cursor";
                           Store.f_isActive := Some true |}
                        (Store.Build [freshConn "A" 1] [])
                  end ->
             Conn.rateLimitedUntil c = Some u -> u <= 1000).
Proof.
  apply (null_credentials_iff fillFirst 1000 "cursor" (Some "A")
           (Store.Build [freshConn "A" 1] [])).
  lia.
Defined.

(** "A" at backoff level 1 is cleared; the 429 that follows is cooled for
    the base second. *)
Lemma failure_after_success_is_first_witness :
  storedLevel (Some "cursor") "A"
    (snd (Auth.clearAccountError "A" coolingSnapshot storeCooling))
  = Some O
  /\ fst (Auth.markAccountUnavailable sampleConfig 50000 "A" 429 ErrAbsent
            (Some "cursor")
            (snd (Auth.clearAccountError "A" coolingSnapshot storeCooling)))
     = Normal {| Auth.mr_shouldFallback := true;
                 Auth.mr_cooldownMs := 1000 |}.
Proof.
  apply (failure_after_success_is_first sampleConfig 50000 "A" 429 ErrAbsent
           (Some "cursor") coolingSnapshot storeCooling 1).
  - reflexivity.
  - reflexivity.
Defined.

(** ** Dispatch loop: when it ends *)

Lemma sampleConfig_cooldown_positive
    (status : Z) (errorText : ErrorText) (level : nat) (r : FallbackResult) :
  AccountFallback.checkFallbackError sampleConfig status errorText level
  = Normal r ->
  0 < cooldownMs r.
Proof.
  assert (Hb : 0 < cooldownMs (AccountFallback.backoff sampleConfig level)).
  { unfold AccountFallback.backoff, AccountFallback.getQuotaCooldown.
    cbn [cooldownMs sampleConfig BACKOFF_CONFIG Backoff.base Backoff.max].
    assert (0 < 2 ^ Z.of_nat level) by (apply Z.pow_pos_nonneg; lia).
    lia. }
  unfold AccountFallback.checkFallbackError, AccountFallback.checkStatus.
  destruct (AccountFallback.truthy errorText);
    [destruct (AccountFallback.lowerErrorOf errorText); [|discriminate]|];
    repeat match goal with
           | |- context [if ?b then _ else _] => destruct b
           end;
    intros [= <-]; first [ exact Hb | cbn; lia ].
Qed.

(** X18.  The account loop of [handleSingleModelChat] ends within one
    turn per active connection of the provider, plus one, provided the
    clock readings of the run stay at or below a time [T] and every
    cooldown set during the run ends after [T]: each failed attempt takes
    one connection out of the running until after [T], or leaves the loop
    with the classifier's exception. *)
Theorem account_loop_ends
    (cfg : Config) (settings : Settings) (provider : string)
    (clock : nat -> Z) (handleChatCore : nat -> Creds.t -> ChatResult)
    (T : Z) (s : Store.t) :
  (forall n, clock n <= T) ->
  (forall n status errorText level r,
      AccountFallback.checkFallbackError cfg status errorText level
      = Normal r ->
      T < clock n + cooldownMs r) ->
  exists e s',
    Chat.accountLoop cfg settings provider clock handleChatCore
      (S (List.length
            (Store.getProviderConnections
               {| Store.f_provider := Some provider;
                  Store.f_isActive := Some true |} s)))
      0 Chat.initial s
    = (Some e, s').
Proof.
  intros Hclock Hcool.
  apply (accountLoop_ends cfg settings provider clock handleChatCore T
           Hclock Hcool).
  unfold candidates.
  pose proof (filter_length_le (mayServe T)
                (Store.getProviderConnections
                   {| Store.f_provider := Some provider;
                      Store.f_isActive := Some true |} s)).
  lia.
Qed.

(** Two connections, an upstream that always fails, and a clock that
    stands still: the loop ends within three turns. *)
Lemma account_loop_ends_witness :
  exists e s',
    Chat.accountLoop sampleConfig fillFirst "cursor" (fun _ => 1000)
      alwaysFails
      (S (List.length
            (Store.getProviderConnections
               {| Store.f_provider := Some "cursor";
                  Store.f_isActive := Some true |} storeAB)))
      0 Chat.initial storeAB
    = (Some e, s').
Proof.
  apply (account_loop_ends sampleConfig fillFirst "cursor" (fun _ => 1000)
           alwaysFails 1000 storeAB).
  - intros n. lia.
  - intros n status errorText level r Hr.
    pose proof (sampleConfig_cooldown_positive status errorText level r Hr).
    lia.
Defined.

(** X19.  Without such a bound the loop need not end.  With two active
    connections, an upstream that fails every request with status 503 and
    a clock that advances by at least the transient cooldown from one
    turn to the next, the loop never leaves: when the second connection
    has failed the cooldown of the first is over, only the connection
    that failed last is excluded, and the two are tried in turn for
    ever. *)
Theorem slow_failures_never_exit
    (cfg : Config) (clock : nat -> Z) (s : Store.t) (fuel : nat) :
  0 <= Cooldown.transient (COOLDOWN_MS cfg) ->
  (forall n,
      clock n + Cooldown.transient (COOLDOWN_MS cfg) <= clock (S n)) ->
  twoQuiet (clock 0%nat) s ->
  fst (Chat.accountLoop cfg fillFirst "cursor" clock alwaysFails fuel 0
         Chat.initial s)
  = None.
Proof.
  intros Hd Hslow Hs.
  exact (accountLoop_goes_round cfg clock Hd Hslow fuel 0%nat Chat.initial s
           Hs).
Qed.

(** Cooldowns of five seconds and attempts that take ten: after a hundred
    turns the loop is still running. *)
Lemma slow_failures_never_exit_witness :
  fst (Chat.accountLoop sampleConfig fillFirst "cursor" tenSeconds
         alwaysFails 100 0 Chat.initial storeAB)
  = None.
Proof.
  apply (slow_failures_never_exit sampleConfig tenSeconds storeAB 100).
  - cbn. lia.
  - intros n. unfold tenSeconds. cbn [sampleConfig COOLDOWN_MS
      Cooldown.transient]. lia.
  - exists (freshConn "A" 1), (freshConn "B" 2).
    repeat (split; [reflexivity|]).
    split; intros u Hu; discriminate Hu.
Defined.

(** ** Base executor and model combos: the loops *)

Section ExecuteFacts.

Variable config : BaseExecutor.ExecutorConfig.
Variable fetch : nat -> Completion Z.

Let count : nat := BaseExecutor.getFallbackCount config.

Lemma getFallbackCount_positive : (0 < BaseExecutor.getFallbackCount config)%nat.
Proof.
  unfold BaseExecutor.getFallbackCount.
  destruct (List.length (BaseExecutor.getBaseUrls config)); lia.
Qed.

Lemma executeFrom_spec (remaining : nat) :
  forall (urlIndex : nat) (lastError : option string) (lastStatus : Z),
    (0 < remaining)%nat -> (remaining + urlIndex = count)%nat ->
    exists i,
      (urlIndex <= i < count)%nat
      /\ (forall j, (urlIndex <= j < i)%nat ->
                    fetch j = Normal 429 \/ exists e, fetch j = Throw e)
      /\ match fetch i with
         | Normal status =>
             BaseExecutor.executeFrom config fetch remaining urlIndex
               lastError lastStatus
             = BaseExecutor.Returned i status
             /\ (status <> 429 \/ (i + 1)%nat = count)
         | Throw e =>
             BaseExecutor.executeFrom config fetch remaining urlIndex
               lastError lastStatus
             = BaseExecutor.Thrown e
             /\ (i + 1)%nat = count
         end.
Proof.
  induction remaining as [|remaining IH];
    intros urlIndex lastError lastStatus Hpos Hsum; [lia|].
  cbn [BaseExecutor.executeFrom]. unfold BaseExecutor.shouldRetry.
  fold count.
  destruct (Nat.ltb_spec (urlIndex + 1) count) as [Hmore | Hlast].
  - assert (Hrem : (0 < remaining)%nat) by lia.
    destruct (fetch urlIndex) as [status | e] eqn:Hf.
    + change HTTP_STATUS.RATE_LIMITED with 429.
      destruct (Z.eqb_spec status 429) as [-> | Hne]; cbn [andb].
      * destruct (IH (S urlIndex) lastError 429 Hrem ltac:(lia))
          as (i & Hi & Hbefore & Hres).
        exists i. split; [lia|]. split; [|exact Hres].
        intros j Hj. destruct (Nat.eq_dec j urlIndex) as [-> | Hneq].
        -- left. exact Hf.
        -- apply Hbefore. lia.
      * exists urlIndex. split; [lia|]. split; [intros j Hj; lia|].
        rewrite Hf. split; [reflexivity | now left].
    + destruct (IH (S urlIndex) (Some e) lastStatus Hrem ltac:(lia))
        as (i & Hi & Hbefore & Hres).
      exists i. split; [lia|]. split; [|exact Hres].
      intros j Hj. destruct (Nat.eq_dec j urlIndex) as [-> | Hneq].
      * right. exists e. exact Hf.
      * apply Hbefore. lia.
  - exists urlIndex. split; [lia|]. split; [intros j Hj; lia|].
    destruct (fetch urlIndex) as [status | e].
    + rewrite andb_false_r. split; [reflexivity | right; lia].
    + split; [reflexivity | lia].
Qed.

End ExecuteFacts.

Section ComboFacts.

Variable cfg : Config.
Variable handleSingleModel : string -> ComboResponse.

(** A string never makes the classifier throw. *)
Lemma checkFallbackError_string (status : Z) (text : string) (level : nat) :
  exists r,
    AccountFallback.checkFallbackError cfg status (ErrString text) level
    = Normal r
    /\ shouldFallback r = true.
Proof.
  pose proof (checkFallbackError_shouldFallback cfg status (ErrString text)
                level) as H.
  destruct (AccountFallback.checkFallbackError cfg status (ErrString text)
              level) as [r | thrown]; [eauto | discriminate].
Qed.

Lemma comboLoop_first_success (pre post : list string) (m : string) :
  forall lastError earliest lastStatus,
    (forall x, In x pre -> cr_ok (handleSingleModel x) = false) ->
    cr_ok (handleSingleModel m) = true ->
    Combo.comboLoop cfg handleSingleModel (pre ++ m :: post)
      lastError earliest lastStatus
    = ComboReturned (handleSingleModel m).
Proof.
  induction pre as [|x pre IH]; intros lastError earliest lastStatus Hpre Hm.
  - cbn [app Combo.comboLoop]. now rewrite Hm.
  - cbn [app Combo.comboLoop].
    rewrite (Hpre x (or_introl eq_refl)).
    destruct (checkFallbackError_string
                (cr_status (handleSingleModel x))
                (Combo.errorTextOf (handleSingleModel x)) 0)
      as (r & -> & ->).
    cbn [negb].
    apply IH; [|assumption]. intros y Hy. apply Hpre. now right.
Qed.

Lemma comboLoop_all_fail (models : list string) :
  forall lastError earliest lastStatus,
    (forall x, In x models -> cr_ok (handleSingleModel x) = false) ->
    exists message retryAfter,
      Combo.comboLoop cfg handleSingleModel models lastError earliest
        lastStatus
      = ComboUnavailable 406 message retryAfter
      /\ match retryAfter with
         | Some e =>
             (earliest = Some e
              \/ exists x, In x models
                           /\ cr_retryAfter (handleSingleModel x) = Some e)
             /\ (forall a, earliest = Some a -> e <= a)
             /\ (forall x u, In x models ->
                             cr_retryAfter (handleSingleModel x) = Some u ->
                             e <= u)
         | None =>
             earliest = None
             /\ forall x, In x models ->
                          cr_retryAfter (handleSingleModel x) = None
         end.
Proof.
  induction models as [|x models IH];
    intros lastError earliest lastStatus Hall.
  - cbn [Combo.comboLoop]. eexists. exists earliest.
    split; [reflexivity|].
    destruct earliest as [e|].
    + split; [now left|]. split; [intros a [= <-]; lia|]. intros x u [].
    + split; [reflexivity|]. intros x [].
  - cbn [Combo.comboLoop].
    rewrite (Hall x (or_introl eq_refl)).
    destruct (checkFallbackError_string
                (cr_status (handleSingleModel x))
                (Combo.errorTextOf (handleSingleModel x)) 0)
      as (r & -> & ->).
    cbn [negb].
    match goal with
    | |- context [Combo.comboLoop _ _ models ?le ?ea ?ls] =>
        destruct (IH le ea ls ltac:(intros y Hy; apply Hall; now right))
          as (message & retryAfter & Heq & Hretry)
    end.
    exists message, retryAfter. split; [exact Heq|].
    destruct (cr_retryAfter (handleSingleModel x)) as [ra|] eqn:Hra.
    + destruct retryAfter as [e|].
      * destruct Hretry as (Hwhere & Hle & Hmin).
        destruct earliest as [a|].
        -- destruct (Z.ltb_spec ra a).
           ++ specialize (Hle ra eq_refl).
              split; [|split].
              ** destruct Hwhere as [[= <-] | (y & Hy & Hyr)].
                 --- right. exists x. split; [now left | assumption].
                 --- right. exists y. split; [now right | assumption].
              ** intros a' [= <-]. lia.
              ** intros y u [<- | Hy] Hu.
                 --- rewrite Hra in Hu. injection Hu as <-. lia.
                 --- now apply (Hmin y).
           ++ specialize (Hle a eq_refl).
              split; [|split].
              ** destruct Hwhere as [[= <-] | (y & Hy & Hyr)].
                 --- now left.
                 --- right. exists y. split; [now right | assumption].
              ** intros a' [= <-]. lia.
              ** intros y u [<- | Hy] Hu.
                 --- rewrite Hra in Hu. injection Hu as <-. lia.
                 --- now apply (Hmin y).
        -- specialize (Hle ra eq_refl).
           split; [|split].
           ++ destruct Hwhere as [[= <-] | (y & Hy & Hyr)].
              ** right. exists x. split; [now left | assumption].
              ** right. exists y. split; [now right | assumption].
           ++ discriminate.
           ++ intros y u [<- | Hy] Hu.
              ** rewrite Hra in Hu. injection Hu as <-. lia.
              ** now apply (Hmin y).
      * destruct Hretry as [Hnone _].
        destruct earliest as [a|]; [destruct (ra <? a)|]; discriminate.
    + destruct retryAfter as [e|].
      * destruct Hretry as (Hwhere & Hle & Hmin).
        split; [|split].
        -- destruct Hwhere as [He | (y & Hy & Hyr)]; [now left|].
           right. exists y. split; [now right | assumption].
        -- exact Hle.
        -- intros y u [<- | Hy] Hu; [congruence|]. now apply (Hmin y).
      * destruct Hretry as [-> Hnone]. split; [reflexivity|].
        intros y [<- | Hy]; [assumption | now apply Hnone].
Qed.

End ComboFacts.

(** ** Account state helpers and the Retry-After header *)

Lemma ceilSeconds_bounds (x : Z) :
  x <= 1000 * AccountState.ceilSeconds x < x + 1000.
Proof.
  unfold AccountState.ceilSeconds.
  Z.to_euclidean_division_equations. lia.
Qed.

Lemma retryParts_sum (totalSec : Z) :
  1 <= totalSec ->
  secondsOf (AccountState.retryParts totalSec) = totalSec
  /\ Forall (fun p => 0 < fst p) (AccountState.retryParts totalSec).
Proof.
  intros HT. unfold AccountState.retryParts. cbv zeta.
  set (h := totalSec / 3600).
  set (m := totalSec mod 3600 / 60).
  set (s := totalSec mod 60).
  assert (Hsum : h * 3600 + m * 60 + s = totalSec).
  { subst h m s. Z.to_euclidean_division_equations. lia. }
  assert (Hh : 0 <= h) by (subst h; apply Z.div_pos; lia).
  assert (Hm : 0 <= m).
  { subst m. apply Z.div_pos; [|lia]. apply Z.mod_pos_bound. lia. }
  assert (Hs : 0 <= s) by (subst s; apply Z.mod_pos_bound; lia).
  destruct (Z.ltb_spec 0 h); destruct (Z.ltb_spec 0 m);
    destruct (Z.ltb_spec 0 s);
    cbn [app List.length Z.of_nat Z.eqb orb andb secondsOf fold_right
         fst snd String.eqb Ascii.eqb Bool.eqb];
    (split; [lia | repeat constructor; cbn [fst]; lia]).
Qed.

(** X24.  For a retry time that lies after the clock reading, the
    [Retry-After] header [unavailableResponse] sends is at least 1, is the
    least number of whole seconds after which the retry time has passed,
    and equals the time [formatRetryAfter] spells out: the hours, minutes
    and seconds it shows are all positive and add up to the header
    value. *)
Theorem retry_after_header_matches_text (now statusCode retryAfter : Z)
    (message human : string) :
  now < retryAfter ->
  let r :=
    ErrorUtil.unavailableResponse now statusCode message retryAfter human in
  let parts :=
    AccountState.retryParts (AccountState.ceilSeconds (retryAfter - now)) in
  1 <= ur_retryAfter r
  /\ retryAfter <= now + 1000 * ur_retryAfter r < retryAfter + 1000
  /\ AccountState.formatRetryAfter now (Some retryAfter)
     = String.append "reset after "
         (String.concat " "
            (map (fun p => String.append (numberToString (fst p)) (snd p))
                 parts))
  /\ secondsOf parts = ur_retryAfter r
  /\ Forall (fun p => 0 < fst p) parts.
Proof.
  intros Hlt. cbv zeta. unfold ErrorUtil.unavailableResponse.
  cbn [ur_retryAfter].
  pose proof (ceilSeconds_bounds (retryAfter - now)) as Hc.
  assert (H1 : 1 <= AccountState.ceilSeconds (retryAfter - now)) by lia.
  rewrite Z.max_l by lia.
  destruct (retryParts_sum _ H1) as [Hsum Hpos].
  split; [lia|]. split; [lia|]. split.
  - unfold AccountState.formatRetryAfter.
    destruct (Z.leb_spec (retryAfter - now) 0); [lia | reflexivity].
  - split; assumption.
Qed.

Section AccountStateFacts.

Variable cfg : Config.

(** X23.  An account that [applyErrorState] has put in the error state at
    time [now] is left out by [filterAvailableAccounts] at the times from
    [now] on that lie before [now + cooldownMs], and at no other time
    from [now] on; [resetAccountState] brings it back at every time, with
    backoff level 0 and the same id.  [applyErrorState] throws exactly
    when the classifier does, with the same exception. *)
Theorem error_state_lasts_for_the_cooldown (now t : Z) (a : Account.t) (status : Z)
    (errorText : ErrorText) :
  now <= t ->
  match AccountFallback.checkFallbackError cfg status errorText
          (Account.backoffLevel a),
        AccountState.applyErrorState cfg now a status errorText with
  | Normal r, Normal a' =>
      (AccountState.filterAvailableAccounts t [a'] None = []
       <-> t < now + cooldownMs r)
      /\ AccountState.filterAvailableAccounts t
           [AccountState.resetAccountState a'] None
         = [AccountState.resetAccountState a']
      /\ Account.id (AccountState.resetAccountState a') = Account.id a
      /\ Account.backoffLevel (AccountState.resetAccountState a') = O
  | Throw thrown, Throw thrown' => thrown = thrown'
  | _, _ => False
  end.
Proof.
  intros Ht.
  unfold AccountState.applyErrorState.
  destruct (AccountFallback.checkFallbackError cfg status errorText _)
    as [r | thrown]; [|reflexivity].
  unfold AccountState.filterAvailableAccounts, Cooldowns.getUnavailableUntil.
  cbn [filter Account.rateLimitedUntil AccountState.resetAccountState
       Account.id Account.backoffLevel].
  split; [|auto].
  destruct (Z.ltb_spec 0 (cooldownMs r)).
  - destruct (Z.ltb_spec t (now + cooldownMs r)).
    + split; [intros _; assumption | reflexivity].
    + split; [discriminate | lia].
  - split; [discriminate | lia].
Qed.

End AccountStateFacts.

(** ** Base executor: URL fallback *)


(** ** Model combos *)

Lemma numberToString_truthy (n : Z) :
  JS.truthy_string (numberToString n) = true.
Proof.
  unfold numberToString.
  destruct (Z.to_int n) as [d | d]; [|reflexivity].
  destruct d; reflexivity.
Qed.

Lemma comboLoop_message (cfg : Config)
    (handleSingleModel : string -> ComboResponse) (pre : list string)
    (m : string) :
  forall lastError earliest lastStatus,
    (forall x, In x (pre ++ [m]) -> cr_ok (handleSingleModel x) = false) ->
    exists retryAfter,
      Combo.comboLoop cfg handleSingleModel (pre ++ [m]) lastError earliest
        lastStatus
      = ComboUnavailable 406 (keptError (handleSingleModel m)) retryAfter.
Proof.
  induction pre as [|x pre IH]; intros lastError earliest lastStatus Hall.
  - cbn [app Combo.comboLoop].
    rewrite (Hall m (or_introl eq_refl)).
    destruct (checkFallbackError_string cfg
                (cr_status (handleSingleModel m))
                (Combo.errorTextOf (handleSingleModel m)) 0)
      as (r & -> & ->).
    cbn [negb].
    eexists. unfold keptError.
    destruct (JS.truthy_string (Combo.errorTextOf (handleSingleModel m)))
      eqn:Ht.
    + rewrite Ht. reflexivity.
    + rewrite numberToString_truthy. reflexivity.
  - cbn [app Combo.comboLoop].
    rewrite (Hall x (or_introl eq_refl)).
    destruct (checkFallbackError_string cfg
                (cr_status (handleSingleModel x))
                (Combo.errorTextOf (handleSingleModel x)) 0)
      as (r & -> & ->).
    cbn [negb].
    apply IH. intros y Hy. apply Hall. now right.
Qed.



(** An account that fails with status 503 at time 1000 is cooled until
    6000; it is looked at two seconds after the failure. *)
Lemma error_state_lasts_for_the_cooldown_witness :
  (AccountState.filterAvailableAccounts 3000 [cooledAccount] None = []
   <-> 3000 < 1000 + 5000)
  /\ AccountState.filterAvailableAccounts 3000
       [AccountState.resetAccountState cooledAccount] None
     = [AccountState.resetAccountState cooledAccount]
  /\ Account.id (AccountState.resetAccountState cooledAccount) = "acc"
  /\ Account.backoffLevel (AccountState.resetAccountState cooledAccount) = O.
Proof.
  apply (error_state_lasts_for_the_cooldown sampleConfig 1000 3000
           (Account.Build "acc" None O None "active") 503 ErrAbsent).
  lia.
Defined.

(** A retry time 3 661 500 ms ahead: 1h 1m 2s. *)
Lemma retry_after_header_matches_text_witness :
  1 <= ur_retryAfter
         (ErrorUtil.unavailableResponse 1000 429 "busy" 3662500
            "reset after 1h 1m 2s")
  /\ 3662500
     <= 1000 + 1000 * ur_retryAfter
                        (ErrorUtil.unavailableResponse 1000 429 "busy"
                           3662500 "reset after 1h 1m 2s")
     < 3662500 + 1000
  /\ AccountState.formatRetryAfter 1000 (Some 3662500)
     = String.append "reset after "
         (String.concat " "
            (map (fun p => String.append (numberToString (fst p)) (snd p))
                 (AccountState.retryParts
                    (AccountState.ceilSeconds (3662500 - 1000)))))
  /\ secondsOf
       (AccountState.retryParts
          (AccountState.ceilSeconds (3662500 - 1000)))
     = ur_retryAfter
         (ErrorUtil.unavailableResponse 1000 429 "busy" 3662500
            "reset after 1h 1m 2s")
  /\ Forall (fun p => 0 < fst p)
       (AccountState.retryParts
          (AccountState.ceilSeconds (3662500 - 1000))).
Proof.
  apply (retry_after_header_matches_text 1000 429 3662500 "busy"
           "reset after 1h 1m 2s").
  lia.
Defined.
